(** * Response orchestration of the Gemini chat agent

    A shallow embedding of [GeminiResponseHandler], of the two versions of
    [GeminiAgent] (server/src/agents/gemini) and of the express routes that
    start and stop agents, with the asynchronous control flow written out
    as labelled transition systems.

    JavaScript runs the agent on one thread.  A piece of code runs without
    interruption until it reaches an [await] on an operation that the
    environment completes later (a channel request, the upstream call, the
    next fragment of the stream, a timer).  Each such [await] is a program
    point of the model; one transition is the code executed between two of
    them.  An [await] on a promise of the program's own async functions that
    is already settled ([await this.dispose()], the return of [run] into
    [processMessage], the return of [processMessage] into [handleMessage])
    resumes from the microtask queue, before any event of the environment is
    dispatched, and is therefore part of the same transition.

    The chat transport is taken to be reliable: [sendMessage], [sendEvent]
    and [partialUpdateMessage] always resolve.  The upstream call and the
    fragment stream may fail. *)

From Stdlib Require Import ZArith Lia.
From stdpp Require Import base list strings gmap.

Local Open Scope string_scope.
Local Open Scope Z_scope.
Local Open Scope list_scope.

(** ** Values shared by the handler and the agents *)

(** [MessageResponse]: the fields of the target chat message that are read. *)
Record MessageResponse := { m_id : string; m_cid : string }.

Inductive AiState := AI_STATE_THINKING | AI_STATE_GENERATING | AI_STATE_ERROR.

Inductive Role := user | model.

(** One entry of [chatHistory]: [{ role, parts: [{ text }] }]. *)
Record Turn := { role : Role; text : string }.

(** A thrown [Error]: its [name] and [message]. *)
Record JsError := { err_name : string; err_message : string }.

(** JavaScript truthiness of a string. *)
Definition truthy (s : string) : bool :=
  match s with EmptyString => false | _ => true end.

(** [a || b] on strings. *)
Definition or_else (a b : string) : string := if truthy a then a else b.

(** [Error.prototype.toString]. *)
Definition toString (e : JsError) : string :=
  if negb (truthy (err_name e)) then err_message e
  else if negb (truthy (err_message e)) then err_name e
  else err_name e +:+ ": " +:+ err_message e.

(** [String.prototype.includes]. *)
Fixpoint includes (needle hay : string) : bool :=
  if String.prefix needle hay then true
  else match hay with
       | EmptyString => false
       | String _ rest => includes needle rest
       end.

(** [needle] occurs in [hay]. *)
Definition occurs_in (needle hay : string) : Prop :=
  exists before after, hay = before +:+ needle +:+ after.

(** Requests issued to the collaborators, in the order of issue. *)
Inductive Effect :=
| SendMessage (text : string) (ai_generated : bool)
| SendIndicator (ai_state : AiState) (cid message_id : string)
| SendClear (cid message_id : string)
| PartialUpdateMessage (message_id : string) (text : string)
| GenerateContentStream (model_name : string) (contents : list Turn)
    (context : option string)
| SetTimeout (ms : Z)
| DisconnectUser
| OffStop
| OnDispose.

Definition is_channel_effect (e : Effect) : bool :=
  match e with
  | SendMessage _ _ | SendIndicator _ _ _ | SendClear _ _
  | PartialUpdateMessage _ _ => true
  | _ => false
  end.

Definition channel_effects (l : list Effect) : list Effect :=
  List.filter is_channel_effect l.

(** The text of a chat message as the channel shows it: the last write. *)
Definition displayed (message_id : string) (tr : list Effect) : option string :=
  foldl (fun shown e =>
           match e with
           | PartialUpdateMessage id' t =>
               if String.eqb id' message_id then Some t else shown
           | _ => shown
           end) None tr.

Definition is_OnDispose (e : Effect) : bool :=
  match e with OnDispose => true | _ => false end.

Definition is_OffStop (e : Effect) : bool :=
  match e with OffStop => true | _ => false end.


(** ** Values shared by the two versions of the agent *)

(** The fields of an inbound chat message that the agent reads. *)
Record Message := {
  msg_text : option string;
  msg_ai_generated : bool;
  msg_writingTask : option string;      (* custom?.writingTask *)
}.

(** A "message.new" event: [e.user?.id] and [e.message]. *)
Record Event := { e_user : option string; e_message : option Message }.

(** The guards at the head of [handleMessage]; the accepted text. *)
Definition accepted (genai : bool) (self : option string) (e : Event)
  : option string :=
  if negb genai then None
  else if bool_decide (e_user e = self) then None
  else match e_message e with
       | None => None
       | Some m =>
           if msg_ai_generated m then None
           else match msg_text m with
                | Some t => if truthy t then Some t else None
                | None => None
                end
       end.

(** [e.message!.text!]. *)
Definition text_of (e : Event) : string :=
  match e_message e with
  | Some m => default "" (msg_text m)
  | None => ""
  end.

(** [writingTask ? `Writing Task: ${writingTask}` : undefined]; the system
    prompt is [getSystemPrompt(context)], a fixed template around it. *)
Definition context_of (e : Event) : option string :=
  match e_message e with
  | Some m =>
      match msg_writingTask m with
      | Some w => if truthy w then Some ("Writing Task: " +:+ w) else None
      | None => None
      end
  | None => None
  end.

Definition maxRetries : Z := 3.

(** [retryError?.message || String(retryError)]. *)
Definition errorMessage (retryError : JsError) : string :=
  or_else (err_message retryError) (toString retryError).

Definition isRateLimit (errorMessage : string) : bool :=
  includes "429" errorMessage
  || includes "quota" errorMessage
  || includes "Too Many Requests" errorMessage.

(** [Math.pow(2, attempt + 1) * 1000]. *)
Definition delay (attempt : Z) : Z := 2 ^ (attempt + 1) * 1000.

(** How the environment settles the operation a task awaits. *)
Inductive Resolution :=
| Sent (channelMessage : MessageResponse)   (* sendMessage resolved *)
| Done                                      (* sendEvent or partialUpdateMessage resolved *)
| Timeout                                   (* the timer fired *)
| Stream                                    (* generateContentStream resolved *)
| Failed (retryError : JsError)             (* generateContentStream rejected *)
| NextChunk (chunk_text : option string)    (* the stream yielded a chunk *)
| StreamEnd                                 (* the stream is exhausted *)
| StreamError (error : JsError).            (* the stream threw *)

(** What the environment can do to an agent. *)
Inductive AEvent :=
| MessageNew (e : Event)                    (* "message.new" *)
| StopGenerating (message_id : option string)   (* "ai_indicator.stop" *)
| Resume (task : nat) (r : Resolution)
| StopResume (handler : nat)                (* the request awaited by a stop listener resolves *)
| DisposeCall                               (* [dispose()] is called *)
| Disconnected.                             (* [disconnectUser()] resolved *)

(** ** GeminiResponseHandler *)

Module ResponseHandler.

(** Program points of [run]. *)
Inductive RunPc :=
| NotStarted
| AwaitChunk
| AwaitPartialUpdate (now : Z)
| AwaitFinalUpdate
| AwaitFinalClear
| AwaitErrorEvent (error : JsError)
| AwaitErrorUpdate
| Returned (fullText : string).

(** Program points of [handleStopGenerating]. *)
Inductive StopPc := StopIdle | StopAwaitUpdate | StopAwaitClear.

Record GeminiResponseHandler := {
  message : MessageResponse;
  message_text : string;
  is_done : bool;
  last_update_time : Z;
  (** [handleStopGenerating] is registered for "ai_indicator.stop" *)
  subscribed : bool;
  run_pc : RunPc;
  stop_pc : StopPc;
}.

Definition with_text (t : string) (h : GeminiResponseHandler) :=
  {| message := message h; message_text := t; is_done := is_done h;
     last_update_time := last_update_time h; subscribed := subscribed h;
     run_pc := run_pc h; stop_pc := stop_pc h |}.

Definition with_done (b : bool) (h : GeminiResponseHandler) :=
  {| message := message h; message_text := message_text h; is_done := b;
     last_update_time := last_update_time h; subscribed := subscribed h;
     run_pc := run_pc h; stop_pc := stop_pc h |}.

Definition with_last_update (t : Z) (h : GeminiResponseHandler) :=
  {| message := message h; message_text := message_text h; is_done := is_done h;
     last_update_time := t; subscribed := subscribed h;
     run_pc := run_pc h; stop_pc := stop_pc h |}.

Definition with_subscribed (b : bool) (h : GeminiResponseHandler) :=
  {| message := message h; message_text := message_text h; is_done := is_done h;
     last_update_time := last_update_time h; subscribed := b;
     run_pc := run_pc h; stop_pc := stop_pc h |}.

Definition at_run (pc : RunPc) (h : GeminiResponseHandler) :=
  {| message := message h; message_text := message_text h; is_done := is_done h;
     last_update_time := last_update_time h; subscribed := subscribed h;
     run_pc := pc; stop_pc := stop_pc h |}.

Definition at_stop (pc : StopPc) (h : GeminiResponseHandler) :=
  {| message := message h; message_text := message_text h; is_done := is_done h;
     last_update_time := last_update_time h; subscribed := subscribed h;
     run_pc := run_pc h; stop_pc := pc |}.

(** The constructor: fields initialised, the stop listener registered. *)
Definition new (msg : MessageResponse) : GeminiResponseHandler :=
  {| message := msg; message_text := ""; is_done := false;
     last_update_time := 0; subscribed := true;
     run_pc := NotStarted; stop_pc := StopIdle |}.

(** [dispose]. *)
Definition dispose (h : GeminiResponseHandler)
  : GeminiResponseHandler * list Effect :=
  if is_done h then (h, [])
  else (with_subscribed false (with_done true h), [OffStop; OnDispose]).

(** The [return this.message_text] of [run] followed by its [finally]. *)
Definition run_return (h : GeminiResponseHandler)
  : GeminiResponseHandler * list Effect :=
  let fullText := message_text h in
  let '(h1, e1) := dispose h in
  (at_run (Returned fullText) h1, e1).

(** [run] from the end of the [for await] loop. *)
Definition after_loop (h : GeminiResponseHandler)
  : GeminiResponseHandler * list Effect :=
  if negb (is_done h) then
    (at_run AwaitFinalUpdate h,
     [PartialUpdateMessage (m_id (message h)) (message_text h)])
  else run_return h.

(** One iteration of the [for await] loop on a delivered chunk. *)
Definition on_chunk (chunk_text : option string) (now : Z)
    (h : GeminiResponseHandler) : GeminiResponseHandler * list Effect :=
  if is_done h then after_loop h
  else match chunk_text with
       | Some t =>
           if truthy t then
             let h1 := with_text (message_text h +:+ t) h in
             if now - last_update_time h1 >? 1000 then
               (at_run (AwaitPartialUpdate now) h1,
                [PartialUpdateMessage (m_id (message h1)) (message_text h1)])
             else (h1, [])
           else (h, [])
       | None => (h, [])
       end.

(** The [catch] of [run] up to the first [await] of [handleError]. *)
Definition on_throw (error : JsError) (h : GeminiResponseHandler)
  : GeminiResponseHandler * list Effect :=
  if is_done h then run_return h
  else (at_run (AwaitErrorEvent error) h,
        [SendIndicator AI_STATE_ERROR (m_cid (message h)) (m_id (message h))]).

(** [handleStopGenerating] up to its first [await]. *)
Definition handleStopGenerating (message_id : option string)
    (h : GeminiResponseHandler) : GeminiResponseHandler * list Effect :=
  if is_done h || negb (bool_decide (message_id = Some (m_id (message h))))
  then (h, [])
  else
    let h1 := with_done true h in
    if truthy (message_text h1) then
      (at_stop StopAwaitUpdate h1,
       [PartialUpdateMessage (m_id (message h1)) (message_text h1)])
    else
      (at_stop StopAwaitClear h1,
       [SendClear (m_cid (message h1)) (m_id (message h1))]).

(** What the environment can do to a handler. *)
Inductive HEvent :=
| Run                                   (* the owner calls [run()] *)
| Chunk (chunk_text : option string) (now : Z)  (* the stream yields *)
| End                                   (* the stream is exhausted *)
| Throw (error : JsError)               (* the stream throws *)
| Ack                                   (* the request awaited by [run] resolves *)
| Stop (message_id : option string)     (* "ai_indicator.stop" is dispatched *)
| StopAck                               (* the request awaited by the stop listener resolves *)
| Dispose.                              (* the owner calls [dispose()] *)

Definition step (h : GeminiResponseHandler) (ev : HEvent)
  : GeminiResponseHandler * list Effect :=
  match ev with
  | Run =>
      match run_pc h with
      | NotStarted => (at_run AwaitChunk h, [])
      | _ => (h, [])
      end
  | Chunk t now =>
      match run_pc h with
      | AwaitChunk => on_chunk t now h
      | _ => (h, [])
      end
  | End =>
      match run_pc h with
      | AwaitChunk => after_loop h
      | _ => (h, [])
      end
  | Throw error =>
      match run_pc h with
      | AwaitChunk => on_throw error h
      | _ => (h, [])
      end
  | Ack =>
      match run_pc h with
      | AwaitPartialUpdate now =>
          (at_run AwaitChunk (with_last_update now h), [])
      | AwaitFinalUpdate =>
          (at_run AwaitFinalClear h,
           [SendClear (m_cid (message h)) (m_id (message h))])
      | AwaitFinalClear => run_return h
      | AwaitErrorEvent error =>
          (at_run AwaitErrorUpdate h,
           [PartialUpdateMessage (m_id (message h))
              (or_else (toString error) "Error generating the message")])
      | AwaitErrorUpdate =>
          let '(h1, e1) := dispose h in
          let '(h2, e2) := run_return h1 in
          (h2, e1 ++ e2)
      | _ => (h, [])
      end
  | Stop message_id =>
      if subscribed h then handleStopGenerating message_id h else (h, [])
  | StopAck =>
      match stop_pc h with
      | StopAwaitUpdate =>
          (at_stop StopAwaitClear h,
           [SendClear (m_cid (message h)) (m_id (message h))])
      | StopAwaitClear =>
          let '(h1, e1) := dispose h in
          (at_stop StopIdle h1, e1)
      | StopIdle => (h, [])
      end
  | Dispose => dispose h
  end.

(** A sequence of events, with the requests issued along the way. *)
Fixpoint steps (h : GeminiResponseHandler) (evs : list HEvent)
  : GeminiResponseHandler * list Effect :=
  match evs with
  | [] => (h, [])
  | ev :: evs' =>
      let '(h1, e1) := step h ev in
      let '(h2, e2) := steps h1 evs' in
      (h2, e1 ++ e2)
  end.

(** *** Runs of a handler *)

(** The events of a [run] that nothing disturbs: the stream yields its
    fragments, each with the clock reading at its arrival, every write is
    acknowledged before the next fragment is pulled, and the stream ends. *)
Definition stream_schedule (chunks : list (option string * Z)) : list HEvent :=
  Run :: flat_map (fun c => [Chunk (fst c) (snd c); Ack]) chunks
      ++ [End; Ack; Ack].

(** The concatenation of the fragment texts. *)
Definition full_text (chunks : list (option string * Z)) : string :=
  foldr (fun c acc => default "" (fst c) +:+ acc) "" chunks.

(** The clock readings at which the loop of [run] issued a write. *)
Fixpoint partial_update_times (h : GeminiResponseHandler) (evs : list HEvent)
  : list Z :=
  match evs with
  | [] => []
  | ev :: evs' =>
      let '(h1, e1) := step h ev in
      match ev, e1 with
      | Chunk _ now, _ :: _ => now :: partial_update_times h1 evs'
      | _, _ => partial_update_times h1 evs'
      end
  end.

(** Each reading is more than 1000 ms after the one before. *)
Fixpoint spaced (prev : Z) (ts : list Z) : Prop :=
  match ts with
  | [] => True
  | t :: ts' => t - prev > 1000 /\ spaced t ts'
  end.

(** The reading that the next write is compared with. *)
Definition throttle_base (h : GeminiResponseHandler) : Z :=
  match run_pc h with
  | AwaitPartialUpdate now => now
  | _ => last_update_time h
  end.

(** The event resumes a path that was past its [is_done] guard when it was
    suspended. *)
Definition in_flight (h : GeminiResponseHandler) (ev : HEvent) : bool :=
  match ev with
  | Ack =>
      match run_pc h with
      | AwaitFinalUpdate | AwaitErrorEvent _ => true
      | _ => false
      end
  | StopAck =>
      match stop_pc h with StopAwaitUpdate => true | _ => false end
  | _ => false
  end.



Definition is_clear (e : Effect) : bool :=
  match e with SendClear _ _ => true | _ => false end.

(** How often a sequence of requests unregisters the stop listener and
    calls [onDispose]. *)
Definition count_OffStop (es : list Effect) : nat :=
  length (List.filter is_OffStop es).

Definition count_OnDispose (es : list Effect) : nat :=
  length (List.filter is_OnDispose es).

(** A handler in the middle of its stream: [run] waits for the next
    fragment, nothing has terminated it, the stop listener is registered. *)
Definition streaming (h : GeminiResponseHandler) : Prop :=
  run_pc h = AwaitChunk /\ is_done h = false /\ subscribed h = true
  /\ stop_pc h = StopIdle.

(** The handler has not reached [is_done]. *)
Definition live (h : GeminiResponseHandler) : bool := negb (is_done h).

(** [run] returns through its [finally], which disposes. *)
Definition returned_done (h : GeminiResponseHandler) : Prop :=
  match run_pc h with Returned _ => is_done h = true | _ => True end.

(** A later state of a handler: [is_done] is not reset, and a returned
    [run] stays disposed. *)
Definition evolves (h h1 : GeminiResponseHandler) : Prop :=
  (is_done h1 = false -> is_done h = false)
  /\ (returned_done h -> returned_done h1).

(** The heap after an event that reaches handlers only. *)
Definition heap_evolves (hp hp1 : list GeminiResponseHandler) : Prop :=
  length hp1 = length hp
  /\ forall ref h1, hp1 !! ref = Some h1 ->
       exists h, hp !! ref = Some h /\ evolves h h1.

(** A write to the target message. *)
Definition is_partial_update (id : string) (e : Effect) : Prop :=
  exists t, e = PartialUpdateMessage id t.


(** [run] has returned the text the handler holds, and the handler is done. *)
Definition returned_text (h : GeminiResponseHandler) : Prop :=
  match run_pc h with
  | Returned fullText => fullText = message_text h /\ is_done h = true
  | _ => True
  end.

(** An event that resumes [run]. *)
Definition of_run (ev : HEvent) : bool :=
  match ev with
  | Run | Chunk _ _ | End | Throw _ | Ack => true
  | _ => false
  end.

(** No stop listener is suspended, and a handler that is done has
    unregistered its stop listener. *)
Definition tidy (h : GeminiResponseHandler) : Prop :=
  stop_pc h = StopIdle /\ (is_done h = true -> subscribed h = false).



Definition example_message : MessageResponse :=
  {| m_id := "m1"; m_cid := "messaging:c1" |}.

(** A handler that has received "Hi" and waits for the next fragment. *)
Definition example_streaming : GeminiResponseHandler :=
  fst (steps (new example_message) [Run; Chunk (Some "Hi") 5000; Ack]).

End ResponseHandler.

(** ** The runtime shared by the two versions of the agent *)

(** Program points of one [handleMessage] invocation that got past its
    guards, through the [processMessage] calls it makes ([AwaitSpacing]
    exists in the queuing version only). *)
Inductive TaskPc :=
| AwaitSendMessage (context : option string)
| AwaitThinking (channelMessage : MessageResponse) (context : option string)
| AwaitSpacing (channelMessage : MessageResponse) (context : option string)
| AwaitGenerating (channelMessage : MessageResponse) (context : option string)
| AwaitUpstream (channelMessage : MessageResponse) (context : option string)
    (attempt : Z)
| AwaitBackoff (channelMessage : MessageResponse) (context : option string)
    (attempt : Z)
| AwaitRun (channelMessage : MessageResponse) (handler : nat)
| AwaitCatchEvent (channelMessage : MessageResponse)
| AwaitCatchUpdate (channelMessage : MessageResponse)
| Finished.

(** The task has not run to its end. *)
Definition active (pc : TaskPc) : bool :=
  match pc with Finished => false | _ => true end.

(** The attempt counter of the retry loop stays within its bounds. *)
Definition attempt_ok (pc : TaskPc) : Prop :=
  match pc with
  | AwaitUpstream _ _ attempt => 0 <= attempt <= maxRetries
  | AwaitBackoff _ _ attempt => 0 <= attempt < maxRetries
  | _ => True
  end.

(** "ai_indicator.stop" reaches the listener of every subscribed handler,
    in the order of registration. *)
Fixpoint dispatch_stop (message_id : option string)
    (hs : list ResponseHandler.GeminiResponseHandler)
  : list ResponseHandler.GeminiResponseHandler * list Effect :=
  match hs with
  | [] => ([], [])
  | h :: hs' =>
      let '(h1, e1) := ResponseHandler.step h (ResponseHandler.Stop message_id) in
      let '(hs1, e2) := dispatch_stop message_id hs' in
      (h1 :: hs1, e1 ++ e2)
  end.

(** ** GeminiAgent, the version without [isProcessing] and [messageQueue] *)

Module Direct.
Import ResponseHandler.

Record State := {
  genai : bool;
  self_id : option string;              (* chatClient.user?.id *)
  listening : bool;                     (* handleMessage is registered for "message.new" *)
  lastInteractionTs : Z;
  chatHistory : list Turn;
  handlers : list nat;
  heap : list GeminiResponseHandler;
  tasks : list TaskPc;
  disposing : bool;                     (* dispose() awaits disconnectUser() *)
  trace : list Effect;
}.

Definition set_listening (v : bool) (s : State) : State :=
  {| genai := genai s; self_id := self_id s; listening := v; lastInteractionTs
     := lastInteractionTs s; chatHistory := chatHistory s; handlers := handlers
     s; heap := heap s; tasks := tasks s; disposing := disposing s; trace :=
     trace s |}.

Definition set_lastInteractionTs (v : Z) (s : State) : State :=
  {| genai := genai s; self_id := self_id s; listening := listening s;
     lastInteractionTs := v; chatHistory := chatHistory s; handlers := handlers
     s; heap := heap s; tasks := tasks s; disposing := disposing s; trace :=
     trace s |}.

Definition set_chatHistory (v : list Turn) (s : State) : State :=
  {| genai := genai s; self_id := self_id s; listening := listening s;
     lastInteractionTs := lastInteractionTs s; chatHistory := v; handlers :=
     handlers s; heap := heap s; tasks := tasks s; disposing := disposing s;
     trace := trace s |}.

Definition set_handlers (v : list nat) (s : State) : State :=
  {| genai := genai s; self_id := self_id s; listening := listening s;
     lastInteractionTs := lastInteractionTs s; chatHistory := chatHistory s;
     handlers := v; heap := heap s; tasks := tasks s; disposing := disposing s;
     trace := trace s |}.

Definition set_heap (v : list GeminiResponseHandler) (s : State) : State :=
  {| genai := genai s; self_id := self_id s; listening := listening s;
     lastInteractionTs := lastInteractionTs s; chatHistory := chatHistory s;
     handlers := handlers s; heap := v; tasks := tasks s; disposing :=
     disposing s; trace := trace s |}.

Definition set_tasks (v : list TaskPc) (s : State) : State :=
  {| genai := genai s; self_id := self_id s; listening := listening s;
     lastInteractionTs := lastInteractionTs s; chatHistory := chatHistory s;
     handlers := handlers s; heap := heap s; tasks := v; disposing := disposing
     s; trace := trace s |}.

Definition set_disposing (v : bool) (s : State) : State :=
  {| genai := genai s; self_id := self_id s; listening := listening s;
     lastInteractionTs := lastInteractionTs s; chatHistory := chatHistory s;
     handlers := handlers s; heap := heap s; tasks := tasks s; disposing := v;
     trace := trace s |}.

Definition set_trace (v : list Effect) (s : State) : State :=
  {| genai := genai s; self_id := self_id s; listening := listening s;
     lastInteractionTs := lastInteractionTs s; chatHistory := chatHistory s;
     handlers := handlers s; heap := heap s; tasks := tasks s; disposing :=
     disposing s; trace := v |}.

Definition emit (es : list Effect) (s : State) : State :=
  set_trace (trace s ++ es) s.

Definition model_name : string := "gemini-2.0-flash-lite".

(** The state after [init()]. *)
Definition initial (self : option string) : State :=
  {| genai := true; self_id := self; listening := true;
     lastInteractionTs := 0; chatHistory := []; handlers := [];
     heap := []; tasks := []; disposing := false; trace := [] |}.

(** [removeHandler]. *)
Definition removeHandler (handlerToRemove : nat) (s : State) : State :=
  set_handlers
    (List.filter (fun handler => negb (Nat.eqb handler handlerToRemove))
       (handlers s)) s.

Definition handler_effects (ref : nat) (es : list Effect) (s : State) : State :=
  let s1 := emit es s in
  if existsb is_OnDispose es then removeHandler ref s1 else s1.

(** [handleMessage] up to its first [await]. *)
Definition handleMessage (now : Z) (e : Event) (s : State) : State :=
  match accepted (genai s) (self_id s) e with
  | None => s
  | Some message =>
      let s1 := set_lastInteractionTs now s in
      let s2 := set_chatHistory
                  (chatHistory s1 ++ [{| role := user; text := message |}]) s1 in
      let s3 := emit [SendMessage "" true] s2 in
      set_tasks (tasks s3 ++ [AwaitSendMessage (context_of e)]) s3
  end.

(** The [catch] of [handleMessage] up to its first [await]. *)
Definition handleMessage_catch (channelMessage : MessageResponse) (s : State)
  : State * TaskPc :=
  (emit [SendIndicator AI_STATE_ERROR (m_cid channelMessage)
           (m_id channelMessage)] s,
   AwaitCatchEvent channelMessage).

(** One attempt of the retry loop. *)
Definition call_upstream (channelMessage : MessageResponse)
    (context : option string) (attempt : Z) (s : State) : State * TaskPc :=
  (emit [GenerateContentStream model_name (chatHistory s) context] s,
   AwaitUpstream channelMessage context attempt).

(** [handleMessage] after [handler.run()] has returned [fullText]. *)
Definition after_run (fullText : string) (s : State) : State * TaskPc :=
  let s1 := if truthy fullText
            then set_chatHistory
                   (chatHistory s ++ [{| role := model; text := fullText |}]) s
            else s in
  (s1, Finished).

Definition run_event (channelMessage : MessageResponse) (ref : nat)
    (hev : HEvent) (s : State) : State * TaskPc :=
  match heap s !! ref with
  | None => (s, AwaitRun channelMessage ref)
  | Some h =>
      let '(h1, es) := ResponseHandler.step h hev in
      let s1 := handler_effects ref es (set_heap (<[ref := h1]> (heap s)) s) in
      match run_pc h1 with
      | Returned fullText => after_run fullText s1
      | _ => (s1, AwaitRun channelMessage ref)
      end
  end.

(** A task resumed at its program point. *)
Definition resume (now : Z) (pc : TaskPc) (r : Resolution) (s : State)
  : State * TaskPc :=
  match pc, r with
  | AwaitSendMessage context, Sent channelMessage =>
      (emit [SendIndicator AI_STATE_THINKING (m_cid channelMessage)
               (m_id channelMessage)] s,
       AwaitThinking channelMessage context)
  | AwaitThinking channelMessage context, Done =>
      (emit [SendIndicator AI_STATE_GENERATING (m_cid channelMessage)
               (m_id channelMessage)] s,
       AwaitGenerating channelMessage context)
  | AwaitGenerating channelMessage context, Done =>
      call_upstream channelMessage context 0 s
  | AwaitUpstream channelMessage context attempt, Stream =>
      let ref := length (heap s) in
      let handler := ResponseHandler.new channelMessage in
      let s1 := set_heap (heap s ++ [handler]) s in
      let s2 := set_handlers (handlers s1 ++ [ref]) s1 in
      run_event channelMessage ref Run s2
  | AwaitUpstream channelMessage context attempt, Failed retryError =>
      if isRateLimit (errorMessage retryError) && (attempt <? maxRetries) then
        (emit [SetTimeout (delay attempt)] s,
         AwaitBackoff channelMessage context attempt)
      else handleMessage_catch channelMessage s
  | AwaitBackoff channelMessage context attempt, Timeout =>
      call_upstream channelMessage context (attempt + 1) s
  | AwaitRun channelMessage ref, NextChunk chunk_text =>
      run_event channelMessage ref (Chunk chunk_text now) s
  | AwaitRun channelMessage ref, StreamEnd =>
      run_event channelMessage ref End s
  | AwaitRun channelMessage ref, StreamError error =>
      run_event channelMessage ref (Throw error) s
  | AwaitRun channelMessage ref, Done =>
      run_event channelMessage ref Ack s
  | AwaitCatchEvent channelMessage, Done =>
      (emit [PartialUpdateMessage (m_id channelMessage)
               "Sorry, I encountered an error. Please try again."] s,
       AwaitCatchUpdate channelMessage)
  | AwaitCatchUpdate channelMessage, Done => (s, Finished)
  | _, _ => (s, pc)
  end.

(** [this.handlers.forEach((handler) => handler.dispose())]. *)
Fixpoint dispose_all (refs : list nat) (s : State) : State :=
  match refs with
  | [] => s
  | ref :: refs' =>
      match heap s !! ref with
      | None => dispose_all refs' s
      | Some h =>
          let '(h1, es) := ResponseHandler.dispose h in
          dispose_all refs'
            (handler_effects ref es (set_heap (<[ref := h1]> (heap s)) s))
      end
  end.

Definition step (now : Z) (ev : AEvent) (s : State) : State :=
  match ev with
  | MessageNew e => if listening s then handleMessage now e s else s
  | StopGenerating message_id =>
      let '(hs, es) := dispatch_stop message_id (heap s) in
      emit es (set_heap hs s)
  | Resume t r =>
      match tasks s !! t with
      | None => s
      | Some pc =>
          let '(s1, pc1) := resume now pc r s in
          set_tasks (<[t := pc1]> (tasks s1)) s1
      end
  | StopResume ref =>
      match heap s !! ref with
      | None => s
      | Some h =>
          let '(h1, es) := ResponseHandler.step h StopAck in
          handler_effects ref es (set_heap (<[ref := h1]> (heap s)) s)
      end
  | DisposeCall =>
      emit [DisconnectUser] (set_disposing true (set_listening false s))
  | Disconnected =>
      if disposing s then
        set_disposing false (set_handlers [] (dispose_all (handlers s) s))
      else s
  end.

Fixpoint exec (evs : list (Z * AEvent)) (s : State) : State :=
  match evs with
  | [] => s
  | (now, ev) :: evs' => exec evs' (step now ev s)
  end.

End Direct.

(** ** GeminiAgent, the version with [isProcessing] and [messageQueue] *)

Module Queued.
Import ResponseHandler.

(** The agent object, the handlers it has constructed (by reference: an
    index into [heap]), the [handleMessage] invocations in flight, and the
    requests issued so far. *)
Record State := {
  genai : bool;
  self_id : option string;              (* chatClient.user?.id *)
  listening : bool;                     (* handleMessage is registered for "message.new" *)
  lastInteractionTs : Z;
  chatHistory : list Turn;
  handlers : list nat;
  isProcessing : bool;
  lastApiCallTs : Z;
  apiCallCount : Z;
  messageQueue : list Event;
  heap : list GeminiResponseHandler;
  tasks : list TaskPc;
  disposing : bool;                     (* dispose() awaits disconnectUser() *)
  trace : list Effect;
}.

Definition set_listening (v : bool) (s : State) : State :=
  {| genai := genai s; self_id := self_id s; listening := v; lastInteractionTs
     := lastInteractionTs s; chatHistory := chatHistory s; handlers := handlers
     s; isProcessing := isProcessing s; lastApiCallTs := lastApiCallTs s;
     apiCallCount := apiCallCount s; messageQueue := messageQueue s; heap :=
     heap s; tasks := tasks s; disposing := disposing s; trace := trace s |}.

Definition set_lastInteractionTs (v : Z) (s : State) : State :=
  {| genai := genai s; self_id := self_id s; listening := listening s;
     lastInteractionTs := v; chatHistory := chatHistory s; handlers := handlers
     s; isProcessing := isProcessing s; lastApiCallTs := lastApiCallTs s;
     apiCallCount := apiCallCount s; messageQueue := messageQueue s; heap :=
     heap s; tasks := tasks s; disposing := disposing s; trace := trace s |}.

Definition set_chatHistory (v : list Turn) (s : State) : State :=
  {| genai := genai s; self_id := self_id s; listening := listening s;
     lastInteractionTs := lastInteractionTs s; chatHistory := v; handlers :=
     handlers s; isProcessing := isProcessing s; lastApiCallTs := lastApiCallTs
     s; apiCallCount := apiCallCount s; messageQueue := messageQueue s; heap :=
     heap s; tasks := tasks s; disposing := disposing s; trace := trace s |}.

Definition set_handlers (v : list nat) (s : State) : State :=
  {| genai := genai s; self_id := self_id s; listening := listening s;
     lastInteractionTs := lastInteractionTs s; chatHistory := chatHistory s;
     handlers := v; isProcessing := isProcessing s; lastApiCallTs :=
     lastApiCallTs s; apiCallCount := apiCallCount s; messageQueue :=
     messageQueue s; heap := heap s; tasks := tasks s; disposing := disposing
     s; trace := trace s |}.

Definition set_isProcessing (v : bool) (s : State) : State :=
  {| genai := genai s; self_id := self_id s; listening := listening s;
     lastInteractionTs := lastInteractionTs s; chatHistory := chatHistory s;
     handlers := handlers s; isProcessing := v; lastApiCallTs := lastApiCallTs
     s; apiCallCount := apiCallCount s; messageQueue := messageQueue s; heap :=
     heap s; tasks := tasks s; disposing := disposing s; trace := trace s |}.

Definition set_lastApiCallTs (v : Z) (s : State) : State :=
  {| genai := genai s; self_id := self_id s; listening := listening s;
     lastInteractionTs := lastInteractionTs s; chatHistory := chatHistory s;
     handlers := handlers s; isProcessing := isProcessing s; lastApiCallTs :=
     v; apiCallCount := apiCallCount s; messageQueue := messageQueue s; heap :=
     heap s; tasks := tasks s; disposing := disposing s; trace := trace s |}.

Definition set_apiCallCount (v : Z) (s : State) : State :=
  {| genai := genai s; self_id := self_id s; listening := listening s;
     lastInteractionTs := lastInteractionTs s; chatHistory := chatHistory s;
     handlers := handlers s; isProcessing := isProcessing s; lastApiCallTs :=
     lastApiCallTs s; apiCallCount := v; messageQueue := messageQueue s; heap
     := heap s; tasks := tasks s; disposing := disposing s; trace := trace s |}.

Definition set_messageQueue (v : list Event) (s : State) : State :=
  {| genai := genai s; self_id := self_id s; listening := listening s;
     lastInteractionTs := lastInteractionTs s; chatHistory := chatHistory s;
     handlers := handlers s; isProcessing := isProcessing s; lastApiCallTs :=
     lastApiCallTs s; apiCallCount := apiCallCount s; messageQueue := v; heap
     := heap s; tasks := tasks s; disposing := disposing s; trace := trace s |}.

Definition set_heap (v : list GeminiResponseHandler) (s : State) : State :=
  {| genai := genai s; self_id := self_id s; listening := listening s;
     lastInteractionTs := lastInteractionTs s; chatHistory := chatHistory s;
     handlers := handlers s; isProcessing := isProcessing s; lastApiCallTs :=
     lastApiCallTs s; apiCallCount := apiCallCount s; messageQueue :=
     messageQueue s; heap := v; tasks := tasks s; disposing := disposing s;
     trace := trace s |}.

Definition set_tasks (v : list TaskPc) (s : State) : State :=
  {| genai := genai s; self_id := self_id s; listening := listening s;
     lastInteractionTs := lastInteractionTs s; chatHistory := chatHistory s;
     handlers := handlers s; isProcessing := isProcessing s; lastApiCallTs :=
     lastApiCallTs s; apiCallCount := apiCallCount s; messageQueue :=
     messageQueue s; heap := heap s; tasks := v; disposing := disposing s;
     trace := trace s |}.

Definition set_disposing (v : bool) (s : State) : State :=
  {| genai := genai s; self_id := self_id s; listening := listening s;
     lastInteractionTs := lastInteractionTs s; chatHistory := chatHistory s;
     handlers := handlers s; isProcessing := isProcessing s; lastApiCallTs :=
     lastApiCallTs s; apiCallCount := apiCallCount s; messageQueue :=
     messageQueue s; heap := heap s; tasks := tasks s; disposing := v; trace :=
     trace s |}.

Definition set_trace (v : list Effect) (s : State) : State :=
  {| genai := genai s; self_id := self_id s; listening := listening s;
     lastInteractionTs := lastInteractionTs s; chatHistory := chatHistory s;
     handlers := handlers s; isProcessing := isProcessing s; lastApiCallTs :=
     lastApiCallTs s; apiCallCount := apiCallCount s; messageQueue :=
     messageQueue s; heap := heap s; tasks := tasks s; disposing := disposing
     s; trace := v |}.

Definition emit (es : list Effect) (s : State) : State :=
  set_trace (trace s ++ es) s.

Definition model_name : string := "gemini-2.5-flash".

(** The state after [init()]. *)
Definition initial (self : option string) : State :=
  {| genai := true; self_id := self; listening := true;
     lastInteractionTs := 0; chatHistory := []; handlers := [];
     isProcessing := false; lastApiCallTs := 0; apiCallCount := 0;
     messageQueue := []; heap := []; tasks := []; disposing := false;
     trace := [] |}.

(** [removeHandler]. *)
Definition removeHandler (handlerToRemove : nat) (s : State) : State :=
  set_handlers
    (List.filter (fun handler => negb (Nat.eqb handler handlerToRemove))
       (handlers s)) s.

(** The requests of handler [ref] reach the trace; its [onDispose] callback
    is [() => this.removeHandler(handler)]. *)
Definition handler_effects (ref : nat) (es : list Effect) (s : State) : State :=
  let s1 := emit es s in
  if existsb is_OnDispose es then removeHandler ref s1 else s1.

(** [processMessage] up to its first [await]; the caller has checked
    [this.genai]. *)
Definition processMessage_begin (now : Z) (e : Event) (s : State)
  : State * TaskPc :=
  let s1 := set_isProcessing true s in
  let s2 := set_lastInteractionTs now s1 in
  let s3 := set_chatHistory
              (chatHistory s2 ++ [{| role := user; text := text_of e |}]) s2 in
  (emit [SendMessage "" true] s3, AwaitSendMessage (context_of e)).

(** The [while] loop of [handleMessage], entered each time a
    [processMessage] call has returned. *)
Definition drain (now : Z) (s : State) : State * TaskPc :=
  match messageQueue s with
  | [] => (s, Finished)
  | nextEvent :: rest =>
      if genai s then processMessage_begin now nextEvent (set_messageQueue rest s)
      else (set_messageQueue [] s, Finished)
  end.

(** The [finally] of [processMessage], then back in [handleMessage]. *)
Definition processMessage_end (now : Z) (s : State) : State * TaskPc :=
  drain now (set_isProcessing false s).

(** The [catch] of [processMessage] up to its first [await]. *)
Definition processMessage_catch (channelMessage : MessageResponse) (s : State)
  : State * TaskPc :=
  (emit [SendIndicator AI_STATE_ERROR (m_cid channelMessage)
           (m_id channelMessage)] s,
   AwaitCatchEvent channelMessage).

(** One attempt of the retry loop. *)
Definition call_upstream (channelMessage : MessageResponse)
    (context : option string) (attempt : Z) (s : State) : State * TaskPc :=
  (emit [GenerateContentStream model_name (chatHistory s) context] s,
   AwaitUpstream channelMessage context attempt).

(** From the "generating" indicator to the first attempt. *)
Definition send_generating (channelMessage : MessageResponse)
    (context : option string) (s : State) : State * TaskPc :=
  (emit [SendIndicator AI_STATE_GENERATING (m_cid channelMessage)
           (m_id channelMessage)] s,
   AwaitGenerating channelMessage context).

(** [processMessage] after [handler.run()] has returned [fullText]. *)
Definition after_run (now : Z) (fullText : string) (s : State)
  : State * TaskPc :=
  let s1 := if truthy fullText
            then set_chatHistory
                   (chatHistory s ++ [{| role := model; text := fullText |}]) s
            else s in
  processMessage_end now s1.

(** An event of the stream or of the channel reaches the [run] of the
    handler that the task awaits. *)
Definition run_event (now : Z) (channelMessage : MessageResponse) (ref : nat)
    (hev : HEvent) (s : State) : State * TaskPc :=
  match heap s !! ref with
  | None => (s, AwaitRun channelMessage ref)
  | Some h =>
      let '(h1, es) := ResponseHandler.step h hev in
      let s1 := handler_effects ref es (set_heap (<[ref := h1]> (heap s)) s) in
      match run_pc h1 with
      | Returned fullText => after_run now fullText s1
      | _ => (s1, AwaitRun channelMessage ref)
      end
  end.

(** A task resumed at its program point. *)
Definition resume (now : Z) (pc : TaskPc) (r : Resolution) (s : State)
  : State * TaskPc :=
  match pc, r with
  | AwaitSendMessage context, Sent channelMessage =>
      (emit [SendIndicator AI_STATE_THINKING (m_cid channelMessage)
               (m_id channelMessage)] s,
       AwaitThinking channelMessage context)
  | AwaitThinking channelMessage context, Done =>
      let timeSinceLastCall := now - lastApiCallTs s in
      if (timeSinceLastCall <? 4000) && (lastApiCallTs s >? 0) then
        let waitTime := 4000 - timeSinceLastCall in
        (emit [SetTimeout waitTime] s, AwaitSpacing channelMessage context)
      else send_generating channelMessage context s
  | AwaitSpacing channelMessage context, Timeout =>
      send_generating channelMessage context s
  | AwaitGenerating channelMessage context, Done =>
      let s1 := set_apiCallCount (apiCallCount s + 1) s in
      let s2 := set_lastApiCallTs now s1 in
      call_upstream channelMessage context 0 s2
  | AwaitUpstream channelMessage context attempt, Stream =>
      let ref := length (heap s) in
      let handler := ResponseHandler.new channelMessage in
      let s1 := set_heap (heap s ++ [handler]) s in
      let s2 := set_handlers (handlers s1 ++ [ref]) s1 in
      run_event now channelMessage ref Run s2
  | AwaitUpstream channelMessage context attempt, Failed retryError =>
      if isRateLimit (errorMessage retryError) && (attempt <? maxRetries) then
        (emit [SetTimeout (delay attempt)] s,
         AwaitBackoff channelMessage context attempt)
      else processMessage_catch channelMessage s
  | AwaitBackoff channelMessage context attempt, Timeout =>
      call_upstream channelMessage context (attempt + 1) s
  | AwaitRun channelMessage ref, NextChunk chunk_text =>
      run_event now channelMessage ref (Chunk chunk_text now) s
  | AwaitRun channelMessage ref, StreamEnd =>
      run_event now channelMessage ref End s
  | AwaitRun channelMessage ref, StreamError error =>
      run_event now channelMessage ref (Throw error) s
  | AwaitRun channelMessage ref, Done =>
      run_event now channelMessage ref Ack s
  | AwaitCatchEvent channelMessage, Done =>
      (emit [PartialUpdateMessage (m_id channelMessage)
               "Sorry, I encountered an error. Please try again."] s,
       AwaitCatchUpdate channelMessage)
  | AwaitCatchUpdate channelMessage, Done => processMessage_end now s
  | _, _ => (s, pc)
  end.

(** [handleMessage] up to its first [await]. *)
Definition handleMessage (now : Z) (e : Event) (s : State) : State :=
  match accepted (genai s) (self_id s) e with
  | None => s
  | Some _ =>
      if isProcessing s then set_messageQueue (messageQueue s ++ [e]) s
      else
        let '(s1, pc) := processMessage_begin now e s in
        set_tasks (tasks s1 ++ [pc]) s1
  end.

(** [this.handlers.forEach((handler) => handler.dispose())]. *)
Fixpoint dispose_all (refs : list nat) (s : State) : State :=
  match refs with
  | [] => s
  | ref :: refs' =>
      match heap s !! ref with
      | None => dispose_all refs' s
      | Some h =>
          let '(h1, es) := ResponseHandler.dispose h in
          dispose_all refs'
            (handler_effects ref es (set_heap (<[ref := h1]> (heap s)) s))
      end
  end.

Definition step (now : Z) (ev : AEvent) (s : State) : State :=
  match ev with
  | MessageNew e => if listening s then handleMessage now e s else s
  | StopGenerating message_id =>
      let '(hs, es) := dispatch_stop message_id (heap s) in
      emit es (set_heap hs s)
  | Resume t r =>
      match tasks s !! t with
      | None => s
      | Some pc =>
          let '(s1, pc1) := resume now pc r s in
          set_tasks (<[t := pc1]> (tasks s1)) s1
      end
  | StopResume ref =>
      match heap s !! ref with
      | None => s
      | Some h =>
          let '(h1, es) := ResponseHandler.step h StopAck in
          handler_effects ref es (set_heap (<[ref := h1]> (heap s)) s)
      end
  | DisposeCall =>
      emit [DisconnectUser] (set_disposing true (set_listening false s))
  | Disconnected =>
      if disposing s then
        let s1 := dispose_all (handlers s) s in
        set_disposing false
          (set_messageQueue [] (set_isProcessing false (set_handlers [] s1)))
      else s
  end.

(** A schedule: each event with the clock reading at its dispatch. *)
Fixpoint exec (evs : list (Z * AEvent)) (s : State) : State :=
  match evs with
  | [] => s
  | (now, ev) :: evs' => exec evs' (step now ev s)
  end.

(** *** Invariants of the queuing agent *)

(** The handlers constructed so far that are not done. *)
Definition live_handlers (s : State) : list GeminiResponseHandler :=
  List.filter live (heap s).

(** The entries of [this.handlers] that are not done. *)
Definition live_registered (s : State) : list nat :=
  List.filter
    (fun ref => match heap s !! ref with Some h => live h | None => false end)
    (handlers s).

(** [this.handlers] holds distinct references to constructed handlers. *)
Definition handlers_ok (s : State) : Prop :=
  NoDup (handlers s)
  /\ Forall (fun ref => (ref < length (heap s))%nat) (handlers s).

Record Inv (s : State) : Prop := {
  (** at most one [handleMessage] invocation is past its guards *)
  inv_one_task : forall i j pci pcj,
    tasks s !! i = Some pci -> tasks s !! j = Some pcj ->
    active pci = true -> active pcj = true -> i = j;
  (** while the agent listens, [isProcessing] is false only between tasks *)
  inv_idle : listening s = true -> isProcessing s = false ->
    forall i pc, tasks s !! i = Some pc -> active pc = false;
  (** a handler that is not done is the one its task awaits *)
  inv_awaited : forall ref h,
    heap s !! ref = Some h -> is_done h = false ->
    exists t cm, tasks s !! t = Some (AwaitRun cm ref);
  inv_returned : forall ref h, heap s !! ref = Some h -> returned_done h;
  inv_disposing : disposing s = true -> listening s = false;
  inv_handlers : handlers_ok s;
}.

(** *** Bookkeeping of the calls *)

Definition is_user (t : Turn) : bool :=
  match role t with user => true | model => false end.

Definition is_model (t : Turn) : bool :=
  match role t with model => true | user => false end.

(** The texts of the user turns of a history, in order. *)
Definition user_texts (h : list Turn) : list string :=
  map text (List.filter is_user h).

Definition model_turns (h : list Turn) : list Turn := List.filter is_model h.

(** The text of the last turn of the contents sent upstream. *)
Definition last_text (contents : list Turn) : string :=
  match last contents with Some t => text t | None => "" end.

(** The attempts made on the completion service, in order, each named by
    the last turn of the contents it sent. *)
Definition requested (tr : list Effect) : list string :=
  flat_map (fun e => match e with
                     | GenerateContentStream _ contents _ => [last_text contents]
                     | _ => []
                     end) tr.

(** [ks !! i] attempts for the message [xs !! i], message after message. *)
Definition grouped (ks : list nat) (xs : list string) : list string :=
  concat (zip_with replicate ks xs).

Definition no_dispose (ev : AEvent) : bool :=
  match ev with DisposeCall | Disconnected => false | _ => true end.

(** The texts of the inbound messages of a schedule that pass the guards of
    [handleMessage], in the order of arrival. *)
Definition inbound (self : option string) (evs : list (Z * AEvent))
  : list string :=
  omap (fun tev => match snd tev with
                   | MessageNew e => accepted true self e
                   | _ => None
                   end) evs.

(** The program point of the task in flight, [Finished] when there is none. *)
Definition current_of (ts : list TaskPc) : TaskPc :=
  default Finished (List.find active ts).

Definition current (s : State) : TaskPc := current_of (tasks s).

(** No [handleMessage] invocation is in flight. *)
Definition quiescent (s : State) : bool :=
  forallb (fun pc => negb (active pc)) (tasks s).

(** The user turn is in the history, the call has not been counted yet. *)
Definition pre_call (pc : TaskPc) : Z :=
  match pc with
  | AwaitSendMessage _ | AwaitThinking _ _ | AwaitSpacing _ _
  | AwaitGenerating _ _ => 1
  | _ => 0
  end.

(** [handler.run()] has not been called yet. *)
Definition before_run (pc : TaskPc) : bool :=
  match pc with
  | AwaitSendMessage _ | AwaitThinking _ _ | AwaitSpacing _ _
  | AwaitGenerating _ _ | AwaitUpstream _ _ _ | AwaitBackoff _ _ _ => true
  | _ => false
  end.

(** The attempt number of a task inside the retry loop. *)
Definition attempt_of (pc : TaskPc) : option Z :=
  match pc with
  | AwaitUpstream _ _ attempt | AwaitBackoff _ _ attempt => Some attempt
  | _ => None
  end.

(** The bookkeeping of the calls while the task in flight is at [pc]. *)
Record Progress (s : State) (pc : TaskPc) : Prop := {
  pr_count :
    apiCallCount s + pre_call pc
    = Z.of_nat (length (user_texts (chatHistory s)));
  pr_models :
    (length (model_turns (chatHistory s)) + (if active pc then 1 else 0)
     <= length (user_texts (chatHistory s)))%nat;
  pr_queue : active pc = false -> messageQueue s = [];
  pr_requested : exists ks,
    Z.of_nat (length ks) = apiCallCount s
    /\ Forall (fun k => (1 <= k <= 4)%nat) ks
    /\ requested (trace s) = grouped ks (user_texts (chatHistory s))
    /\ forall attempt, attempt_of pc = Some attempt ->
         last ks = Some (Z.to_nat attempt + 1)%nat;
  pr_last : before_run pc = true ->
    exists hist txt, chatHistory s = hist ++ [{| role := user; text := txt |}];
}.

(** The invariant of the schedules without disposal. *)
Record Serving (self : option string) (acc : list string) (s : State)
  : Prop := {
  sv_inv : Inv s;
  sv_agent : genai s = true /\ self_id s = self /\ listening s = true
             /\ disposing s = false;
  sv_attempts : Forall attempt_ok (tasks s);
  sv_flag : isProcessing s = active (current s);
  sv_arrived :
    user_texts (chatHistory s) ++ map text_of (messageQueue s) = acc;
  sv_progress : Progress s (current s);
}.

(** *** Schedules and measures used in the facts below *)

(** The upstream call fails with a rate-limit error [length errs] times in
    a row; each failure comes with the clock reading at the rejection and
    the one at the end of the pause that follows. *)
Definition rate_limited_rounds (t : nat) (errs : list (Z * JsError * Z))
  : list (Z * AEvent) :=
  flat_map (fun r => [(fst (fst r), Resume t (Failed (snd (fst r))));
                      (snd r, Resume t Timeout)]) errs.

(** The pauses and attempts of [n] retries that follow attempt [attempt]. *)
Fixpoint retry_trace (n : nat) (attempt : Z) (contents : list Turn)
    (context : option string) : list Effect :=
  match n with
  | O => []
  | S n' =>
      SetTimeout (delay attempt)
      :: GenerateContentStream model_name contents context
      :: retry_trace n' (attempt + 1) contents context
  end.

Definition no_stop (ev : AEvent) : bool :=
  match ev with StopGenerating _ => false | _ => true end.

(** [this.handlers] holds handlers that are not done, and the handlers
    that are done have let go of their listener. *)
Record Registry (s : State) : Prop := {
  rg_live : forall ref, ref ∈ handlers s ->
            exists h, heap s !! ref = Some h /\ is_done h = false;
  rg_tidy : Forall tidy (heap s);
}.



(** A resolution of the operation that a task awaits: channel requests and
    timers resolve, the upstream call fails with an error that is not a rate
    limit, the stream ends. *)
Definition settle (hp : list GeminiResponseHandler) (pc : TaskPc)
  : Resolution :=
  match pc with
  | AwaitSendMessage _ => Sent {| m_id := "m"; m_cid := "messaging:c" |}
  | AwaitSpacing _ _ | AwaitBackoff _ _ _ => Timeout
  | AwaitUpstream _ _ _ =>
      Failed {| err_name := "Error"; err_message := "unavailable" |}
  | AwaitRun _ ref =>
      match hp !! ref with
      | Some h => match run_pc h with AwaitChunk => StreamEnd | _ => Done end
      | None => Done
      end
  | _ => Done
  end.



End Queued.

(** ** The control plane: the express routes *)

Module Server.

(** [res.status(status).json({ [key]: value })]; the status is 200 when
    [res.status] is not called. *)
Inductive Response := Json (status : Z) (key value : string).

(** Requests issued to the chat service and to the agents. *)
Inductive Call :=
| CreateToken (userId : string)
| UpsertUser (id : string) (role : option string)
| AddMembers (channel_type channel_id member : string)
| CreateAgent (agentUserId channel_type channel_id : string)
| InitAgent (agent : nat)
| DisposeAgent (agent : nat).

(** Program points of the route handlers: the [await] at which a request
    is suspended, or the response it has sent. *)
Inductive Pending :=
| StartAwaitUpsert (channel_id channel_type : string)
| StartAwaitAddMembers (channel_id channel_type : string)
| StartAwaitCreate (channel_id channel_type : string)
| StartAwaitInit (channel_id : string) (agent : nat)
| StopAwaitDispose (channel_id : string) (agent : nat)
| Responded (r : Response).

(** How the environment settles an awaited operation. *)
Inductive Settled :=
| Resolved
| ResolvedAgent (agent : nat)           (* createAgent resolved *)
| Rejected (error : JsError).

Inductive Request :=
| PostToken (userId : option string) (signed : option string)
    (* [signed]: the token that createToken returns, [None] when it throws *)
| PostStart (channel_id channel_type : option string)
| PostStop (channel_id : option string)
| GetStatus (channel_id : option string)
| Settle (request : nat) (r : Settled).

Record State := {
  activeAgents : gmap string nat;
  requests : list Pending;
  calls : list Call;
}.

Definition initial : State :=
  {| activeAgents := ∅; requests := []; calls := [] |}.

Definition call (cs : list Call) (s : State) : State :=
  {| activeAgents := activeAgents s; requests := requests s;
     calls := calls s ++ cs |}.

(** A request arrives and runs up to its response or its first [await]. *)
Definition arrive (pc : Pending) (s : State) : State :=
  {| activeAgents := activeAgents s; requests := requests s ++ [pc];
     calls := calls s |}.

Definition respond (r : Response) (s : State) : State :=
  arrive (Responded r) s.

Definition at_pc (request : nat) (pc : Pending) (s : State) : State :=
  {| activeAgents := activeAgents s;
     requests := <[request := pc]> (requests s); calls := calls s |}.

Definition set_activeAgents (m : gmap string nat) (s : State) : State :=
  {| activeAgents := m; requests := requests s; calls := calls s |}.

(** A value of the request that passes [if (!value)]. *)
Definition present (v : option string) : option string :=
  match v with
  | Some x => if truthy x then Some x else None
  | None => None
  end.

Definition agentUserId (channel_id : string) : string :=
  "ai-assistant-" +:+ channel_id.

(** The [catch] of a route: [error.message || fallback]. *)
Definition reason (error : JsError) (fallback : string) : Response :=
  Json 500 "reason" (or_else (err_message error) fallback).

Definition is_start (pc : Pending) : bool :=
  match pc with
  | StartAwaitUpsert _ _ | StartAwaitAddMembers _ _ | StartAwaitCreate _ _
  | StartAwaitInit _ _ => true
  | _ => false
  end.

(** A suspended route handler is resumed. *)
Definition settle (request : nat) (pc : Pending) (r : Settled) (s : State)
  : State :=
  match pc, r with
  | StartAwaitUpsert channel_id channel_type, Resolved =>
      at_pc request (StartAwaitAddMembers channel_id channel_type)
        (call [AddMembers channel_type channel_id (agentUserId channel_id)] s)
  | StartAwaitAddMembers channel_id channel_type, Resolved =>
      at_pc request (StartAwaitCreate channel_id channel_type)
        (call [CreateAgent (agentUserId channel_id) channel_type channel_id] s)
  | StartAwaitCreate channel_id channel_type, ResolvedAgent agent =>
      at_pc request (StartAwaitInit channel_id agent) (call [InitAgent agent] s)
  | StartAwaitInit channel_id agent, Resolved =>
      at_pc request
        (Responded (Json 200 "message" "AI agent started successfully"))
        (set_activeAgents (<[channel_id := agent]> (activeAgents s)) s)
  | StopAwaitDispose channel_id agent, Resolved =>
      at_pc request
        (Responded (Json 200 "message" "AI agent stopped successfully"))
        (set_activeAgents (delete channel_id (activeAgents s)) s)
  | StopAwaitDispose channel_id agent, Rejected error =>
      at_pc request (Responded (reason error "Failed to stop AI agent")) s
  | Responded _, _ => s
  | _, Rejected error =>
      at_pc request (Responded (reason error "Failed to start AI agent")) s
  | _, _ => s
  end.

Definition step (rq : Request) (s : State) : State :=
  match rq with
  | PostToken userId signed =>
      match present userId with
      | None => respond (Json 400 "error" "userId is required") s
      | Some u =>
          match signed with
          | Some token =>
              respond (Json 200 "token" token)
                (call [CreateToken u; UpsertUser u None] s)
          | None =>
              respond (Json 500 "error" "Failed to generate token")
                (call [CreateToken u] s)
          end
      end
  | PostStart channel_id channel_type =>
      match present channel_id with
      | None => respond (Json 400 "reason" "channel_id is required") s
      | Some c =>
          match activeAgents s !! c with
          | Some _ =>
              respond (Json 200 "message"
                         "Agent already running for this channel") s
          | None =>
              arrive (StartAwaitUpsert c (default "messaging" channel_type))
                (call [UpsertUser (agentUserId c) (Some "admin")] s)
          end
      end
  | PostStop channel_id =>
      match present channel_id with
      | None => respond (Json 400 "reason" "channel_id is required") s
      | Some c =>
          match activeAgents s !! c with
          | None =>
              respond (Json 200 "message" "No agent running for this channel") s
          | Some agent =>
              arrive (StopAwaitDispose c agent) (call [DisposeAgent agent] s)
          end
      end
  | GetStatus channel_id =>
      match present channel_id with
      | None => respond (Json 400 "reason" "channel_id is required") s
      | Some c =>
          respond (Json 200 "status"
                     (match activeAgents s !! c with
                      | Some _ => "connected"
                      | None => "disconnected"
                      end)) s
      end
  | Settle request r =>
      match requests s !! request with
      | Some pc => settle request pc r s
      | None => s
      end
  end.

Definition exec (rqs : list Request) (s : State) : State :=
  foldl (fun s rq => step rq s) s rqs.

(** The settlements that let a start request run to its end. *)
Definition start_ok (request agent : nat) : list Request :=
  [Settle request Resolved; Settle request Resolved;
   Settle request (ResolvedAgent agent); Settle request Resolved].

(** What a suspended request has done so far. *)
Definition pending_ok (cs : list Call) (pc : Pending) : Prop :=
  match pc with
  | StartAwaitUpsert channel_id _ | StartAwaitAddMembers channel_id _ =>
      truthy channel_id = true
  | StartAwaitCreate channel_id channel_type =>
      truthy channel_id = true
      /\ CreateAgent (agentUserId channel_id) channel_type channel_id ∈ cs
  | StartAwaitInit channel_id agent =>
      truthy channel_id = true /\ InitAgent agent ∈ cs
      /\ exists channel_type,
           CreateAgent (agentUserId channel_id) channel_type channel_id ∈ cs
  | StopAwaitDispose _ agent => DisposeAgent agent ∈ cs
  | _ => True
  end.

(** Every registered agent was created for its channel and initialised. *)
Definition registered_ok (s : State) : Prop :=
  forall channel_id agent,
    activeAgents s !! channel_id = Some agent ->
    truthy channel_id = true /\ InitAgent agent ∈ calls s
    /\ exists channel_type,
         CreateAgent (agentUserId channel_id) channel_type channel_id
           ∈ calls s.

End Server.

(** ** States used in examples *)

Definition example_event (t : string) : Event :=
  {| e_user := Some "alice";
     e_message := Some {| msg_text := Some t; msg_ai_generated := false;
                          msg_writingTask := None |} |}.

Definition example_message2 : MessageResponse :=
  {| m_id := "m2"; m_cid := "messaging:c1" |}.

(** The non-queuing agent with the call for a first message in flight. *)
Definition example_in_flight : Direct.State :=
  Direct.exec
    [(10, MessageNew (example_event "first"));
     (12, Resume 0 (Sent ResponseHandler.example_message));
     (13, Resume 0 Done); (14, Resume 0 Done)]
    (Direct.initial (Some "bot")).

(** One message accepted, its call answered, the fragment "Hel" received
    and written. *)
Definition example_midstream : Queued.State :=
  Queued.exec
    [(10, MessageNew (example_event "hi"));
     (12, Resume 0 (Sent ResponseHandler.example_message));
     (13, Resume 0 Done); (14, Resume 0 Done); (15, Resume 0 Stream);
     (5000, Resume 0 (NextChunk (Some "Hel"))); (5001, Resume 0 Done)]
    (Queued.initial (Some "bot")).

(** Two messages in a row, the first call rate-limited once, its stream
    stopped by the user after two fragments; the second message is served
    from the queue. *)
Definition example_schedule : list (Z * AEvent) :=
  [(10, MessageNew (example_event "hi"));
   (11, MessageNew (example_event "second"));
   (12, Resume 0 (Sent ResponseHandler.example_message));
   (13, Resume 0 Done); (14, Resume 0 Done);
   (15, Resume 0 (Failed {| err_name := "Error";
                            err_message := "429 Too Many Requests" |}));
   (2015, Resume 0 Timeout); (2016, Resume 0 Stream);
   (2017, Resume 0 (NextChunk (Some "Hel"))); (2018, Resume 0 Done);
   (2019, Resume 0 (NextChunk (Some "lo")));
   (2020, StopGenerating (Some "m1")); (2021, StopResume 0);
   (2022, StopResume 0); (2025, Resume 0 StreamEnd);
   (2026, Resume 0 (Sent example_message2)); (2027, Resume 0 Done);
   (6000, Resume 0 Timeout); (6001, Resume 0 Done); (6002, Resume 0 Stream);
   (6003, Resume 0 StreamEnd); (6004, Resume 0 Done); (6005, Resume 0 Done)].

(** * Proofs *)

(** ** Strings *)

Lemma append_nil_r (s : string) : s +:+ "" = s.
Proof.
  induction s as [|a s IH]; [reflexivity|].
  change (String a (s +:+ "") = String a s). by rewrite IH.
Qed.

Lemma append_assoc (a b c : string) : (a +:+ b) +:+ c = a +:+ (b +:+ c).
Proof.
  induction a as [|x a IH]; [reflexivity|].
  change (String x ((a +:+ b) +:+ c) = String x (a +:+ (b +:+ c))).
  by rewrite IH.
Qed.

Lemma truthy_false (s : string) : truthy s = false -> s = "".
Proof. by destruct s. Qed.

Lemma truthy_true (s : string) : truthy s = true <-> s <> "".
Proof. destruct s; simpl; split; intros; congruence. Qed.

Lemma prefix_spec (s1 s2 : string) :
  String.prefix s1 s2 = true <-> exists rest, s2 = s1 +:+ rest.
Proof.
  revert s2. induction s1 as [|a s1 IH]; intros s2.
  - split; [|by destruct s2]. intros _. by exists s2.
  - destruct s2 as [|b s2]; simpl.
    + split; [done|]. intros [rest H]. discriminate.
    + destruct (Ascii.ascii_dec a b) as [->|Hne].
      * rewrite IH. split; intros [rest H]; exists rest.
        -- by rewrite H.
        -- by injection H.
      * split; [done|]. intros [rest H]. injection H as H1 H2. done.
Qed.

Lemma includes_spec (needle hay : string) :
  includes needle hay = true <-> occurs_in needle hay.
Proof.
  unfold occurs_in. induction hay as [|c hay IH]; cbn [includes].
  - destruct (String.prefix needle "") eqn:Hp.
    + split; [|done]. intros _. apply prefix_spec in Hp as [rest H].
      exists "", rest. done.
    + split; [done|]. intros (before & after & H).
      destruct before; [|discriminate].
      assert (String.prefix needle "" = true); [|congruence].
      apply prefix_spec. by exists after.
  - destruct (String.prefix needle (String c hay)) eqn:Hp.
    + split; [|done]. intros _. apply prefix_spec in Hp as [rest H].
      by exists "", rest.
    + rewrite IH. split.
      * intros (before & after & ->). by exists (String c before), after.
      * intros (before & after & H). destruct before as [|c' before].
        -- assert (String.prefix needle (String c hay) = true); [|congruence].
           apply prefix_spec. by exists after.
        -- injection H as -> ->. by exists before, after.
Qed.

(** ** The response handler *)

Module HandlerFacts.
Import ResponseHandler.

Lemma steps_app h evs1 evs2 :
  steps h (evs1 ++ evs2) =
  let '(h1, e1) := steps h evs1 in
  let '(h2, e2) := steps h1 evs2 in (h2, e1 ++ e2).
Proof.
  revert h. induction evs1 as [|ev evs1 IH]; intros h; simpl.
  - by destruct (steps h evs2).
  - destruct (step h ev) as [h1 e1]. rewrite IH.
    destruct (steps h1 evs1) as [h2 e2].
    destruct (steps h2 evs2) as [h3 e3]. by rewrite app_assoc.
Qed.

Lemma partial_update_times_app h evs1 evs2 :
  partial_update_times h (evs1 ++ evs2) =
  partial_update_times h evs1
    ++ partial_update_times (fst (steps h evs1)) evs2.
Proof.
  revert h. induction evs1 as [|ev evs1 IH]; intros h; simpl; [done|].
  destruct (step h ev) as [h1 e1] eqn:E.
  specialize (IH h1). destruct (steps h1 evs1) as [h2 e2]. simpl in *.
  destruct ev; try done. destruct e1; [done|]. simpl. by rewrite IH.
Qed.

(** The state of a handler, taken apart. *)
Ltac handler h :=
  let msg := fresh "msg" in let txt := fresh "txt" in
  let dn := fresh "dn" in let lst := fresh "lst" in
  let sub := fresh "sub" in let rpc := fresh "rpc" in
  let spc := fresh "spc" in
  destruct h as [msg txt dn lst sub rpc spc].

(** The code between two suspension points, unfolded. *)
Ltac hunfold :=
  unfold step, on_chunk, on_throw, after_loop, run_return, dispose,
    handleStopGenerating, with_text, with_done, with_last_update,
    with_subscribed, at_run, at_stop in *; simpl in *.

Lemma step_spaced h ev h1 e1 :
  step h ev = (h1, e1) ->
  match ev, e1 with
  | Chunk _ now, _ :: _ =>
      now - throttle_base h > 1000 /\ throttle_base h1 = now
  | _, _ => throttle_base h1 = throttle_base h
  end.
Proof.
  handler h. unfold throttle_base. intros E.
  destruct ev; hunfold; repeat case_match; simplify_eq/=;
    try done; split; (done || lia).
Qed.

Lemma partial_updates_spaced evs : forall h,
  spaced (throttle_base h) (partial_update_times h evs).
Proof.
  induction evs as [|ev evs IH]; intros h; [done|].
  cbn [partial_update_times].
  pose proof (step_spaced h ev) as Hs.
  destruct (step h ev) as [h1 e1]. specialize (Hs _ _ eq_refl).
  destruct ev; try (rewrite <- Hs; apply IH).
  destruct e1.
  - rewrite <- Hs. apply IH.
  - destruct Hs as [Hgt Hb]. split; [done|]. rewrite <- Hb. apply IH.
Qed.

Lemma spaced_after prev ts i t :
  spaced prev ts -> ts !! i = Some t -> t - prev > 1000.
Proof.
  revert prev i. induction ts as [|x ts IH]; intros prev i Hs Hi; [done|].
  destruct Hs as [H1 H2]. destruct i as [|i]; simpl in Hi.
  - by inversion Hi; subst.
  - specialize (IH _ _ H2 Hi). lia.
Qed.

Lemma spaced_pairwise prev ts i j ti tj :
  spaced prev ts -> (i < j)%nat ->
  ts !! i = Some ti -> ts !! j = Some tj -> tj - ti > 1000.
Proof.
  revert prev i j. induction ts as [|x ts IH]; intros prev i j Hs Hij Hi Hj;
    [done|].
  destruct Hs as [H1 H2]. destruct j as [|j]; [lia|]. simpl in Hj.
  destruct i as [|i]; simpl in Hi.
  - inversion Hi; subst. eapply spaced_after; eauto.
  - eapply (IH x i j); eauto. lia.
Qed.

Lemma feed_chunk h c now :
  run_pc h = AwaitChunk -> is_done h = false ->
  exists h1 es,
    steps h [Chunk c now; Ack] = (h1, es)
    /\ run_pc h1 = AwaitChunk /\ is_done h1 = false
    /\ message_text h1 = message_text h +:+ default "" c
    /\ message h1 = message h /\ subscribed h1 = subscribed h
    /\ stop_pc h1 = stop_pc h
    /\ Forall (is_partial_update (m_id (message h))) es
    /\ length es = length (partial_update_times h [Chunk c now; Ack]).
Proof.
  handler h. simpl. intros -> ->. unfold is_partial_update.
  destruct c as [t|]; hunfold.
  - destruct (truthy t) eqn:Ht; simpl.
    + destruct (now - lst >? 1000); simpl; eexists _, _;
        (split; [reflexivity|]); simpl; repeat split; eauto.
    + apply truthy_false in Ht as ->. rewrite append_nil_r.
      eexists _, _; (split; [reflexivity|]); simpl; repeat split; eauto.
  - rewrite append_nil_r.
    eexists _, _; (split; [reflexivity|]); simpl; repeat split; eauto.
Qed.

Lemma consume_chunks chunks : forall h,
  run_pc h = AwaitChunk -> is_done h = false ->
  let evs := flat_map (fun c => [Chunk (fst c) (snd c); Ack]) chunks in
  exists h1 es,
    steps h evs = (h1, es)
    /\ run_pc h1 = AwaitChunk /\ is_done h1 = false
    /\ message_text h1 = message_text h +:+ full_text chunks
    /\ message h1 = message h /\ subscribed h1 = subscribed h
    /\ stop_pc h1 = stop_pc h
    /\ Forall (is_partial_update (m_id (message h))) es
    /\ length es = length (partial_update_times h evs).
Proof.
  induction chunks as [|[c now] chunks IH]; intros h Hpc Hd evs.
  - exists h, []. subst evs. simpl. rewrite append_nil_r. by repeat split.
  - subst evs. cbn [flat_map fst snd].
    destruct (feed_chunk h c now Hpc Hd)
      as (h1 & e1 & E1 & Hpc1 & Hd1 & Ht1 & Hm1 & Hs1 & Hp1 & Hf1 & Hl1).
    destruct (IH h1 Hpc1 Hd1)
      as (h2 & e2 & E2 & Hpc2 & Hd2 & Ht2 & Hm2 & Hs2 & Hp2 & Hf2 & Hl2).
    exists h2, (e1 ++ e2).
    rewrite steps_app, E1, E2, partial_update_times_app, E1. cbn [fst].
    repeat split; try congruence.
    + rewrite Ht2, Ht1, append_assoc. reflexivity.
    + apply Forall_app. split; [done|]. by rewrite <- Hm1.
    + rewrite !length_app. congruence.
Qed.

Lemma finish_stream h :
  run_pc h = AwaitChunk -> is_done h = false ->
  exists h1,
    steps h [End; Ack; Ack] =
      (h1, [PartialUpdateMessage (m_id (message h)) (message_text h);
            SendClear (m_cid (message h)) (m_id (message h));
            OffStop; OnDispose])
    /\ run_pc h1 = Returned (message_text h) /\ is_done h1 = true
    /\ subscribed h1 = false
    /\ partial_update_times h [End; Ack; Ack] = [].
Proof.
  handler h. simpl. intros -> ->. eexists. split; [reflexivity|]. done.
Qed.

(** C3.  A [run] over a finite fragment stream that nothing disturbs:
    any two writes issued by the loop are more than 1000 ms apart, so no
    window of 1000 ms holds two of them; when the stream is exhausted the
    last write carries the concatenation of all fragment texts, it is
    followed by the indicator-clear event, and [run] returns that text. *)
Theorem flush_throttling_and_final_text
    (msg : MessageResponse) (chunks : list (option string * Z)) :
  let ts := partial_update_times (new msg) (stream_schedule chunks) in
  (forall i j ti tj, (i < j)%nat ->
     ts !! i = Some ti -> ts !! j = Some tj -> tj - ti > 1000)
  /\ exists h partials,
       steps (new msg) (stream_schedule chunks) =
         (h, partials
             ++ [PartialUpdateMessage (m_id msg) (full_text chunks);
                 SendClear (m_cid msg) (m_id msg); OffStop; OnDispose])
       /\ Forall (is_partial_update (m_id msg)) partials
       /\ length partials = length ts
       /\ run_pc h = Returned (full_text chunks)
       /\ is_done h = true.
Proof.
  intros ts. split.
  - intros i j ti tj. apply (spaced_pairwise (throttle_base (new msg))).
    apply partial_updates_spaced.
  - subst ts. unfold stream_schedule.
    set (evs := flat_map _ chunks).
    change (Run :: evs ++ [End; Ack; Ack]) with ([Run] ++ evs ++ [End; Ack; Ack]).
    set (h0 := at_run AwaitChunk (new msg)).
    assert (E0 : steps (new msg) [Run] = (h0, [])) by reflexivity.
    destruct (consume_chunks chunks h0 eq_refl eq_refl)
      as (h1 & e1 & E1 & Hpc1 & Hd1 & Ht1 & Hm1 & Hs1 & Hp1 & Hf1 & Hl1).
    fold evs in E1, Hl1.
    destruct (finish_stream h1 Hpc1 Hd1) as (h2 & E2 & Hpc2 & Hd2 & Hs2 & Hn2).
    exists h2, e1.
    rewrite steps_app, E0. cbv beta iota. rewrite steps_app, E1, E2.
    rewrite partial_update_times_app, E0. cbn [fst].
    rewrite partial_update_times_app, E1. cbn [fst].
    rewrite Hn2, app_nil_r. simpl in Ht1. rewrite Hm1, Ht1.
    simpl. repeat split; try done. by rewrite Hpc2, Ht1.
Qed.

(** *** Termination paths *)

Lemma flush_throttling_and_final_text_witness :
  6100 - 5000 > 1000.
Proof.
  refine (proj1 (flush_throttling_and_final_text example_message
                   [(Some "Sum", 5000); (Some "mary: ", 5400);
                    (Some "...", 6100)])
            0%nat 1%nat 5000 6100 _ _ _); [lia | reflexivity | reflexivity].
Defined.


Lemma dispose_done h : is_done h = true -> dispose h = (h, []).
Proof. unfold dispose. by intros ->. Qed.

Lemma is_done_step h ev : is_done h = true -> is_done (fst (step h ev)) = true.
Proof.
  handler h. simpl. intros ->.
  destruct ev; hunfold; repeat case_match; simplify_eq/=; done.
Qed.

Lemma is_done_steps evs : forall h,
  is_done h = true -> is_done (fst (steps h evs)) = true.
Proof.
  induction evs as [|ev evs IH]; intros h Hd; [done|]. simpl.
  pose proof (is_done_step h ev Hd) as H1.
  destruct (step h ev) as [h1 e1]. specialize (IH h1 H1).
  by destruct (steps h1 evs).
Qed.

Lemma done_guards h ev :
  is_done h = true -> in_flight h ev = false ->
  snd (step h ev) = [] /\ message_text (fst (step h ev)) = message_text h.
Proof.
  handler h. simpl. intros -> Hf.
  destruct ev; hunfold; repeat case_match; simplify_eq/=; done.
Qed.

Lemma dispose_repeat n : forall h,
  is_done h = true -> steps h (repeat Dispose n) = (h, []).
Proof.
  induction n as [|n IH]; intros h Hd; [done|]. simpl.
  rewrite (dispose_done h Hd), (IH h Hd). done.
Qed.

Lemma done_emits h ev :
  is_done h = true -> (snd (step h ev) = [] <-> in_flight h ev = false).
Proof.
  handler h. simpl. intros ->.
  destruct ev; hunfold; repeat case_match; simplify_eq/=; done.
Qed.

(** C5.  [dispose] itself never writes to the channel and never sends an
    indicator event; on a handler that is done it changes nothing and
    issues nothing, any number of times; [is_done] is never reset.  But the
    flag does not guard every later side effect: it is read where a path is
    entered, not where a path resumes after an [await].  A handler that is
    done issues requests on exactly the events that resume a path suspended
    past its guard.  So when the stop signal arrives while [run] awaits its
    final write, the flag is set and both paths go on: [run] still sends the
    indicator-clear event, the stop listener writes the text again (unless
    empty) and sends the clear event too, and neither [dispose] unregisters
    the listener or notifies the owner. *)
Theorem done_flag_misses_suspended_paths :
  (forall h, channel_effects (snd (dispose h)) = []
             /\ is_done (fst (dispose h)) = true)
  /\ (forall h n, is_done h = true -> steps h (repeat Dispose n) = (h, []))
  /\ (forall h evs, is_done h = true -> is_done (fst (steps h evs)) = true)
  /\ (forall h ev, is_done h = true ->
        (snd (step h ev) = [] <-> in_flight h ev = false))
  /\ (forall h,
        streaming h ->
        let id := m_id (message h) in
        let cid := m_cid (message h) in
        let text := message_text h in
        exists h1 e1 h2 e2,
          steps h [End; Stop (Some id)] = (h1, e1)
          /\ is_done h1 = true
          /\ steps h1 [Ack; StopAck; StopAck; Ack] = (h2, e2)
          /\ e1 = PartialUpdateMessage id text
                  :: (if truthy text then [PartialUpdateMessage id text]
                      else [SendClear cid id])
          /\ e2 = (if truthy text then [SendClear cid id; SendClear cid id]
                   else [SendClear cid id])
          /\ length (List.filter is_clear (e1 ++ e2)) = 2%nat
          /\ count_OffStop (e1 ++ e2) = 0%nat
          /\ count_OnDispose (e1 ++ e2) = 0%nat
          /\ subscribed h2 = true /\ run_pc h2 = Returned text).
Proof.
  split; [|split; [|split; [|split]]].
  - intros h. unfold dispose. by destruct (is_done h) eqn:E.
  - intros h n Hd. by apply dispose_repeat.
  - intros h evs. apply is_done_steps.
  - apply done_emits.
  - intros h (Hpc & Hd & Hs & Hp). handler h. simpl in *. subst. hunfold.
    rewrite bool_decide_eq_true_2 by done. simpl.
    destruct (truthy txt); simpl; eexists _, _, _, _;
      (split; [reflexivity|]); (split; [reflexivity|]);
      (split; [reflexivity|]); done.
Qed.

Lemma done_flag_misses_suspended_paths_witness :
  exists h1 e1 h2 e2,
    steps example_streaming [End; Stop (Some "m1")] = (h1, e1)
    /\ is_done h1 = true
    /\ steps h1 [Ack; StopAck; StopAck; Ack] = (h2, e2)
    /\ e1 = [PartialUpdateMessage "m1" "Hi"; PartialUpdateMessage "m1" "Hi"]
    /\ e2 = [SendClear "messaging:c1" "m1"; SendClear "messaging:c1" "m1"]
    /\ subscribed h2 = true.
Proof.
  destruct done_flag_misses_suspended_paths as (_ & _ & _ & _ & H).
  destruct (H example_streaming) as (h1 & e1 & h2 & e2 & H1 & H2 & H3 & H4
                                     & H5 & _ & _ & _ & H9 & _).
  { repeat split. }
  exists h1, e1, h2, e2. exact (conj H1 (conj H2 (conj H3 (conj H4 (conj H5 H9))))).
Defined.

Lemma path_exhausted h :
  run_pc h = AwaitChunk -> is_done h = false ->
  exists h1,
    steps h [End; Ack; Ack] =
      (h1, [PartialUpdateMessage (m_id (message h)) (message_text h);
            SendClear (m_cid (message h)) (m_id (message h));
            OffStop; OnDispose])
    /\ run_pc h1 = Returned (message_text h) /\ is_done h1 = true
    /\ subscribed h1 = false.
Proof.
  intros Hpc Hd. destruct (finish_stream h Hpc Hd) as (h1 & ? & ? & ? & ? & _).
  by exists h1.
Qed.

Lemma path_error h error :
  run_pc h = AwaitChunk -> is_done h = false ->
  exists h1,
    steps h [Throw error; Ack; Ack] =
      (h1, [SendIndicator AI_STATE_ERROR (m_cid (message h)) (m_id (message h));
            PartialUpdateMessage (m_id (message h))
              (or_else (toString error) "Error generating the message");
            OffStop; OnDispose])
    /\ run_pc h1 = Returned (message_text h) /\ is_done h1 = true
    /\ subscribed h1 = false.
Proof.
  handler h. simpl. intros -> ->. eexists. split; [reflexivity|]. done.
Qed.

Lemma path_stop h :
  is_done h = false -> subscribed h = true -> stop_pc h = StopIdle ->
  exists h1,
    steps h [Stop (Some (m_id (message h))); StopAck; StopAck] =
      (h1, (if truthy (message_text h)
            then [PartialUpdateMessage (m_id (message h)) (message_text h)]
            else [])
           ++ [SendClear (m_cid (message h)) (m_id (message h))])
    /\ is_done h1 = true /\ subscribed h1 = true
    /\ run_pc h1 = run_pc h /\ message_text h1 = message_text h
    /\ stop_pc h1 = StopIdle /\ message h1 = message h.
Proof.
  handler h. simpl. intros -> -> ->. hunfold.
  rewrite bool_decide_eq_true_2 by done. simpl.
  destruct (truthy txt); simpl; eexists; (split; [reflexivity|]); done.
Qed.

Lemma stop_other_id h message_id :
  message_id <> Some (m_id (message h)) -> step h (Stop message_id) = (h, []).
Proof.
  intros Hne. simpl. destruct (subscribed h); [|done].
  unfold handleStopGenerating.
  rewrite (bool_decide_eq_false_2 _ Hne). simpl. by rewrite orb_true_r.
Qed.

Lemma path_forced h :
  is_done h = false ->
  exists h1,
    step h Dispose = (h1, [OffStop; OnDispose])
    /\ is_done h1 = true /\ subscribed h1 = false
    /\ run_pc h1 = run_pc h /\ message_text h1 = message_text h.
Proof.
  handler h. simpl. intros ->. eexists. split; [reflexivity|]. done.
Qed.

Lemma done_stays_subscribed_step h ev :
  is_done h = true ->
  subscribed (fst (step h ev)) = subscribed h
  /\ existsb is_OnDispose (snd (step h ev)) = false
  /\ existsb is_OffStop (snd (step h ev)) = false.
Proof.
  handler h. simpl. intros ->.
  destruct ev; hunfold; repeat case_match; simplify_eq/=; done.
Qed.

Lemma done_stays_subscribed evs : forall h,
  is_done h = true ->
  subscribed (fst (steps h evs)) = subscribed h
  /\ existsb is_OnDispose (snd (steps h evs)) = false
  /\ existsb is_OffStop (snd (steps h evs)) = false.
Proof.
  induction evs as [|ev evs IH]; intros h Hd; [done|]. simpl.
  pose proof (done_stays_subscribed_step h ev Hd) as (H1 & H2 & H3).
  pose proof (is_done_step h ev Hd) as Hd1.
  destruct (step h ev) as [h1 e1]. simpl in *.
  destruct (IH h1 Hd1) as (I1 & I2 & I3).
  destruct (steps h1 evs) as [h2 e2]. simpl in *.
  rewrite !existsb_app, H2, H3, I2, I3. split; [congruence|done].
Qed.

(** C4.  A stop signal that carries the id of the target message reaches
    a handler that is not done: the handler is marked done, the accumulated
    text is written unless it is empty, the indicator-clear event is sent.
    The [dispose] that ends [handleStopGenerating] then finds [is_done]
    set and returns at its guard: the stop listener stays registered and
    the owner is not notified, whatever happens afterwards.  A stop signal
    with any other id changes nothing and issues nothing. *)
Theorem stop_signal_marks_done_without_disposing (h : GeminiResponseHandler) :
  is_done h = false -> subscribed h = true -> stop_pc h = StopIdle ->
  (exists h1,
     steps h [Stop (Some (m_id (message h))); StopAck; StopAck] =
       (h1, (if truthy (message_text h)
             then [PartialUpdateMessage (m_id (message h)) (message_text h)]
             else [])
            ++ [SendClear (m_cid (message h)) (m_id (message h))])
     /\ is_done h1 = true
     /\ forall evs,
          subscribed (fst (steps h1 evs)) = true
          /\ existsb is_OnDispose (snd (steps h1 evs)) = false
          /\ existsb is_OffStop (snd (steps h1 evs)) = false)
  /\ (forall message_id,
        message_id <> Some (m_id (message h)) ->
        step h (Stop message_id) = (h, [])).
Proof.
  intros Hd Hs Hp. split.
  - destruct (path_stop h Hd Hs Hp) as (h1 & E & Hd1 & Hs1 & _).
    exists h1. split; [done|]. split; [done|]. intros evs.
    destruct (done_stays_subscribed evs h1 Hd1) as (H1 & H2 & H3).
    rewrite H1. done.
  - intros message_id. apply stop_other_id.
Qed.

Lemma stop_signal_marks_done_without_disposing_witness :
  exists h1,
    steps example_streaming [Stop (Some "m1"); StopAck; StopAck] =
      (h1, [PartialUpdateMessage "m1" "Hi"; SendClear "messaging:c1" "m1"])
    /\ is_done h1 = true
    /\ subscribed (fst (steps h1 [End; Dispose])) = true
    /\ step example_streaming (Stop (Some "m2")) = (example_streaming, []).
Proof.
  destruct (stop_signal_marks_done_without_disposing example_streaming
              eq_refl eq_refl eq_refl) as ((h1 & E & Hd & Hafter) & Hother).
  exists h1. split; [exact E|]. split; [exact Hd|]. split.
  - apply (Hafter [End; Dispose]).
  - apply Hother. discriminate.
Defined.








Lemma step_new_Run msg :
  step (new msg) Run = (at_run AwaitChunk (new msg), []).
Proof. reflexivity. Qed.

Lemma returned_done_new msg : returned_done (at_run AwaitChunk (new msg)).
Proof. exact I. Qed.

Lemma returned_done_step h ev :
  returned_done h -> returned_done (fst (step h ev)).
Proof.
  handler h. unfold returned_done. simpl.
  destruct ev; hunfold; repeat case_match; simplify_eq/=; done.
Qed.

Lemma returned_done_dispose h :
  returned_done h -> returned_done (fst (dispose h)).
Proof. apply (returned_done_step h Dispose). Qed.

Lemma is_done_dispose h : is_done (fst (dispose h)) = true.
Proof. unfold dispose. by destruct (is_done h) eqn:E. Qed.

Lemma is_done_mono h ev :
  is_done (fst (step h ev)) = false -> is_done h = false.
Proof.
  intros H. destruct (is_done h) eqn:E; [|done].
  by rewrite (is_done_step h ev E) in H.
Qed.

Lemma step_throw h error :
  run_pc h = AwaitChunk -> is_done h = false ->
  step h (Throw error) =
    (at_run (AwaitErrorEvent error) h,
     [SendIndicator AI_STATE_ERROR (m_cid (message h)) (m_id (message h))]).
Proof. handler h. simpl. by intros -> ->. Qed.

Lemma step_ack_error_event h error :
  run_pc h = AwaitErrorEvent error ->
  step h Ack =
    (at_run AwaitErrorUpdate h,
     [PartialUpdateMessage (m_id (message h))
        (or_else (toString error) "Error generating the message")]).
Proof. handler h. simpl. by intros ->. Qed.

Lemma step_ack_error_update h :
  run_pc h = AwaitErrorUpdate -> is_done h = false ->
  step h Ack =
    (at_run (Returned (message_text h))
       (with_subscribed false (with_done true h)),
     [OffStop; OnDispose]).
Proof. handler h. simpl. by intros -> ->. Qed.

Lemma step_requested h ev : Queued.requested (snd (step h ev)) = [].
Proof.
  handler h. destruct ev; hunfold; repeat case_match; simplify_eq/=; done.
Qed.

(** *** The accumulated text *)

Lemma step_text_grows h ev :
  exists suffix,
    message_text (fst (step h ev)) = message_text h +:+ suffix
    /\ (is_done h = true -> suffix = "").
Proof.
  handler h. simpl.
  destruct ev; hunfold; repeat case_match; simplify_eq/=;
    try (exists ""; by rewrite append_nil_r);
    try (eexists; split; [reflexivity|done]).
Qed.

(** X1.  Over every sequence of events the accumulated text only grows:
    the text before is a prefix of the text after; and once the handler is
    done the text does not change any more, whatever fragments the stream
    still yields. *)
Theorem text_only_grows (h : GeminiResponseHandler) (evs : list HEvent) :
  exists suffix,
    message_text (fst (steps h evs)) = message_text h +:+ suffix
    /\ (is_done h = true -> suffix = "").
Proof.
  revert h. induction evs as [|ev evs IH]; intros h.
  - exists "". by rewrite append_nil_r.
  - cbn [steps]. destruct (step_text_grows h ev) as (s1 & E1 & D1).
    pose proof (is_done_step h ev) as Hd.
    destruct (step h ev) as [h1 e1]. cbn [fst] in *.
    destruct (IH h1) as (s2 & E2 & D2).
    destruct (steps h1 evs) as [h2 e2]. cbn [fst] in *.
    exists (s1 +:+ s2). split.
    + by rewrite E2, E1, append_assoc.
    + intros Hdone. rewrite (D1 Hdone), (D2 (Hd Hdone)). done.
Qed.

Lemma text_only_grows_witness :
  exists suffix,
    message_text
      (fst (steps (fst (dispose example_streaming))
              [Chunk (Some "more") 9000; End]))
    = message_text (fst (dispose example_streaming)) +:+ suffix
    /\ suffix = "".
Proof.
  destruct (text_only_grows (fst (dispose example_streaming))
              [Chunk (Some "more") 9000; End]) as (suffix & E & D).
  exists suffix. split; [exact E|]. apply D. reflexivity.
Defined.

Lemma returned_text_step h ev :
  returned_text h -> returned_text (fst (step h ev)).
Proof.
  handler h. unfold returned_text. simpl.
  destruct ev; hunfold; repeat case_match; simplify_eq/=;
    try done; try (by intros []).
Qed.

Lemma returned_text_steps evs : forall h,
  returned_text h -> returned_text (fst (steps h evs)).
Proof.
  induction evs as [|ev evs IH]; intros h H; [done|]. cbn [steps].
  pose proof (returned_text_step h ev H) as H1.
  destruct (step h ev) as [h1 e1]. specialize (IH h1 H1).
  by destruct (steps h1 evs).
Qed.

(** X2.  Whatever happens to a handler after its construction, when
    [run] has returned, the value it returned is the text the handler has
    accumulated, and the handler is done. *)
Theorem run_returns_accumulated_text
    (msg : MessageResponse) (evs : list HEvent) (fullText : string) :
  run_pc (fst (steps (new msg) evs)) = Returned fullText ->
  fullText = message_text (fst (steps (new msg) evs))
  /\ is_done (fst (steps (new msg) evs)) = true.
Proof.
  intros Hr. pose proof (returned_text_steps evs (new msg) I) as H.
  unfold returned_text in H. by rewrite Hr in H.
Qed.

Lemma run_returns_accumulated_text_witness :
  "Hi" = message_text
           (fst (steps (new example_message)
                   [Run; Chunk (Some "Hi") 5000; Ack; Stop (Some "m1");
                    Chunk (Some "there") 5100]))
  /\ is_done
       (fst (steps (new example_message)
               [Run; Chunk (Some "Hi") 5000; Ack; Stop (Some "m1");
                Chunk (Some "there") 5100])) = true.
Proof.
  apply (run_returns_accumulated_text example_message
           [Run; Chunk (Some "Hi") 5000; Ack; Stop (Some "m1");
            Chunk (Some "there") 5100] "Hi").
  reflexivity.
Defined.

(** *** The error text *)

Lemma toString_empty error :
  toString error = "" <-> err_name error = "" /\ err_message error = "".
Proof.
  unfold toString. destruct error as [n m]. simpl.
  destruct n as [|a n]; simpl; [split; [done|by intros []]|].
  destruct m as [|b m]; simpl; split; try done; try (by intros []).
Qed.

(** X3.  The text that [handleError] writes is never empty.  When the stream
    of a handler that is not done fails, the handler sends the
    indicator-error event and writes [name: message] of the error (its name
    or its message alone when the other is empty), and the generic
    "Error generating the message" exactly when the error has neither. *)
Theorem error_text_never_empty (h : GeminiResponseHandler) (error : JsError) :
  run_pc h = AwaitChunk -> is_done h = false ->
  exists h1 shown,
    steps h [Throw error; Ack; Ack]
      = (h1, [SendIndicator AI_STATE_ERROR (m_cid (message h))
                (m_id (message h));
              PartialUpdateMessage (m_id (message h)) shown;
              OffStop; OnDispose])
    /\ shown <> ""
    /\ (err_name error = "" /\ err_message error = "" ->
        shown = "Error generating the message")
    /\ (err_name error <> "" \/ err_message error <> "" ->
        shown = toString error)
    /\ (err_name error <> "" -> err_message error <> "" ->
        shown = err_name error +:+ ": " +:+ err_message error).
Proof.
  intros Hpc Hd. destruct (path_error h error Hpc Hd) as (h1 & E & _).
  exists h1, (or_else (toString error) "Error generating the message").
  split; [done|]. unfold or_else.
  destruct (truthy (toString error)) eqn:T.
  - apply truthy_true in T. repeat split; try done.
    + intros Hb. by apply toString_empty in Hb.
    + intros Hn Hm. unfold toString.
      destruct (err_name error), (err_message error); done.
  - apply truthy_false in T. apply toString_empty in T as [T1 T2].
    repeat split; try done. by intros [?|?].
Qed.

Lemma error_text_never_empty_witness :
  exists h1 shown,
    steps example_streaming
      [Throw {| err_name := ""; err_message := "" |}; Ack; Ack]
      = (h1, [SendIndicator AI_STATE_ERROR "messaging:c1" "m1";
              PartialUpdateMessage "m1" shown; OffStop; OnDispose])
    /\ shown = "Error generating the message".
Proof.
  destruct (error_text_never_empty example_streaming
              {| err_name := ""; err_message := "" |} eq_refl eq_refl)
    as (h1 & shown & E & _ & H & _).
  exists h1, shown. split; [exact E|]. apply H. split; reflexivity.
Defined.

(** X4.  A stop signal that arrives while [handleError] awaits its write of
    the error text finds [is_done] still false.  The stop listener then
    writes the accumulated text over the error text: the message ends up
    showing the partial text, the error is no longer visible, and the
    listener is never unregistered. *)
Theorem stop_overwrites_error_text (h : GeminiResponseHandler)
    (error : JsError) :
  streaming h -> message_text h <> "" ->
  let id := m_id (message h) in
  let cid := m_cid (message h) in
  exists h1 es,
    steps h [Throw error; Ack; Stop (Some id); Ack; StopAck; StopAck]
      = (h1, es)
    /\ es = [SendIndicator AI_STATE_ERROR cid id;
             PartialUpdateMessage id
               (or_else (toString error) "Error generating the message");
             PartialUpdateMessage id (message_text h);
             SendClear cid id]
    /\ displayed id es = Some (message_text h)
    /\ is_done h1 = true /\ subscribed h1 = true
    /\ run_pc h1 = Returned (message_text h).
Proof.
  intros (Hpc & Hd & Hs & Hp) Ht. handler h. simpl in *. subst. hunfold.
  rewrite bool_decide_eq_true_2 by done. simpl.
  destruct txt as [|c txt]; [done|]. simpl.
  eexists _, _. split; [reflexivity|]. split; [reflexivity|].
  split; [|done]. unfold displayed. simpl. by rewrite String.eqb_refl.
Qed.

Lemma stop_overwrites_error_text_witness :
  exists h1 es,
    steps example_streaming
      [Throw {| err_name := "Error"; err_message := "boom" |}; Ack;
       Stop (Some "m1"); Ack; StopAck; StopAck] = (h1, es)
    /\ displayed "m1" es = Some "Hi".
Proof.
  destruct (stop_overwrites_error_text example_streaming
              {| err_name := "Error"; err_message := "boom" |})
    as (h1 & es & E & _ & D & _).
  - repeat split.
  - discriminate.
  - exists h1, es. exact (conj E D).
Defined.

(** *** Facts used for the agents *)

Lemma dispose_idem h : fst (dispose (fst (dispose h))) = fst (dispose h).
Proof. handler h. unfold dispose. simpl. by destruct dn. Qed.

Lemma dispose_effects h : channel_effects (snd (dispose h)) = [].
Proof. unfold dispose. by destruct (is_done h). Qed.

Lemma run_step_tidy h ev :
  of_run ev = true ->
  (tidy h -> tidy (fst (step h ev)))
  /\ (is_done h = false ->
      is_done (fst (step h ev)) = existsb is_OnDispose (snd (step h ev))).
Proof.
  handler h. unfold tidy. simpl.
  destruct ev; try done; intros _; hunfold; repeat case_match;
    simplify_eq/=; (split; [intros [? ?]; split; (done || auto)|]);
    try done; by intros [=].
Qed.

Lemma stop_ack_idle h : stop_pc h = StopIdle -> step h StopAck = (h, []).
Proof. simpl. by intros ->. Qed.

Lemma dispose_tidy h : tidy h -> tidy (fst (dispose h)).
Proof.
  handler h. unfold tidy, dispose. simpl. intros [-> H].
  by destruct dn.
Qed.

Lemma new_tidy cm : tidy (at_run AwaitChunk (new cm)).
Proof. by split. Qed.








End HandlerFacts.

(** ** The non-queuing agent *)

Module DirectFacts.
Import ResponseHandler Direct.

#[local] Opaque ResponseHandler.step ResponseHandler.dispose.

Ltac proj :=
  cbn [genai self_id listening lastInteractionTs chatHistory handlers
       heap tasks disposing trace
       set_listening set_lastInteractionTs set_chatHistory set_handlers
       set_heap set_tasks set_disposing set_trace emit removeHandler
       fst snd] in *.

Lemma step_message now e s message :
  listening s = true -> accepted (genai s) (self_id s) e = Some message ->
  let s1 := step now (MessageNew e) s in
  chatHistory s1 = chatHistory s ++ [{| role := user; text := message |}]
  /\ tasks s1 = tasks s ++ [AwaitSendMessage (context_of e)]
  /\ trace s1 = trace s ++ [SendMessage "" true]
  /\ heap s1 = heap s /\ handlers s1 = handlers s
  /\ listening s1 = listening s /\ genai s1 = genai s
  /\ self_id s1 = self_id s.
Proof.
  intros Hl Ha. cbn [step]. rewrite Hl. unfold handleMessage. rewrite Ha.
  by proj.
Qed.

Lemma exec_to_upstream s t ctx cm now1 now2 now3 :
  tasks s !! t = Some (AwaitSendMessage ctx) ->
  let s3 := exec [(now1, Resume t (Sent cm)); (now2, Resume t Done);
                  (now3, Resume t Done)] s in
  trace s3 =
    trace s ++ [SendIndicator AI_STATE_THINKING (m_cid cm) (m_id cm);
                SendIndicator AI_STATE_GENERATING (m_cid cm) (m_id cm);
                GenerateContentStream model_name (chatHistory s) ctx]
  /\ tasks s3 = <[t := AwaitUpstream cm ctx 0]> (tasks s)
  /\ chatHistory s3 = chatHistory s /\ heap s3 = heap s.
Proof.
  intros Ht. pose proof (lookup_lt_Some _ _ _ Ht) as Hlt.
  cbn [exec step]. rewrite Ht. cbn [resume]. proj.
  rewrite list_lookup_insert_eq by done. cbn [resume]. proj.
  rewrite list_lookup_insert_eq by (by rewrite length_insert).
  cbn [resume]. unfold call_upstream. proj.
  rewrite !list_insert_insert_eq, <- !app_assoc. done.
Qed.

(** C9.  The non-queuing [handleMessage]: every accepted message, in
    whatever state the agent is, at once appends its user turn to the
    history and starts a task; when the three channel requests of that task
    have resolved, the upstream call is issued with the shared history.  So
    a message that arrives while another task is in flight gets its own
    call, issued while the other task is still where it was, and its
    contents hold the user turns of both. *)
Theorem every_message_starts_a_call :
  (forall s now e message,
     listening s = true -> accepted (genai s) (self_id s) e = Some message ->
     let s1 := step now (MessageNew e) s in
     chatHistory s1 = chatHistory s ++ [{| role := user; text := message |}]
     /\ tasks s1 = tasks s ++ [AwaitSendMessage (context_of e)]
     /\ trace s1 = trace s ++ [SendMessage "" true])
  /\ (forall s t ctx cm now1 now2 now3,
        tasks s !! t = Some (AwaitSendMessage ctx) ->
        let s3 := exec [(now1, Resume t (Sent cm)); (now2, Resume t Done);
                        (now3, Resume t Done)] s in
        trace s3 =
          trace s ++ [SendIndicator AI_STATE_THINKING (m_cid cm) (m_id cm);
                      SendIndicator AI_STATE_GENERATING (m_cid cm) (m_id cm);
                      GenerateContentStream model_name (chatHistory s) ctx]
        /\ tasks s3 !! t = Some (AwaitUpstream cm ctx 0))
  /\ (forall s now e message t1 pc1 cm now1 now2 now3,
        listening s = true ->
        accepted (genai s) (self_id s) e = Some message ->
        tasks s !! t1 = Some pc1 ->
        let t2 := length (tasks s) in
        let s4 := exec [(now, MessageNew e); (now1, Resume t2 (Sent cm));
                        (now2, Resume t2 Done); (now3, Resume t2 Done)] s in
        tasks s4 !! t1 = Some pc1
        /\ tasks s4 !! t2 = Some (AwaitUpstream cm (context_of e) 0)
        /\ trace s4 =
             trace s
             ++ [SendMessage "" true;
                 SendIndicator AI_STATE_THINKING (m_cid cm) (m_id cm);
                 SendIndicator AI_STATE_GENERATING (m_cid cm) (m_id cm);
                 GenerateContentStream model_name
                   (chatHistory s ++ [{| role := user; text := message |}])
                   (context_of e)]).
Proof.
  split; [|split].
  - intros s now e message Hl Ha.
    destruct (step_message now e s message Hl Ha) as (H1 & H2 & H3 & _).
    done.
  - intros s t ctx cm now1 now2 now3 Ht.
    destruct (exec_to_upstream s t ctx cm now1 now2 now3 Ht)
      as (H1 & H2 & _).
    split; [done|]. rewrite H2. apply list_lookup_insert_eq.
    by eapply lookup_lt_Some.
  - intros s now e message t1 pc1 cm now1 now2 now3 Hl Ha Ht1 t2 s4.
    destruct (step_message now e s message Hl Ha)
      as (H1 & H2 & H3 & _).
    set (s1 := step now (MessageNew e) s) in *.
    assert (Ht2 : tasks s1 !! t2 = Some (AwaitSendMessage (context_of e))).
    { rewrite H2. subst t2. by rewrite lookup_app_r, Nat.sub_diag by lia. }
    destruct (exec_to_upstream s1 t2 (context_of e) cm now1 now2 now3 Ht2)
      as (E1 & E2 & _).
    change s4 with (exec [(now1, Resume t2 (Sent cm)); (now2, Resume t2 Done);
                          (now3, Resume t2 Done)] s1).
    pose proof (lookup_lt_Some _ _ _ Ht1) as Hlt1.
    pose proof (lookup_lt_Some _ _ _ Ht2) as Hlt2.
    rewrite E1, E2, H1, H2, H3, <- app_assoc. repeat split.
    + rewrite list_lookup_insert_ne by (subst t2; lia).
      by apply lookup_app_l_Some.
    + apply list_lookup_insert_eq. by rewrite <- H2.
Qed.

Lemma every_message_starts_a_call_witness :
  let s4 := exec [(20, MessageNew (example_event "second"));
                  (21, Resume 1 (Sent example_message2));
                  (22, Resume 1 Done); (23, Resume 1 Done)]
              example_in_flight in
  tasks s4 !! 0%nat = Some (AwaitUpstream example_message None 0)
  /\ tasks s4 !! 1%nat = Some (AwaitUpstream example_message2 None 0)
  /\ trace s4 =
       trace example_in_flight
       ++ [SendMessage "" true;
           SendIndicator AI_STATE_THINKING "messaging:c1" "m2";
           SendIndicator AI_STATE_GENERATING "messaging:c1" "m2";
           GenerateContentStream model_name
             [{| role := user; text := "first" |};
              {| role := user; text := "second" |}] None].
Proof.
  destruct every_message_starts_a_call as (_ & _ & H).
  exact (H example_in_flight 20 (example_event "second") "second" 0%nat
           (AwaitUpstream example_message None 0) example_message2 21 22 23
           eq_refl eq_refl eq_refl).
Defined.

(** *** Streams side by side *)

Lemma direct_stream_started s t cm ctx attempt now :
  tasks s !! t = Some (AwaitUpstream cm ctx attempt) ->
  let s' := step now (Resume t Stream) s in
  heap s' = heap s ++ [at_run AwaitChunk (new cm)]
  /\ handlers s' = handlers s ++ [length (heap s)]
  /\ tasks s' = <[t := AwaitRun cm (length (heap s))]> (tasks s)
  /\ trace s' = trace s /\ chatHistory s' = chatHistory s.
Proof.
  intros Ht. cbn [step]. rewrite Ht. cbn [resume]. unfold run_event. proj.
  rewrite lookup_app_r by lia. rewrite Nat.sub_diag.
  cbn [lookup list_lookup]. rewrite HandlerFacts.step_new_Run.
  cbn [run_pc at_run]. unfold handler_effects. cbn [existsb]. proj.
  rewrite app_nil_r.
  rewrite insert_app_r_alt by lia. by rewrite Nat.sub_diag.
Qed.

(** X5.  The non-queuing version streams several responses at once.
    When the upstream calls of two tasks both resolve, two handlers are
    constructed and registered, both not done and both waiting for
    fragments, and each task awaits its own handler. *)
Theorem direct_streams_overlap s t1 t2 cm1 cm2 ctx1 ctx2 a1 a2 now1 now2 :
  t1 <> t2 ->
  tasks s !! t1 = Some (AwaitUpstream cm1 ctx1 a1) ->
  tasks s !! t2 = Some (AwaitUpstream cm2 ctx2 a2) ->
  let s' := exec [(now1, Resume t1 Stream); (now2, Resume t2 Stream)] s in
  let ref1 := length (heap s) in
  let ref2 := S (length (heap s)) in
  heap s' = heap s ++ [at_run AwaitChunk (new cm1); at_run AwaitChunk (new cm2)]
  /\ handlers s' = handlers s ++ [ref1; ref2]
  /\ tasks s' !! t1 = Some (AwaitRun cm1 ref1)
  /\ tasks s' !! t2 = Some (AwaitRun cm2 ref2)
  /\ length (List.filter live (heap s'))
     = (length (List.filter live (heap s)) + 2)%nat.
Proof.
  intros Hne Ht1 Ht2.
  pose proof (lookup_lt_Some _ _ _ Ht1) as Hlt1.
  pose proof (lookup_lt_Some _ _ _ Ht2) as Hlt2.
  destruct (direct_stream_started s t1 cm1 ctx1 a1 now1 Ht1)
    as (H1 & H2 & H3 & _).
  change (exec [(now1, Resume t1 Stream); (now2, Resume t2 Stream)] s)
    with (step now2 (Resume t2 Stream) (step now1 (Resume t1 Stream) s)).
  set (s1 := step now1 (Resume t1 Stream) s) in *.
  assert (Ht2' : tasks s1 !! t2 = Some (AwaitUpstream cm2 ctx2 a2)).
  { rewrite H3. by rewrite list_lookup_insert_ne. }
  destruct (direct_stream_started s1 t2 cm2 ctx2 a2 now2 Ht2')
    as (G1 & G2 & G3 & _).
  cbv zeta. rewrite G1, G2, G3, H1, H2, H3, length_app. cbn [length].
  rewrite Nat.add_1_r, <- !app_assoc. repeat split.
  - rewrite list_lookup_insert_ne by done. by apply list_lookup_insert_eq.
  - apply list_lookup_insert_eq. by rewrite length_insert.
  - rewrite List.filter_app, length_app. done.
Qed.

Lemma direct_streams_overlap_witness :
  let s := exec [(20, MessageNew (example_event "second"));
                 (21, Resume 1 (Sent example_message2));
                 (22, Resume 1 Done); (23, Resume 1 Done)]
             example_in_flight in
  let s' := exec [(30, Resume 0 Stream); (31, Resume 1 Stream)] s in
  handlers s' = [0%nat; 1%nat]
  /\ length (List.filter live (heap s')) = 2%nat.
Proof.
  intros s s'.
  destruct (direct_streams_overlap s 0%nat 1%nat example_message
              example_message2 None None 0 0 30 31)
    as (_ & H2 & _ & _ & H5); [done | reflexivity | reflexivity |].
  exact (conj H2 H5).
Defined.

End DirectFacts.

(** ** The queuing agent *)

Module QueuedFacts.
Import ResponseHandler Queued HandlerFacts.

#[local] Opaque ResponseHandler.step ResponseHandler.dispose.

(** Projections of updated states, reduced. *)
Ltac proj :=
  cbn [genai self_id listening lastInteractionTs chatHistory handlers
       isProcessing lastApiCallTs apiCallCount messageQueue heap tasks
       disposing trace
       set_listening set_lastInteractionTs set_chatHistory set_handlers
       set_isProcessing set_lastApiCallTs set_apiCallCount set_messageQueue
       set_heap set_tasks set_disposing set_trace emit removeHandler
       fst snd] in *.

Ltac qunfold :=
  unfold run_event, after_run, processMessage_end, drain,
    processMessage_begin, processMessage_catch, call_upstream,
    send_generating, handler_effects in *.

Ltac qcases := repeat (proj; case_match; simplify_eq); simplify_eq; proj.

Lemma resume_frame now pc r s s1 pc1 :
  resume now pc r s = (s1, pc1) ->
  tasks s1 = tasks s /\ listening s1 = listening s
  /\ disposing s1 = disposing s /\ genai s1 = genai s
  /\ self_id s1 = self_id s.
Proof.
  intros E. destruct pc, r; cbn [resume] in E; try (by simplify_eq).
  all: qunfold; qcases; done.
Qed.

Lemma resume_finished now r s : resume now Finished r s = (s, Finished).
Proof. by destruct r. Qed.

(** [isProcessing] is released only by a task that ends. *)
Lemma resume_released now pc r s s1 pc1 :
  resume now pc r s = (s1, pc1) ->
  isProcessing s1 = false -> pc1 = Finished \/ isProcessing s = false.
Proof.
  intros E. destruct pc, r; cbn [resume] in E; try (simplify_eq; by right).
  all: qunfold; qcases; intros; (done || auto).
Qed.

Lemma insert_app_last {A} (l : list A) (x y : A) :
  <[length l := y]> (l ++ [x]) = l ++ [y].
Proof.
  rewrite insert_app_r_alt by lia. by rewrite Nat.sub_diag.
Qed.


(** What a task does to the heap when resumed. *)
Lemma resume_heap now pc r s s1 pc1 :
  resume now pc r s = (s1, pc1) ->
  (heap s1 = heap s /\ forall cm ref, pc = AwaitRun cm ref -> pc1 = pc)
  \/ (exists cm ref h hev,
        pc = AwaitRun cm ref /\ heap s !! ref = Some h
        /\ heap s1 = <[ref := fst (ResponseHandler.step h hev)]> (heap s)
        /\ (pc1 = AwaitRun cm ref
            \/ exists fullText,
                 run_pc (fst (ResponseHandler.step h hev)) = Returned fullText))
  \/ (exists cm ctx a,
        pc = AwaitUpstream cm ctx a
        /\ heap s1 = heap s ++ [at_run AwaitChunk (new cm)]
        /\ pc1 = AwaitRun cm (length (heap s))).
Proof.
  intros E. destruct pc, r; cbn [resume] in E;
    try (simplify_eq; by left); try (qunfold; qcases; by left).
  all: try (left; qunfold; qcases; done).
  - (* the stream has started *)
    right; right. unfold run_event in E. proj.
    rewrite lookup_app_r in E by lia. rewrite Nat.sub_diag in E.
    cbn [lookup list_lookup] in E. rewrite step_new_Run in E.
    cbn [run_pc at_run] in E. simplify_eq. unfold handler_effects. proj.
    cbn [existsb]. proj. rewrite insert_app_last. eauto 10.
  - unfold run_event in E.
    destruct (heap s !! handler) as [h|] eqn:Hh; [|simplify_eq; by left].
    right; left.
    exists channelMessage, handler, h, Ack.
    destruct (ResponseHandler.step h Ack) as [h1 es] eqn:Es. cbn [fst].
    destruct (run_pc h1) eqn:Hpc; qunfold; qcases; eauto 10.
  - unfold run_event in E.
    destruct (heap s !! handler) as [h|] eqn:Hh; [|simplify_eq; by left].
    right; left.
    exists channelMessage, handler, h, (Chunk chunk_text now).
    destruct (ResponseHandler.step h (Chunk chunk_text now)) as [h1 es] eqn:Es.
    cbn [fst].
    destruct (run_pc h1) eqn:Hpc; qunfold; qcases; eauto 10.
  - unfold run_event in E.
    destruct (heap s !! handler) as [h|] eqn:Hh; [|simplify_eq; by left].
    right; left.
    exists channelMessage, handler, h, End.
    destruct (ResponseHandler.step h End) as [h1 es] eqn:Es. cbn [fst].
    destruct (run_pc h1) eqn:Hpc; qunfold; qcases; eauto 10.
  - unfold run_event in E.
    destruct (heap s !! handler) as [h|] eqn:Hh; [|simplify_eq; by left].
    right; left.
    exists channelMessage, handler, h, (Throw error).
    destruct (ResponseHandler.step h (Throw error)) as [h1 es] eqn:Es.
    cbn [fst].
    destruct (run_pc h1) eqn:Hpc; qunfold; qcases; eauto 10.
Qed.


Lemma resume_active now pc r s s1 pc1 :
  resume now pc r s = (s1, pc1) -> active pc1 = true -> active pc = true.
Proof.
  destruct pc; try done. rewrite resume_finished. by intros [= <- <-].
Qed.

Lemma filter_handlers_ok (f : nat -> bool) (n : nat) (l : list nat) :
  NoDup l -> Forall (fun ref => (ref < n)%nat) l ->
  NoDup (List.filter f l) /\ Forall (fun ref => (ref < n)%nat) (List.filter f l).
Proof.
  intros Hn Hf. split.
  { apply NoDup_ListNoDup, List.NoDup_filter. by apply NoDup_ListNoDup. }
  rewrite List.Forall_forall in *. intros x Hx.
  apply List.filter_In in Hx as [Hx _]. by apply Hf.
Qed.

Lemma push_handler_ok (n : nat) (l : list nat) :
  NoDup l -> Forall (fun ref => (ref < n)%nat) l ->
  NoDup (l ++ [n]) /\ Forall (fun ref => (ref < S n)%nat) (l ++ [n]).
Proof.
  intros Hn Hf. split.
  - apply NoDup_app. split; [done|]. split; [|apply NoDup_singleton].
    intros x Hx Hx'. apply list_elem_of_singleton in Hx' as ->.
    rewrite Forall_forall in Hf. specialize (Hf _ Hx). lia.
  - apply Forall_app. split; [|by repeat constructor].
    eapply Forall_impl; [done|]. simpl. lia.
Qed.

Lemma handlers_ok_effects ref es s :
  handlers_ok s -> handlers_ok (handler_effects ref es s).
Proof.
  unfold handlers_ok, handler_effects. intros [Hn Hf].
  destruct (existsb is_OnDispose es); proj; [|done].
  by apply filter_handlers_ok.
Qed.

Lemma handlers_ok_same s s1 :
  handlers s1 = handlers s -> length (heap s1) = length (heap s) ->
  handlers_ok s -> handlers_ok s1.
Proof. unfold handlers_ok. by intros -> ->. Qed.


Lemma resume_handlers now pc r s s1 pc1 :
  resume now pc r s = (s1, pc1) -> handlers_ok s -> handlers_ok s1.
Proof.
  intros E [Hn Hf].
  destruct pc, r; cbn [resume] in E; try (by simplify_eq).
  all: qunfold; qcases; unfold handlers_ok; proj;
    rewrite ?length_insert, ?length_app; cbn [length];
    rewrite ?Nat.add_1_r; try done;
    try (by apply filter_handlers_ok);
    try (by apply push_handler_ok);
    try (apply filter_handlers_ok; by apply push_handler_ok).
Qed.


(** *** The invariant *)

Lemma inv_initial self : Inv (initial self).
Proof.
  split; simpl; try done.
  split; [apply NoDup_nil_2 | apply Forall_nil_2].
Qed.

Lemma inv_handleMessage now e s :
  listening s = true -> Inv s -> Inv (handleMessage now e s).
Proof.
  intros Hl [I1 I2 I3 I4 I5 I6]. unfold handleMessage.
  destruct (accepted _ _ e) as [txt|]; [|by split].
  destruct (isProcessing s) eqn:Hp.
  { split; proj; try done. congruence. }
  unfold processMessage_begin. proj.
  specialize (I2 Hl eq_refl).
  split; proj; try done.
  - intros i j pci pcj Hi Hj Ai Aj.
    apply lookup_app_Some in Hi as [Hi|[Hi1 Hi2]].
    { rewrite (I2 _ _ Hi) in Ai. done. }
    apply lookup_app_Some in Hj as [Hj|[Hj1 Hj2]].
    { rewrite (I2 _ _ Hj) in Aj. done. }
    destruct (i - length (tasks s))%nat eqn:Ei; [|done].
    destruct (j - length (tasks s))%nat eqn:Ej; [|done]. lia.
  - intros ref h Hh Hd. destruct (I3 ref h Hh Hd) as (t & cm & Ht).
    exists t, cm. by apply lookup_app_l_Some.
Qed.


Lemma inv_resume now t r s pc s1 pc1 :
  Inv s -> tasks s !! t = Some pc -> resume now pc r s = (s1, pc1) ->
  Inv (set_tasks (<[t := pc1]> (tasks s1)) s1).
Proof.
  intros [I1 I2 I3 I4 I5 I6] Ht E.
  destruct (resume_frame _ _ _ _ _ _ E) as (Ft & Fl & Fd & _).
  pose proof (lookup_lt_Some _ _ _ Ht) as Hlt.
  assert (Hother : forall i pci, i <> t ->
            <[t := pc1]> (tasks s) !! i = Some pci -> active pci = true ->
            active pc = true -> False).
  { intros i pci Hne Hi Ai Ap. rewrite list_lookup_insert_ne in Hi by done.
    apply Hne. by apply (I1 i t pci pc). }
  split; proj; rewrite ?Ft, ?Fl, ?Fd; try done.
  - (* at most one task *)
    intros i j pci pcj Hi Hj Ai Aj.
    destruct (decide (i = t)) as [->|Hi'], (decide (j = t)) as [->|Hj'];
      try done.
    + rewrite list_lookup_insert_eq in Hi by done. simplify_eq.
      exfalso. eapply (Hother j); eauto using resume_active.
    + rewrite list_lookup_insert_eq in Hj by done. simplify_eq.
      exfalso. eapply (Hother i); eauto using resume_active.
    + rewrite list_lookup_insert_ne in Hi, Hj by done. eauto.
  - (* idle *)
    intros Hl Hp i pci Hi.
    destruct (active pc) eqn:Ap.
    + destruct (resume_released _ _ _ _ _ _ E Hp) as [->|Hp0].
      * destruct (decide (i = t)) as [->|Hne].
        { rewrite list_lookup_insert_eq in Hi by done. by simplify_eq. }
        destruct (active pci) eqn:Ai; [|done]. exfalso. eauto.
      * by rewrite (I2 Hl Hp0 _ _ Ht) in Ap.
    + destruct pc; try done. rewrite resume_finished in E. simplify_eq.
      rewrite list_insert_id in Hi by done. eauto.
  - (* a live handler is awaited *)
    intros ref h1 Hh Hd.
    destruct (resume_heap _ _ _ _ _ _ E)
      as [[Eh Hsame]|[(cm & ref0 & h & hev & -> & Hh0 & Eh & Hpc1)
                     |(cm & ctx & a & -> & Eh & ->)]].
    + rewrite Eh in Hh. destruct (I3 _ _ Hh Hd) as (t' & cm & Ht').
      exists t', cm. destruct (decide (t' = t)) as [->|Hne].
      * rewrite list_lookup_insert_eq by done. simplify_eq.
        by rewrite (Hsame _ _ eq_refl).
      * by rewrite list_lookup_insert_ne.
    + rewrite Eh in Hh. destruct (decide (ref = ref0)) as [->|Hne].
      * rewrite list_lookup_insert_eq in Hh by (by eapply lookup_lt_Some).
        simplify_eq. exists t, cm.
        rewrite list_lookup_insert_eq by done.
        destruct Hpc1 as [->|[fullText Hr]]; [done|].
        pose proof (returned_done_step h hev (I4 _ _ Hh0)) as Hrd.
        unfold returned_done in Hrd. rewrite Hr in Hrd. congruence.
      * rewrite list_lookup_insert_ne in Hh by done.
        destruct (I3 _ _ Hh Hd) as (t' & cm' & Ht').
        exists t', cm'. rewrite list_lookup_insert_ne; [done|].
        intros ->. simplify_eq.
    + rewrite Eh in Hh. apply lookup_app_Some in Hh as [Hh|[Hh1 Hh2]].
      * destruct (I3 _ _ Hh Hd) as (t' & cm' & Ht').
        exists t', cm'. rewrite list_lookup_insert_ne; [done|].
        intros ->. simplify_eq.
      * destruct (ref - length (heap s))%nat eqn:Er; [|done].
        assert (ref = length (heap s)) as -> by lia.
        exists t, cm. by rewrite list_lookup_insert_eq.
  - (* returned handlers are done *)
    intros ref h1 Hh.
    destruct (resume_heap _ _ _ _ _ _ E)
      as [[Eh Hsame]|[(cm & ref0 & h & hev & -> & Hh0 & Eh & Hpc1)
                     |(cm & ctx & a & -> & Eh & ->)]];
      rewrite Eh in Hh.
    + eauto.
    + destruct (decide (ref = ref0)) as [->|Hne].
      * rewrite list_lookup_insert_eq in Hh by (by eapply lookup_lt_Some).
        simplify_eq. apply returned_done_step. eauto.
      * rewrite list_lookup_insert_ne in Hh by done. eauto.
    + apply lookup_app_Some in Hh as [Hh|[Hh1 Hh2]]; [eauto|].
      destruct (ref - length (heap s))%nat eqn:Er; [|done].
      simpl in Hh2. simplify_eq. apply returned_done_new.
  - (* this.handlers *)
    pose proof (resume_handlers _ _ _ _ _ _ E I6) as H6.
    unfold handlers_ok in *. by proj.
Qed.


Lemma evolves_refl h : evolves h h.
Proof. by split. Qed.

Lemma evolves_trans h1 h2 h3 : evolves h1 h2 -> evolves h2 h3 -> evolves h1 h3.
Proof. intros [] []. split; eauto. Qed.

Lemma evolves_step h ev : evolves h (fst (ResponseHandler.step h ev)).
Proof. split; [apply is_done_mono | apply returned_done_step]. Qed.

Lemma evolves_dispose h : evolves h (fst (ResponseHandler.dispose h)).
Proof. apply (evolves_step h Dispose). Qed.

Lemma heap_evolves_refl hp : heap_evolves hp hp.
Proof. split; [done|]. eauto using evolves_refl. Qed.

Lemma heap_evolves_trans hp1 hp2 hp3 :
  heap_evolves hp1 hp2 -> heap_evolves hp2 hp3 -> heap_evolves hp1 hp3.
Proof.
  intros [L1 H1] [L2 H2]. split; [congruence|]. intros ref h3 Hh.
  destruct (H2 _ _ Hh) as (h2 & Hh2 & E2).
  destruct (H1 _ _ Hh2) as (h1 & Hh1 & E1). eauto using evolves_trans.
Qed.

Lemma heap_evolves_insert hp ref h h1 :
  hp !! ref = Some h -> evolves h h1 -> heap_evolves hp (<[ref := h1]> hp).
Proof.
  intros Hh Ev. split; [apply length_insert|]. intros ref' h' Hh'.
  destruct (decide (ref' = ref)) as [->|Hne].
  - rewrite list_lookup_insert_eq in Hh' by (by eapply lookup_lt_Some).
    simplify_eq. eauto.
  - rewrite list_lookup_insert_ne in Hh' by done. eauto using evolves_refl.
Qed.

Lemma dispatch_stop_evolves message_id hs :
  heap_evolves hs (fst (dispatch_stop message_id hs)).
Proof.
  induction hs as [|h hs [IHl IH]]; [apply heap_evolves_refl|].
  cbn [dispatch_stop].
  pose proof (evolves_step h (Stop message_id)) as Ev.
  destruct (ResponseHandler.step h (Stop message_id)) as [h1 e1].
  destruct (dispatch_stop message_id hs) as [hs1 e2]. cbn [fst] in *.
  split; [simpl; congruence|]. intros [|ref] h' Hh'; simpl in *.
  - simplify_eq. eauto.
  - eauto.
Qed.

(** The invariant survives an event that reaches handlers only. *)
Lemma inv_heap_evolves s s1 :
  Inv s -> heap_evolves (heap s) (heap s1) ->
  tasks s1 = tasks s -> listening s1 = listening s ->
  isProcessing s1 = isProcessing s -> disposing s1 = disposing s ->
  handlers_ok s1 ->
  Inv s1.
Proof.
  intros [I1 I2 I3 I4 I5 I6] [HL HE] Ft Fl Fp Fd H6.
  split; rewrite ?Ft, ?Fl, ?Fp, ?Fd; try done.
  - intros ref h1 Hh Hd. destruct (HE _ _ Hh) as (h & Hh0 & [E1 E2]). eauto.
  - intros ref h1 Hh. destruct (HE _ _ Hh) as (h & Hh0 & [E1 E2]). eauto.
Qed.

Lemma inv_stop now message_id s : Inv s -> Inv (step now (StopGenerating message_id) s).
Proof.
  intros HI. cbn [step].
  pose proof (dispatch_stop_evolves message_id (heap s)) as Hev.
  destruct (dispatch_stop message_id (heap s)) as [hs es]. cbn [fst] in Hev.
  apply (inv_heap_evolves s); try done.
  destruct HI as [_ _ _ _ _ [Hn Hf]]. destruct Hev as [HL _].
  split; proj; [done|]. by rewrite HL.
Qed.

Lemma inv_stop_resume now ref s : Inv s -> Inv (step now (StopResume ref) s).
Proof.
  intros HI. cbn [step].
  destruct (heap s !! ref) as [h|] eqn:Hh; [|done].
  pose proof (evolves_step h StopAck) as Ev.
  destruct (ResponseHandler.step h StopAck) as [h1 es]. cbn [fst] in Ev.
  pose proof (heap_evolves_insert _ _ _ _ Hh Ev) as Hev.
  apply (inv_heap_evolves s); try done;
    try (unfold handler_effects; destruct (existsb _ es); by proj).
  apply handlers_ok_effects. destruct HI as [_ _ _ _ _ [Hn Hf]].
  split; proj; [done|]. by rewrite length_insert.
Qed.

Lemma dispose_all_spec refs : forall s,
  let s1 := dispose_all refs s in
  heap_evolves (heap s) (heap s1)
  /\ tasks s1 = tasks s /\ listening s1 = listening s
  /\ isProcessing s1 = isProcessing s /\ disposing s1 = disposing s
  /\ messageQueue s1 = messageQueue s /\ chatHistory s1 = chatHistory s.
Proof.
  induction refs as [|ref refs IH]; intros s; cbn [dispose_all].
  { split; [apply heap_evolves_refl | done]. }
  destruct (heap s !! ref) as [h|] eqn:Hh; [|apply IH].
  pose proof (evolves_dispose h) as Ev.
  destruct (ResponseHandler.dispose h) as [h1 es]. cbn [fst] in Ev.
  pose proof (heap_evolves_insert _ _ _ _ Hh Ev) as Hev.
  set (s' := handler_effects ref es (set_heap (<[ref:=h1]> (heap s)) s)).
  assert (heap s' = <[ref:=h1]> (heap s) /\ tasks s' = tasks s
          /\ listening s' = listening s /\ isProcessing s' = isProcessing s
          /\ disposing s' = disposing s /\ messageQueue s' = messageQueue s
          /\ chatHistory s' = chatHistory s)
    as (Eh & Et & El & Ep & Ed & Eq & Ec).
  { subst s'. unfold handler_effects. destruct (existsb _ es); by proj. }
  destruct (IH s') as (H1 & H2 & H3 & H4 & H5 & H6 & H7).
  rewrite Eh in H1.
  split; [eapply heap_evolves_trans; eauto|]. repeat split; congruence.
Qed.

Lemma inv_dispose_call now s : Inv s -> Inv (step now DisposeCall s).
Proof.
  intros [I1 I2 I3 I4 I5 I6]. cbn [step]. split; proj; try done.
Qed.

Lemma dispose_all_handlers refs : forall s,
  handlers_ok s -> handlers_ok (dispose_all refs s).
Proof.
  induction refs as [|ref refs IH]; intros s Hok; cbn [dispose_all]; [done|].
  destruct (heap s !! ref) as [h|] eqn:Hh; [|by apply IH].
  destruct (ResponseHandler.dispose h) as [h1 es].
  apply IH, handlers_ok_effects. destruct Hok as [Hn Hf].
  split; proj; [done|]. by rewrite length_insert.
Qed.

Lemma inv_disconnected now s : Inv s -> Inv (step now Disconnected s).
Proof.
  intros HI. cbn [step]. destruct (disposing s) eqn:Hd; [|done].
  destruct (dispose_all_spec (handlers s) s) as (H1 & H2 & H3 & H4 & H5 & _).
  pose proof HI as [I1 I2 I3 I4 I5 I6].
  assert (Inv (dispose_all (handlers s) s)) as [J1 J2 J3 J4 J5 J6].
  { apply (inv_heap_evolves s); try done. by apply dispose_all_handlers. }
  split; proj; try done.
  - rewrite H3, (I5 Hd). done.
  - split; [apply NoDup_nil_2 | apply Forall_nil_2].
Qed.

Lemma inv_step now ev s : Inv s -> Inv (step now ev s).
Proof.
  intros HI. destruct ev.
  - cbn [step]. destruct (listening s) eqn:Hl; [|done].
    by apply inv_handleMessage.
  - by apply inv_stop.
  - cbn [step]. destruct (tasks s !! task) as [pc|] eqn:Ht; [|done].
    destruct (resume now pc r s) as [s1 pc1] eqn:E.
    by eapply inv_resume.
  - by apply inv_stop_resume.
  - by apply inv_dispose_call.
  - by apply inv_disconnected.
Qed.

Lemma inv_exec evs : forall s, Inv s -> Inv (exec evs s).
Proof.
  induction evs as [|[now ev] evs IH]; intros s HI; [done|].
  cbn [exec]. by apply IH, inv_step.
Qed.

Lemma filter_none {A} (f : A -> bool) (l : list A) :
  (forall i x, l !! i = Some x -> f x = false) -> List.filter f l = [].
Proof.
  induction l as [|a l IH]; intros H; [done|]. simpl.
  rewrite (H 0%nat a eq_refl). apply IH. intros i x Hi. by apply (H (S i)).
Qed.

Lemma filter_at_most_one {A} (f : A -> bool) (l : list A) :
  (forall i j x y, l !! i = Some x -> l !! j = Some y ->
     f x = true -> f y = true -> i = j) ->
  (length (List.filter f l) <= 1)%nat.
Proof.
  induction l as [|a l IH]; intros H; [simpl; lia|]. simpl.
  destruct (f a) eqn:Fa.
  - rewrite filter_none; [simpl; lia|]. intros i x Hi.
    destruct (f x) eqn:Fx; [|done].
    by specialize (H 0%nat (S i) a x eq_refl Hi Fa Fx).
  - apply IH. intros i j x y Hi Hj Fx Fy.
    specialize (H (S i) (S j) x y Hi Hj Fx Fy). lia.
Qed.

Lemma filter_nodup_at_most_one {A} (f : A -> bool) (l : list A) :
  NoDup l ->
  (forall x y, x ∈ l -> y ∈ l -> f x = true -> f y = true -> x = y) ->
  (length (List.filter f l) <= 1)%nat.
Proof.
  intros Hn H. apply filter_at_most_one. intros i j x y Hi Hj Fx Fy.
  assert (x = y) as -> by (eapply H; eauto using list_elem_of_lookup_2).
  by eapply NoDup_lookup.
Qed.

Lemma live_unique s : Inv s ->
  forall i j x y, heap s !! i = Some x -> heap s !! j = Some y ->
    live x = true -> live y = true -> i = j.
Proof.
  intros [I1 _ I3 _ _ _] i j x y Hi Hj Lx Ly. unfold live in *.
  apply negb_true_iff in Lx, Ly.
  destruct (I3 _ _ Hi Lx) as (t1 & cm1 & Ht1).
  destruct (I3 _ _ Hj Ly) as (t2 & cm2 & Ht2).
  assert (t1 = t2) as -> by (by eapply I1).
  congruence.
Qed.

(** C1.  The queuing agent, from its initial state, under every sequence
    of events (inbound messages, stop signals, completions of the awaited
    operations, disposal): at most one handler is not done, among all the
    handlers the agent has constructed and among those it holds in
    [this.handlers]. *)
Theorem single_flight (self : option string) (evs : list (Z * AEvent)) :
  let s := exec evs (initial self) in
  (length (live_handlers s) <= 1)%nat
  /\ (length (live_registered s) <= 1)%nat.
Proof.
  intros s. assert (HI : Inv s) by apply inv_exec, inv_initial.
  pose proof (live_unique s HI) as Hu. split.
  - by apply filter_at_most_one.
  - destruct HI as [_ _ _ _ _ [Hn _]].
    apply filter_nodup_at_most_one; [done|].
    intros x y _ _ Fx Fy.
    destruct (heap s !! x) as [hx|] eqn:Hx; [|done].
    destruct (heap s !! y) as [hy|] eqn:Hy; [|done]. eauto.
Qed.

Lemma resume_attempt_ok now pc r s s1 pc1 :
  resume now pc r s = (s1, pc1) -> attempt_ok pc -> attempt_ok pc1.
Proof.
  intros E. destruct pc, r; cbn [resume] in E; try (by simplify_eq).
  all: qunfold; qcases; unfold attempt_ok, maxRetries in *; try done; try lia.
Qed.

Lemma step_attempt_ok now ev s :
  Forall attempt_ok (tasks s) -> Forall attempt_ok (tasks (step now ev s)).
Proof.
  intros H. destruct ev; cbn [step].
  - destruct (listening s); [|done]. unfold handleMessage.
    destruct (accepted _ _ e); [|done]. destruct (isProcessing s); [done|].
    unfold processMessage_begin. proj. apply Forall_app. split; [done|].
    by repeat constructor.
  - destruct (dispatch_stop _ _). by proj.
  - destruct (tasks s !! task) as [pc|] eqn:Ht; [|done].
    destruct (resume now pc r s) as [s1 pc1] eqn:E. proj.
    destruct (resume_frame _ _ _ _ _ _ E) as (-> & _).
    apply Forall_insert; [done|].
    eapply resume_attempt_ok; [done|].
    rewrite Forall_lookup in H. eauto.
  - destruct (heap s !! handler); [|done].
    destruct (ResponseHandler.step _ _). unfold handler_effects.
    destruct (existsb _ _); by proj.
  - by proj.
  - destruct (disposing s); [|done]. proj.
    by destruct (dispose_all_spec (handlers s) s) as (_ & -> & _).
Qed.

Lemma exec_attempt_ok evs : forall s,
  Forall attempt_ok (tasks s) -> Forall attempt_ok (tasks (exec evs s)).
Proof.
  induction evs as [|[now ev] evs IH]; intros s H; [done|].
  cbn [exec]. by apply IH, step_attempt_ok.
Qed.

(** C6.  The classification of an upstream failure as a rate limit is
    the occurrence of "429", "quota" or "Too Many Requests" in its
    description.  A failure so classified, at attempt 0, 1 or 2, is followed
    by a pause of 2^(attempt+1) seconds (2 s, 4 s, 8 s) and then by the next
    attempt; a failure of attempt 3, or one not so classified, is not
    retried and goes to the error handling of [processMessage].  The attempt
    number never leaves 0..3, so a call has at most three retries. *)
Theorem retry_policy :
  (forall retryError,
     isRateLimit (errorMessage retryError) = true <->
     occurs_in "429" (errorMessage retryError)
     \/ occurs_in "quota" (errorMessage retryError)
     \/ occurs_in "Too Many Requests" (errorMessage retryError))
  /\ (forall now cm ctx attempt retryError s,
        isRateLimit (errorMessage retryError) = true ->
        0 <= attempt < 3 ->
        resume now (AwaitUpstream cm ctx attempt) (Failed retryError) s =
          (emit [SetTimeout (2 ^ (attempt + 1) * 1000)] s,
           AwaitBackoff cm ctx attempt)
        /\ forall now' s',
             resume now' (AwaitBackoff cm ctx attempt) Timeout s' =
               (emit [GenerateContentStream model_name (chatHistory s') ctx] s',
                AwaitUpstream cm ctx (attempt + 1)))
  /\ (delay 0 = 2000 /\ delay 1 = 4000 /\ delay 2 = 8000)
  /\ (forall now cm ctx attempt retryError s,
        isRateLimit (errorMessage retryError) = false \/ 3 <= attempt ->
        resume now (AwaitUpstream cm ctx attempt) (Failed retryError) s =
          (emit [SendIndicator AI_STATE_ERROR (m_cid cm) (m_id cm)] s,
           AwaitCatchEvent cm))
  /\ (forall self evs t pc,
        tasks (exec evs (initial self)) !! t = Some pc ->
        match pc with
        | AwaitUpstream _ _ attempt => 0 <= attempt <= 3
        | AwaitBackoff _ _ attempt => 0 <= attempt < 3
        | _ => True
        end).
Proof.
  split; [|split; [|split; [|split]]].
  - intros e. unfold isRateLimit. rewrite !orb_true_iff, !includes_spec.
    tauto.
  - intros now cm ctx attempt e s Hr Ha. split; [|done].
    cbn [resume]. rewrite Hr. unfold maxRetries.
    destruct (Z.ltb_spec attempt 3); [done|lia].
  - done.
  - intros now cm ctx attempt e s H. cbn [resume]. unfold maxRetries.
    destruct H as [->|H]; [done|].
    destruct (Z.ltb_spec attempt 3); [lia|]. by rewrite andb_false_r.
  - intros self evs t pc Ht.
    assert (H : Forall attempt_ok (tasks (exec evs (initial self))))
      by (by apply exec_attempt_ok).
    rewrite Forall_lookup in H. apply (H _ _ Ht).
Qed.

(** One event of the stream or of the channel at a task that awaits [run],
    while [run] does not return. *)
Lemma step_run_pending now t cm ref r hev s h h1 es :
  tasks s !! t = Some (AwaitRun cm ref) -> heap s !! ref = Some h ->
  resume now (AwaitRun cm ref) r s = run_event now cm ref hev s ->
  ResponseHandler.step h hev = (h1, es) ->
  (forall fullText, run_pc h1 <> Returned fullText) ->
  existsb is_OnDispose es = false ->
  let s1 := step now (Resume t r) s in
  tasks s1 = tasks s /\ heap s1 = <[ref := h1]> (heap s)
  /\ trace s1 = trace s ++ es /\ chatHistory s1 = chatHistory s
  /\ messageQueue s1 = messageQueue s /\ genai s1 = genai s
  /\ isProcessing s1 = isProcessing s /\ handlers s1 = handlers s.
Proof.
  intros Ht Hh Er Es Hnr Hnd. cbn [step]. rewrite Ht, Er.
  unfold run_event. rewrite Hh, Es. unfold handler_effects. rewrite Hnd.
  destruct (run_pc h1) eqn:Hpc; try (by destruct (Hnr fullText)); proj;
    rewrite list_insert_id by done; done.
Qed.

(** The event on which [run] returns. *)
Lemma step_run_returns now t cm ref r hev s h h1 es fullText :
  tasks s !! t = Some (AwaitRun cm ref) -> heap s !! ref = Some h ->
  resume now (AwaitRun cm ref) r s = run_event now cm ref hev s ->
  ResponseHandler.step h hev = (h1, es) ->
  run_pc h1 = Returned fullText ->
  let s1 := step now (Resume t r) s in
  let hist := chatHistory s
              ++ (if truthy fullText
                  then [{| role := model; text := fullText |}] else []) in
  heap s1 = <[ref := h1]> (heap s)
  /\ match messageQueue s with
     | e :: rest =>
         if genai s then
           trace s1 = trace s ++ es ++ [SendMessage "" true]
           /\ chatHistory s1 = hist ++ [{| role := user; text := text_of e |}]
           /\ tasks s1 = <[t := AwaitSendMessage (context_of e)]> (tasks s)
           /\ isProcessing s1 = true /\ messageQueue s1 = rest
         else
           trace s1 = trace s ++ es /\ chatHistory s1 = hist
           /\ tasks s1 = <[t := Finished]> (tasks s)
           /\ isProcessing s1 = false /\ messageQueue s1 = []
     | [] =>
         trace s1 = trace s ++ es /\ chatHistory s1 = hist
         /\ tasks s1 = <[t := Finished]> (tasks s)
         /\ isProcessing s1 = false /\ messageQueue s1 = []
     end.
Proof.
  intros Ht Hh Er Es Hpc. cbn [step]. rewrite Ht, Er.
  unfold run_event. rewrite Hh, Es, Hpc.
  unfold after_run, processMessage_end, drain, processMessage_begin,
    handler_effects.
  destruct (existsb is_OnDispose es), (truthy fullText);
    proj; destruct (messageQueue s) as [|e rest] eqn:Hq; proj;
    try destruct (genai s); proj; rewrite <- ?app_assoc, ?app_nil_r, ?Hq;
    done.
Qed.


(** The stream throws while [run] waits for a fragment, and the two
    requests of [handleError] resolve. *)
Lemma stream_error_exec s t cm ref h error now1 now2 now3 :
  tasks s !! t = Some (AwaitRun cm ref) -> heap s !! ref = Some h ->
  run_pc h = AwaitChunk -> is_done h = false ->
  let s3 := exec [(now1, Resume t (StreamError error));
                  (now2, Resume t Done); (now3, Resume t Done)] s in
  let hist := chatHistory s
              ++ (if truthy (message_text h)
                  then [{| role := model; text := message_text h |}]
                  else []) in
  let errs := [SendIndicator AI_STATE_ERROR (m_cid (message h))
                 (m_id (message h));
               PartialUpdateMessage (m_id (message h))
                 (or_else (toString error) "Error generating the message");
               OffStop; OnDispose] in
  match messageQueue s with
  | e :: rest =>
      if genai s then
        trace s3 = trace s ++ errs ++ [SendMessage "" true]
        /\ chatHistory s3 = hist ++ [{| role := user; text := text_of e |}]
        /\ tasks s3 !! t = Some (AwaitSendMessage (context_of e))
        /\ isProcessing s3 = true
      else
        trace s3 = trace s ++ errs /\ chatHistory s3 = hist
        /\ tasks s3 !! t = Some Finished /\ isProcessing s3 = false
  | [] =>
      trace s3 = trace s ++ errs /\ chatHistory s3 = hist
      /\ tasks s3 !! t = Some Finished /\ isProcessing s3 = false
  end.
Proof.
  intros Ht Hh Hpc Hd. cbn [exec].
  pose proof (lookup_lt_Some _ _ _ Ht) as Hlt.
  pose proof (lookup_lt_Some _ _ _ Hh) as Hlr.
  (* the failure reaches [handleError] *)
  destruct (step_run_pending now1 t cm ref (StreamError error) (Throw error)
              s h _ _ Ht Hh eq_refl (step_throw h error Hpc Hd))
    as (T1 & H1 & R1 & C1 & Q1 & G1 & P1 & _); [done|done|].
  set (s1 := step now1 (Resume t (StreamError error)) s) in *.
  set (h1 := at_run (AwaitErrorEvent error) h) in *.
  assert (Hh1 : heap s1 !! ref = Some h1)
    by (rewrite H1; by apply list_lookup_insert_eq).
  assert (Ht1 : tasks s1 !! t = Some (AwaitRun cm ref)) by (by rewrite T1).
  (* the indicator event is acknowledged *)
  destruct (step_run_pending now2 t cm ref Done Ack
              s1 h1 _ _ Ht1 Hh1 eq_refl (step_ack_error_event h1 error eq_refl))
    as (T2 & H2 & R2 & C2 & Q2 & G2 & P2 & _); [done|done|].
  set (s2 := step now2 (Resume t Done) s1) in *.
  set (h2 := at_run AwaitErrorUpdate h1) in *.
  assert (Hh2 : heap s2 !! ref = Some h2).
  { rewrite H2. apply list_lookup_insert_eq. by rewrite H1, length_insert. }
  assert (Ht2 : tasks s2 !! t = Some (AwaitRun cm ref)) by (by rewrite T2).
  (* the write is acknowledged: dispose, return, back in processMessage *)
  pose proof (step_run_returns now3 t cm ref Done Ack s2 h2 _ _ _ Ht2 Hh2
                eq_refl (step_ack_error_update h2 eq_refl Hd) eq_refl)
    as (_ & H3).
  rewrite Q2, Q1, G2, G1, R2, R1, C2, C1, T2, T1 in H3.
  change (message_text h2) with (message_text h) in H3.
  change (message h1) with (message h) in R2.
  destruct (messageQueue s) as [|e rest]; [|destruct (genai s)];
    destruct H3 as (E1 & E2 & E3 & E4 & _);
    rewrite E1, E2, E3, E4, <- ?app_assoc;
    (repeat split; try done); by apply list_lookup_insert_eq.
Qed.


Lemma or_else_cases (a b : string) :
  (a = "" -> or_else a b = b) /\ (a <> "" -> or_else a b = a).
Proof. unfold or_else. destruct a; simpl; split; congruence. Qed.

Lemma displayed_app id tr1 tr2 :
  displayed id (tr1 ++ tr2) =
  match displayed id tr2 with Some t => Some t | None => displayed id tr1 end.
Proof.
  unfold displayed. rewrite foldl_app. generalize (foldl
    (fun shown e => match e with
                    | PartialUpdateMessage id' t =>
                        if String.eqb id' id then Some t else shown
                    | _ => shown end) None tr1) as acc.
  induction tr2 as [|e tr2 IH] using rev_ind; intros acc; simpl.
  - by destruct acc.
  - rewrite !foldl_app. simpl. destruct e; try apply IH.
    destruct (String.eqb message_id id); [done|apply IH].
Qed.

(** C7.  The fragment stream throws while the handler is not done:
    the handler sends the indicator-error event, overwrites the target
    message with the description of the error ([toString]), or with
    "Error generating the message" when that description is empty, then
    disposes (listener unregistered, owner notified), and [run] returns
    the accumulated text.  In the agent the task that awaited [run]
    continues on its normal path: the error handling of [processMessage] is
    not entered, and the task ends or starts the next queued message. *)
Theorem stream_error_contained :
  (forall h error,
     run_pc h = AwaitChunk -> is_done h = false ->
     exists h1,
       steps h [Throw error; Ack; Ack] =
         (h1, [SendIndicator AI_STATE_ERROR (m_cid (message h))
                 (m_id (message h));
               PartialUpdateMessage (m_id (message h))
                 (or_else (toString error) "Error generating the message");
               OffStop; OnDispose])
       /\ run_pc h1 = Returned (message_text h) /\ is_done h1 = true
       /\ subscribed h1 = false)
  /\ (forall error,
        (toString error = "" ->
         or_else (toString error) "Error generating the message"
           = "Error generating the message")
        /\ (toString error <> "" ->
            or_else (toString error) "Error generating the message"
              = toString error))
  /\ (forall s t cm ref h error now1 now2 now3,
        tasks s !! t = Some (AwaitRun cm ref) -> heap s !! ref = Some h ->
        run_pc h = AwaitChunk -> is_done h = false ->
        let s3 := exec [(now1, Resume t (StreamError error));
                        (now2, Resume t Done); (now3, Resume t Done)] s in
        (exists pc, tasks s3 !! t = Some pc
                    /\ (pc = Finished \/ exists ctx, pc = AwaitSendMessage ctx))
        /\ exists next,
             trace s3 =
               trace s
               ++ [SendIndicator AI_STATE_ERROR (m_cid (message h))
                     (m_id (message h));
                   PartialUpdateMessage (m_id (message h))
                     (or_else (toString error) "Error generating the message");
                   OffStop; OnDispose]
               ++ next
             /\ (next = [] \/ next = [SendMessage "" true])).
Proof.
  split; [|split].
  - intros h error. apply path_error.
  - intros error. apply or_else_cases.
  - intros s t cm ref h error now1 now2 now3 Ht Hh Hpc Hd s3.
    pose proof (stream_error_exec s t cm ref h error now1 now2 now3
                  Ht Hh Hpc Hd) as H.
    cbv zeta in H. fold s3 in H.
    destruct (messageQueue s) as [|e rest]; [|destruct (genai s)];
      destruct H as (E1 & E2 & E3 & E4).
    + split; [eauto|]. exists []. rewrite app_nil_r. auto.
    + split; [eauto 6|]. exists [SendMessage "" true]. auto.
    + split; [eauto|]. exists []. rewrite app_nil_r. auto.
Qed.

Lemma stream_error_contained_witness :
  exists pc,
    tasks (exec [(6000, Resume 0 (StreamError
                    {| err_name := "Error"; err_message := "boom" |}));
                 (6001, Resume 0 Done); (6002, Resume 0 Done)]
             example_midstream) !! 0%nat = Some pc
    /\ (pc = Finished \/ exists ctx, pc = AwaitSendMessage ctx).
Proof.
  destruct stream_error_contained as (_ & _ & H).
  refine (proj1 (H example_midstream 0%nat example_message 0%nat
                   (at_run AwaitChunk
                      (with_last_update 5000
                         (with_text "Hel" (new example_message))))
                   {| err_name := "Error"; err_message := "boom" |}
                   6000 6001 6002 _ _ _ _)); reflexivity.
Defined.

(** C10.  The stream throws after some text has been accumulated:
    [run] returns that partial text and the agent appends it to the
    conversation history as a model turn, while the last write to the chat
    message is the description of the error. *)
Theorem partial_text_recorded_after_stream_error
    s t cm ref h error now1 now2 now3 :
  tasks s !! t = Some (AwaitRun cm ref) -> heap s !! ref = Some h ->
  run_pc h = AwaitChunk -> is_done h = false ->
  truthy (message_text h) = true ->
  let s3 := exec [(now1, Resume t (StreamError error));
                  (now2, Resume t Done); (now3, Resume t Done)] s in
  (exists later,
     chatHistory s3 =
       chatHistory s ++ [{| role := model; text := message_text h |}] ++ later)
  /\ displayed (m_id (message h)) (trace s3) =
       Some (or_else (toString error) "Error generating the message").
Proof.
  intros Ht Hh Hpc Hd Htxt s3.
  pose proof (stream_error_exec s t cm ref h error now1 now2 now3
                Ht Hh Hpc Hd) as H.
  cbv zeta in H. fold s3 in H. rewrite Htxt in H.
  assert (Hshown : forall tr next,
            (next = [] \/ next = [SendMessage "" true]) ->
            displayed (m_id (message h))
              (tr ++ [SendIndicator AI_STATE_ERROR (m_cid (message h))
                        (m_id (message h));
                      PartialUpdateMessage (m_id (message h))
                        (or_else (toString error)
                           "Error generating the message");
                      OffStop; OnDispose] ++ next) =
            Some (or_else (toString error) "Error generating the message")).
  { intros tr next Hn. rewrite displayed_app.
    destruct Hn as [->| ->]; unfold displayed; simpl;
      by rewrite String.eqb_refl. }
  destruct (messageQueue s) as [|e rest]; [|destruct (genai s)];
    destruct H as (E1 & E2 & E3 & E4); rewrite E1, E2.
  - split; [exists []; by rewrite app_nil_r|].
    rewrite <- (app_nil_r [_; _; _; _]). apply Hshown. auto.
  - split; [eexists; by rewrite <- app_assoc|]. apply Hshown. auto.
  - split; [exists []; by rewrite app_nil_r|].
    rewrite <- (app_nil_r [_; _; _; _]). apply Hshown. auto.
Qed.

Lemma partial_text_recorded_after_stream_error_witness :
  let s3 := exec [(6000, Resume 0 (StreamError
                     {| err_name := "Error"; err_message := "boom" |}));
                  (6001, Resume 0 Done); (6002, Resume 0 Done)]
              example_midstream in
  (exists later,
     chatHistory s3 =
       [{| role := user; text := "hi" |}]
       ++ [{| role := model; text := "Hel" |}] ++ later)
  /\ displayed "m1" (trace s3) = Some "Error: boom".
Proof.
  exact (partial_text_recorded_after_stream_error example_midstream 0%nat
           example_message 0%nat
           (at_run AwaitChunk
              (with_last_update 5000 (with_text "Hel" (new example_message))))
           {| err_name := "Error"; err_message := "boom" |}
           6000 6001 6002 eq_refl eq_refl eq_refl eq_refl eq_refl).
Defined.

(** *** Lists of turns, requests and tasks *)

Lemma user_texts_app h1 h2 : user_texts (h1 ++ h2) = user_texts h1 ++ user_texts h2.
Proof. unfold user_texts. by rewrite List.filter_app, map_app. Qed.

Lemma model_turns_app h1 h2 :
  model_turns (h1 ++ h2) = model_turns h1 ++ model_turns h2.
Proof. unfold model_turns. by rewrite List.filter_app. Qed.

Lemma requested_app tr1 tr2 : requested (tr1 ++ tr2) = requested tr1 ++ requested tr2.
Proof. unfold requested. by rewrite flat_map_app. Qed.

Lemma last_text_snoc hist t : last_text (hist ++ [t]) = text t.
Proof. unfold last_text. by rewrite last_snoc. Qed.

Lemma grouped_app ks1 ks2 xs1 xs2 :
  length ks1 = length xs1 ->
  grouped (ks1 ++ ks2) (xs1 ++ xs2) = grouped ks1 xs1 ++ grouped ks2 xs2.
Proof.
  intros Hl. unfold grouped. rewrite zip_with_app by done.
  by rewrite concat_app.
Qed.

Lemma grouped_more ks xs ys :
  length ks = length xs -> grouped ks (xs ++ ys) = grouped ks xs.
Proof.
  intros Hl. rewrite <- (app_nil_r ks) at 1. rewrite grouped_app by done.
  unfold grouped at 2. simpl. by rewrite app_nil_r.
Qed.

Lemma grouped_last ks k xs x :
  length ks = length xs ->
  grouped (ks ++ [k]) (xs ++ [x]) = grouped ks xs ++ replicate k x.
Proof.
  intros Hl. rewrite grouped_app by done. unfold grouped at 2. simpl.
  by rewrite app_nil_r.
Qed.

Lemma replicate_succ {A} (k : nat) (x : A) :
  replicate (S k) x = replicate k x ++ [x].
Proof. induction k as [|k IH]; [done|]. simpl in *. by rewrite <- IH. Qed.

Lemma current_of_idle ts :
  (forall i pc, ts !! i = Some pc -> active pc = false) ->
  current_of ts = Finished.
Proof.
  intros H. unfold current_of. induction ts as [|pc ts IH]; [done|]. simpl.
  rewrite (H 0%nat pc eq_refl). apply IH. intros i pc' Hi.
  by apply (H (S i)).
Qed.

Lemma current_of_active ts t pc :
  (forall i j pci pcj, ts !! i = Some pci -> ts !! j = Some pcj ->
     active pci = true -> active pcj = true -> i = j) ->
  ts !! t = Some pc -> active pc = true -> current_of ts = pc.
Proof.
  unfold current_of. revert t. induction ts as [|pc0 ts IH]; intros t Hu Ht Ha;
    [done|]. simpl. destruct (active pc0) eqn:A0.
  - assert (0%nat = t) as <- by (by eapply (Hu 0%nat t pc0 pc)).
    simpl in Ht. by simplify_eq.
  - destruct t as [|t]; simpl in Ht; [by simplify_eq; congruence|].
    apply (IH t); [|done|done].
    intros i j pci pcj Hi Hj Ai Aj.
    specialize (Hu (S i) (S j) pci pcj Hi Hj Ai Aj). lia.
Qed.

Lemma current_of_finished pc :
  (if active pc then pc else Finished) = pc.
Proof. by destruct pc. Qed.

Lemma current_inactive s :
  active (current s) = false <->
  forall i pc, tasks s !! i = Some pc -> active pc = false.
Proof.
  unfold current, current_of. induction (tasks s) as [|pc ts IH]; simpl.
  - split; [|done]. by intros _ [|i] pc.
  - destruct (active pc) eqn:A; simpl.
    + rewrite A. split; [done|]. intros H.
      by rewrite (H 0%nat pc eq_refl) in A.
    + rewrite IH. split.
      * intros H [|i] pc' Hi; simpl in Hi; [by simplify_eq|eauto].
      * intros H i pc' Hi. by apply (H (S i)).
Qed.

Lemma quiescent_current s : quiescent s = true <-> current s = Finished.
Proof.
  unfold quiescent, current, current_of.
  induction (tasks s) as [|pc ts IH]; simpl; [done|].
  destruct (active pc) eqn:A; simpl; [|done].
  split; [done|]. intros ->. done.
Qed.


(** *** What a resumed task does to the bookkeeping *)

Ltac handler_requests :=
  repeat match goal with
  | H : ResponseHandler.step ?g ?ev = (_, ?l) |- _ =>
      let X := fresh "Hreq" in
      pose proof (step_requested g ev) as X; rewrite H in X;
      cbn [snd] in X; clear H
  end.

Lemma processMessage_end_summary now s s1 pc1 :
  genai s = true -> processMessage_end now s = (s1, pc1) ->
  apiCallCount s1 = apiCallCount s
  /\ requested (trace s1) = requested (trace s)
  /\ ((messageQueue s = [] /\ pc1 = Finished
       /\ isProcessing s1 = false /\ messageQueue s1 = []
       /\ chatHistory s1 = chatHistory s)
      \/ (exists e rest,
            messageQueue s = e :: rest
            /\ pc1 = AwaitSendMessage (context_of e)
            /\ isProcessing s1 = true /\ messageQueue s1 = rest
            /\ chatHistory s1 =
                 chatHistory s ++ [{| role := user; text := text_of e |}])).
Proof.
  intros Hg E. unfold processMessage_end, drain, processMessage_begin in E.
  proj. destruct (messageQueue s) as [|e rest] eqn:Hq.
  - simplify_eq. proj. rewrite Hq. auto 10.
  - rewrite Hg in E. simplify_eq. proj.
    rewrite requested_app, app_nil_r. eauto 12.
Qed.

Lemma after_run_summary now fullText s s1 pc1 :
  genai s = true -> after_run now fullText s = (s1, pc1) ->
  apiCallCount s1 = apiCallCount s
  /\ requested (trace s1) = requested (trace s)
  /\ exists models,
       (models = [] \/ exists txt, models = [{| role := model; text := txt |}])
       /\ ((messageQueue s = [] /\ pc1 = Finished
            /\ isProcessing s1 = false /\ messageQueue s1 = []
            /\ chatHistory s1 = chatHistory s ++ models)
           \/ (exists e rest,
                 messageQueue s = e :: rest
                 /\ pc1 = AwaitSendMessage (context_of e)
                 /\ isProcessing s1 = true /\ messageQueue s1 = rest
                 /\ chatHistory s1 =
                      chatHistory s ++ models
                      ++ [{| role := user; text := text_of e |}])).
Proof.
  intros Hg E. unfold after_run in E.
  destruct (truthy fullText).
  - destruct (processMessage_end_summary now
                (set_chatHistory
                   (chatHistory s ++ [{| role := model; text := fullText |}])
                   s) s1 pc1 Hg E)
      as (H1 & H2 & [(Q & -> & P & Q1 & C)|(e & rest & Q & -> & P & Q1 & C)]);
      proj; (split; [done|]); (split; [done|]);
      exists [{| role := model; text := fullText |}]; (split; [eauto|]).
    + left. auto.
    + right. exists e, rest. rewrite C, <- app_assoc. auto.
  - destruct (processMessage_end_summary _ _ _ _ Hg E)
      as (H1 & H2 & [(Q & -> & P & Q1 & C)|(e & rest & Q & -> & P & Q1 & C)]);
      (split; [done|]); (split; [done|]); exists []; (split; [eauto|]).
    + left. rewrite app_nil_r. auto.
    + right. exists e, rest. auto.
Qed.

Lemma run_event_summary now cm ref hev s s1 pc1 :
  genai s = true -> run_event now cm ref hev s = (s1, pc1) ->
  (chatHistory s1 = chatHistory s /\ apiCallCount s1 = apiCallCount s
   /\ messageQueue s1 = messageQueue s /\ isProcessing s1 = isProcessing s
   /\ requested (trace s1) = requested (trace s)
   /\ pc1 = AwaitRun cm ref)
  \/ (apiCallCount s1 = apiCallCount s
      /\ requested (trace s1) = requested (trace s)
      /\ exists models,
           (models = [] \/ exists txt, models = [{| role := model; text := txt |}])
           /\ ((messageQueue s = [] /\ pc1 = Finished
                /\ isProcessing s1 = false /\ messageQueue s1 = []
                /\ chatHistory s1 = chatHistory s ++ models)
               \/ (exists e rest,
                     messageQueue s = e :: rest
                     /\ pc1 = AwaitSendMessage (context_of e)
                     /\ isProcessing s1 = true /\ messageQueue s1 = rest
                     /\ chatHistory s1 =
                          chatHistory s ++ models
                          ++ [{| role := user; text := text_of e |}]))).
Proof.
  intros Hg E. unfold run_event in E.
  destruct (heap s !! ref) as [h|]; [|simplify_eq; by auto 10].
  pose proof (step_requested h hev) as Hreq.
  destruct (ResponseHandler.step h hev) as [h1 es]. cbn [snd] in Hreq.
  set (s' := handler_effects ref es (set_heap (<[ref:=h1]> (heap s)) s)) in *.
  assert (chatHistory s' = chatHistory s /\ apiCallCount s' = apiCallCount s
          /\ messageQueue s' = messageQueue s
          /\ isProcessing s' = isProcessing s
          /\ requested (trace s') = requested (trace s) /\ genai s' = genai s)
    as (C & A & Q & P & R & G).
  { subst s'. unfold handler_effects. destruct (existsb _ es); proj;
      rewrite requested_app, Hreq, app_nil_r; done. }
  destruct (run_pc h1) eqn:Hpc; try (simplify_eq; left; by auto 10).
  right. rewrite <- G in Hg.
  destruct (after_run_summary _ _ _ _ _ Hg E) as (H1 & H2 & models & Hm & H3).
  rewrite H1, H2, <- C, <- Q. eauto 10.
Qed.

Lemma resume_summary now pc r s s1 pc1 :
  genai s = true -> active pc = true ->
  resume now pc r s = (s1, pc1) ->
  (* the task moves on without a call and without ending *)
  (chatHistory s1 = chatHistory s /\ apiCallCount s1 = apiCallCount s
   /\ messageQueue s1 = messageQueue s /\ isProcessing s1 = isProcessing s
   /\ requested (trace s1) = requested (trace s)
   /\ active pc1 = true /\ pre_call pc1 = pre_call pc
   /\ (before_run pc1 = true -> before_run pc = true)
   /\ (attempt_of pc1 = None \/ attempt_of pc1 = attempt_of pc))
  (* the first attempt of a call *)
  \/ (pre_call pc = 1 /\ attempt_of pc1 = Some 0 /\ pre_call pc1 = 0
      /\ before_run pc1 = true /\ active pc1 = true
      /\ chatHistory s1 = chatHistory s
      /\ apiCallCount s1 = apiCallCount s + 1
      /\ messageQueue s1 = messageQueue s /\ isProcessing s1 = isProcessing s
      /\ requested (trace s1)
         = requested (trace s) ++ [last_text (chatHistory s)])
  (* a further attempt *)
  \/ (exists attempt,
        attempt_of pc = Some attempt /\ pre_call pc = 0
        /\ attempt_of pc1 = Some (attempt + 1) /\ pre_call pc1 = 0
        /\ before_run pc1 = true /\ active pc1 = true
        /\ chatHistory s1 = chatHistory s
        /\ apiCallCount s1 = apiCallCount s
        /\ messageQueue s1 = messageQueue s
        /\ isProcessing s1 = isProcessing s
        /\ requested (trace s1)
           = requested (trace s) ++ [last_text (chatHistory s)])
  (* [processMessage] returns; the loop of [handleMessage] goes on *)
  \/ (pre_call pc = 0 /\ before_run pc = false
      /\ apiCallCount s1 = apiCallCount s
      /\ requested (trace s1) = requested (trace s)
      /\ exists models,
           (models = [] \/ exists txt, models = [{| role := model; text := txt |}])
           /\ ((messageQueue s = [] /\ pc1 = Finished
                /\ isProcessing s1 = false /\ messageQueue s1 = []
                /\ chatHistory s1 = chatHistory s ++ models)
               \/ (exists e rest,
                     messageQueue s = e :: rest
                     /\ pc1 = AwaitSendMessage (context_of e)
                     /\ isProcessing s1 = true /\ messageQueue s1 = rest
                     /\ chatHistory s1 =
                          chatHistory s ++ models
                          ++ [{| role := user; text := text_of e |}]))).
Proof.
  intros Hg Ha E.
  destruct pc, r; cbn [resume] in E; try done;
    try (left; simplify_eq; by auto 10).
  - (* sendMessage resolved *)
    left. simplify_eq. proj. rewrite requested_app, app_nil_r. auto 10.
  - (* "thinking" sent *)
    left. unfold send_generating in E.
    qcases; rewrite requested_app, app_nil_r; auto 10.
  - (* the spacing timer fired *)
    left. unfold send_generating in E. qcases.
    rewrite requested_app, app_nil_r. auto 10.
  - (* "generating" sent: first attempt *)
    right; left. unfold call_upstream in E. qcases. rewrite requested_app.
    auto 10.
  - (* the stream has started *)
    left.
    unfold run_event in E. proj.
    rewrite lookup_app_r in E by lia. rewrite Nat.sub_diag in E.
    cbn [lookup list_lookup] in E. rewrite step_new_Run in E.
    cbn [run_pc at_run] in E. simplify_eq. unfold handler_effects.
    cbn [existsb]. proj. rewrite app_nil_r. auto 10.
  - (* the call failed *)
    left. unfold processMessage_catch in E.
    qcases; rewrite requested_app, app_nil_r; auto 10.
  - (* the backoff timer fired *)
    right; right; left. exists attempt. unfold call_upstream in E. qcases.
    rewrite requested_app. auto 15.
  - (* the channel request awaited by [run] resolved *)
    destruct (run_event_summary _ _ _ _ _ _ _ Hg E)
      as [(C & A & Q & P & R & ->)|H]; [left; auto 10|right; right; right; auto].
  - (* a fragment *)
    destruct (run_event_summary _ _ _ _ _ _ _ Hg E)
      as [(C & A & Q & P & R & ->)|H]; [left; auto 10|right; right; right; auto].
  - (* the end of the stream *)
    destruct (run_event_summary _ _ _ _ _ _ _ Hg E)
      as [(C & A & Q & P & R & ->)|H]; [left; auto 10|right; right; right; auto].
  - (* the stream threw *)
    destruct (run_event_summary _ _ _ _ _ _ _ Hg E)
      as [(C & A & Q & P & R & ->)|H]; [left; auto 10|right; right; right; auto].
  - (* error indicator sent *)
    left. simplify_eq. proj. rewrite requested_app, app_nil_r. auto 10.
  - (* error text written: finally *)
    right; right; right.
    destruct (processMessage_end_summary _ _ _ _ Hg E) as (H1 & H2 & H3).
    do 4 (split; [done|]). exists []. split; [by left|].
    destruct H3 as [(Q & -> & P & Q1 & C)|(e & rest & Q & -> & P & Q1 & C)].
    + left. rewrite app_nil_r. auto.
    + right. exists e, rest. auto.
Qed.


(** *** The invariant of the schedules without disposal *)

Lemma inactive_finished pc : active pc = false -> pc = Finished.
Proof. by destruct pc. Qed.

Lemma models_texts models :
  (models = [] \/ exists txt, models = [{| role := model; text := txt |}]) ->
  user_texts models = [] /\ (length (model_turns models) <= 1)%nat.
Proof. intros [->|[txt ->]]; simpl; split; (done || lia). Qed.

Lemma progress_tasks ts s pc : Progress s pc -> Progress (set_tasks ts s) pc.
Proof. intros [P1 P2 P3 P4 P5]. by split; proj. Qed.

Ltac norm_texts :=
  rewrite ?user_texts_app, ?model_turns_app, ?length_app in *;
  cbn [user_texts model_turns List.filter is_user is_model role map text
       length app] in *.

Lemma progress_resume s pc s1 pc1 now r :
  genai s = true -> active pc = true ->
  attempt_ok pc -> attempt_ok pc1 ->
  resume now pc r s = (s1, pc1) ->
  isProcessing s = true ->
  Progress s pc ->
  Progress s1 pc1 /\ isProcessing s1 = active pc1
  /\ user_texts (chatHistory s1) ++ map text_of (messageQueue s1)
     = user_texts (chatHistory s) ++ map text_of (messageQueue s).
Proof.
  intros Hg Ha Hok Hok1 E Hp [P1 P2 P3 (ks & K1 & K2 & K3 & K4) P5].
  destruct (resume_summary _ _ _ _ _ _ Hg Ha E)
    as [(C & A & Q & P & R & A1 & Pre & Bf & At)
       |[(Pre & At1 & Pre1 & Bf1 & A1 & C & A & Q & P & R)
        |[(a & At & Pre & At1 & Pre1 & Bf1 & A1 & C & A & Q & P & R)
         |(Pre & Bf & A & R & models & Hm & Hend)]]].
  - (* no call, no end *)
    rewrite C, Q, P, A1. split; [|done].
    split; rewrite ?C, ?A, ?R, ?Pre, ?A1 in *; rewrite ?Ha in *; try done.
    + exists ks. repeat split; try done. intros a Ea.
      destruct At as [At|At]; [congruence|]. apply K4. congruence.
    + auto.
  - (* first attempt *)
    rewrite C, Q, P, A1. split; [|done].
    assert (Hb : before_run pc = true) by (destruct pc; done).
    destruct (P5 Hb) as (h0 & txt & Eh).
    split; rewrite ?C, ?A, ?R, ?Pre1, ?A1 in *; rewrite ?Ha in *; try done.
    + lia.
    + exists (ks ++ [1%nat]). rewrite Eh in *. norm_texts.
      rewrite last_text_snoc. cbn [text].
      assert (length ks = length (user_texts h0)) by lia.
      repeat split.
      * rewrite ?length_app. simpl. lia.
      * apply Forall_app. split; [done|]. apply Forall_singleton. lia.
      * rewrite K3, grouped_more, grouped_last by done. done.
      * intros a' Ea. rewrite last_snoc. rewrite At1 in Ea. by simplify_eq.
    + eauto.
  - (* a further attempt *)
    rewrite C, Q, P, A1. split; [|done].
    assert (Hb : before_run pc = true) by (destruct pc; done).
    destruct (P5 Hb) as (h0 & txt & Eh).
    pose proof (K4 _ At) as Hlast.
    destruct ks as [|k0 ks0] using rev_ind; [done|]. clear IHks0.
    rewrite last_snoc in Hlast. injection Hlast as ->.
    assert (0 <= a /\ a + 1 <= 3) as [Ha0 Ha1].
    { destruct pc, pc1; simpl in *; simplify_eq; unfold maxRetries in *; lia. }
    split; rewrite ?C, ?A, ?R, ?Pre1, ?A1 in *; rewrite ?Ha in *; try done.
    + lia.
    + exists (ks0 ++ [S (Z.to_nat a + 1)]). rewrite Eh in *. norm_texts.
      rewrite last_text_snoc. cbn [text].
      assert (length ks0 = length (user_texts h0)) by lia.
      apply Forall_app in K2 as [K2 K2'].
      repeat split.
      * rewrite ?length_app. simpl. lia.
      * apply Forall_app. split; [done|]. apply Forall_singleton. lia.
      * rewrite K3, !grouped_last, replicate_succ by done.
        by rewrite <- app_assoc.
      * intros a' Ea. rewrite last_snoc. rewrite At1 in Ea. simplify_eq.
        f_equal. lia.
    + eauto.
  - (* processMessage returns *)
    destruct (models_texts models Hm) as [Um Mm].
    rewrite Ha in P2.
    destruct Hend as [(Q & -> & P & Q1 & C)|(e & rest & Q & -> & P & Q1 & C)].
    + assert (Eu : user_texts (chatHistory s1) = user_texts (chatHistory s))
        by (by rewrite C, user_texts_app, Um, app_nil_r).
      assert (Em : (length (model_turns (chatHistory s1))
                    <= length (model_turns (chatHistory s)) + 1)%nat)
        by (rewrite C, model_turns_app, length_app; lia).
      rewrite Eu, Q1, P, Q. split; [|done].
      split; rewrite ?Eu, ?A, ?R; simpl; try done; try lia.
      exists ks. repeat split; done.
    + assert (Eu : user_texts (chatHistory s1)
                   = user_texts (chatHistory s) ++ [text_of e]).
      { rewrite C, !user_texts_app, Um. done. }
      assert (Em : (length (model_turns (chatHistory s1))
                    <= length (model_turns (chatHistory s)) + 1)%nat).
      { rewrite C, !model_turns_app, !length_app. simpl. lia. }
      rewrite Eu, Q1, P, Q. simpl. split; [|by rewrite <- app_assoc].
      split; rewrite ?Eu, ?A, ?R, ?length_app; simpl; try done; try lia.
      * exists ks. repeat split; try done.
        rewrite K3, grouped_more; [done|lia].
      * intros _. exists (chatHistory s ++ models), (text_of e).
        by rewrite C, app_assoc.
Qed.


Lemma accepted_text_of g self e t : accepted g self e = Some t -> text_of e = t.
Proof.
  unfold accepted, text_of. intros H. repeat case_match; simplify_eq. done.
Qed.

Lemma dispatch_stop_requested message_id hs :
  requested (snd (dispatch_stop message_id hs)) = [].
Proof.
  induction hs as [|h hs IH]; [done|]. cbn [dispatch_stop].
  pose proof (step_requested h (Stop message_id)) as Hr.
  destruct (ResponseHandler.step h (Stop message_id)) as [h1 e1].
  destruct (dispatch_stop message_id hs) as [hs1 e2]. cbn [snd] in *.
  by rewrite requested_app, Hr, IH.
Qed.

Lemma serving_initial self : Serving self [] (initial self).
Proof.
  split.
  - apply inv_initial.
  - done.
  - apply Forall_nil_2.
  - done.
  - done.
  - split; try done. exists []. repeat split; try done.
Qed.

(** The fields the bookkeeping reads are the same. *)
Lemma serving_same self acc s s1 :
  Serving self acc s -> Inv s1 ->
  tasks s1 = tasks s -> chatHistory s1 = chatHistory s ->
  apiCallCount s1 = apiCallCount s -> messageQueue s1 = messageQueue s ->
  isProcessing s1 = isProcessing s ->
  requested (trace s1) = requested (trace s) ->
  genai s1 = genai s -> self_id s1 = self_id s ->
  listening s1 = listening s -> disposing s1 = disposing s ->
  Serving self acc s1.
Proof.
  intros [V1 V2 V3 V4 V5 [P1 P2 P3 P4 P5]] HI Et Ec Ea Eq Ep Er Eg Es El Ed.
  split; unfold current in *; rewrite ?Et, ?Ec, ?Ea, ?Eq, ?Ep, ?Eg, ?Es,
    ?El, ?Ed; try done.
  split; rewrite ?Et, ?Ec, ?Ea, ?Eq, ?Ep, ?Er; done.
Qed.

Lemma serving_step self acc now ev s :
  no_dispose ev = true -> Serving self acc s ->
  Serving self (acc ++ inbound self [(now, ev)]) (step now ev s).
Proof.
  intros Hnd HS.
  pose proof (inv_step now ev s (sv_inv _ _ _ HS)) as HI.
  pose proof (step_attempt_ok now ev s (sv_attempts _ _ _ HS)) as HA.
  pose proof HS as [V1 (Vg & Vs & Vl & Vd) V3 V4 V5 VP].
  destruct ev as [e|message_id|t r|ref| |]; try done.
  - (* an inbound message *)
    cbn [step] in *. rewrite Vl in *.
    change (inbound self [(now, MessageNew e)])
      with (match accepted true self e with Some t => [t] | None => [] end).
    unfold handleMessage in *. rewrite Vg, Vs in *.
    destruct (accepted true self e) as [txt|] eqn:Hacc;
      [|by rewrite app_nil_r].
    pose proof (accepted_text_of _ _ _ _ Hacc) as Ht.
    destruct (isProcessing s) eqn:Hp.
    + (* queued *)
      destruct VP as [P1 P2 P3 P4 P5].
      split; proj; unfold current in *; proj; rewrite ?Hp; try done.
      * rewrite map_app, app_assoc, V5. simpl. by rewrite Ht.
      * split; proj; try done. intros Hc. congruence.
    + (* processed at once *)
      symmetry in V4. pose proof (inactive_finished _ V4) as Hcur.
      pose proof (proj1 (current_inactive s) V4) as Hidle.
      rewrite Hcur in VP. destruct VP as [P1 P2 P3 (ks & K1 & K2 & K3 & K4) P5].
      specialize (P3 eq_refl). rewrite P3 in V5. simpl in V5.
      rewrite app_nil_r in V5.
      unfold processMessage_begin in *. proj.
      assert (Hc : current_of (tasks s ++ [AwaitSendMessage (context_of e)])
                   = AwaitSendMessage (context_of e)).
      { eapply (current_of_active _ (length (tasks s))).
        - apply (inv_one_task _ HI).
        - by rewrite lookup_app_r, Nat.sub_diag by lia.
        - done. }
      split; proj; unfold current; proj; rewrite ?Hc; try done.
      * rewrite user_texts_app, P3, V5. simpl. by rewrite app_nil_r, Ht.
      * simpl in P1, P2.
        split; proj; rewrite ?user_texts_app, ?model_turns_app, ?length_app;
          simpl; try done; try lia.
        -- exists ks. rewrite requested_app, app_nil_r. repeat split; try done.
           rewrite K3, grouped_more; [done|lia].
        -- eauto.
  - (* a stop signal *)
    cbn [step] in *.
    pose proof (dispatch_stop_requested message_id (heap s)) as Hr.
    destruct (dispatch_stop message_id (heap s)) as [hs es]. cbn [snd] in Hr.
    unfold inbound. simpl. rewrite app_nil_r.
    apply (serving_same self acc s); proj; try done.
    by rewrite requested_app, Hr, app_nil_r.
  - (* a task is resumed *)
    cbn [step] in *. unfold inbound. simpl. rewrite app_nil_r.
    destruct (tasks s !! t) as [pc|] eqn:Ht; [|done].
    destruct (resume now pc r s) as [s1 pc1] eqn:E.
    destruct (resume_frame _ _ _ _ _ _ E) as (Ft & Fl & Fd & Fg & Fs).
    destruct (active pc) eqn:Ha.
    + assert (Hcur : current s = pc)
        by (eapply current_of_active; eauto using inv_one_task).
      rewrite Hcur in *. rewrite Ha in V4.
      assert (Hok : attempt_ok pc).
      { pose proof (sv_attempts _ _ _ HS) as H. rewrite Forall_lookup in H.
        eauto. }
      assert (Hok1 : attempt_ok pc1) by (eapply resume_attempt_ok; eauto).
      destruct (progress_resume _ _ _ _ _ _ Vg Ha Hok Hok1 E V4 VP)
        as (HP & Hflag & Harr).
      assert (Hc1 : current_of (<[t:=pc1]> (tasks s1)) = pc1).
      { pose proof (lookup_lt_Some _ _ _ Ht) as Hlt. rewrite Ft.
        destruct (active pc1) eqn:A1.
        - eapply (current_of_active _ t); [|by apply list_lookup_insert_eq|done].
          pose proof (inv_one_task _ HI) as Hu. proj. by rewrite Ft in Hu.
        - rewrite (inactive_finished _ A1). apply current_of_idle.
          intros i pci Hi. destruct (decide (i = t)) as [->|Hne].
          + rewrite list_lookup_insert_eq in Hi by done. by simplify_eq.
          + rewrite list_lookup_insert_ne in Hi by done.
            destruct (active pci) eqn:Ai; [|done]. destruct Hne.
            by eapply (inv_one_task _ V1). }
      split; proj; unfold current; proj; rewrite ?Hc1, ?Fg, ?Fs, ?Fl, ?Fd;
        try done.
      * by rewrite Harr.
      * by apply progress_tasks.
    + rewrite (inactive_finished _ Ha) in *. rewrite resume_finished in E.
      injection E as <- <-. apply (serving_same self acc s); proj; try done.
      by rewrite list_insert_id.
  - (* the request of a stop listener resolved *)
    cbn [step] in *. unfold inbound. simpl. rewrite app_nil_r.
    destruct (heap s !! ref) as [h|] eqn:Hh; [|done].
    pose proof (step_requested h StopAck) as Hr.
    destruct (ResponseHandler.step h StopAck) as [h1 es]. cbn [snd] in Hr.
    apply (serving_same self acc s); try done;
      unfold handler_effects; destruct (existsb _ es); proj; try done;
      by rewrite requested_app, Hr, app_nil_r.
Qed.

Lemma inbound_cons self tev evs :
  inbound self (tev :: evs) = inbound self [tev] ++ inbound self evs.
Proof. unfold inbound. simpl. by destruct (match tev.2 with MessageNew e => _ | _ => _ end). Qed.

Lemma serving_exec self evs : forall acc s,
  forallb no_dispose (map snd evs) = true -> Serving self acc s ->
  Serving self (acc ++ inbound self evs) (exec evs s).
Proof.
  induction evs as [|[now ev] evs IH]; intros acc s Hnd HS.
  - unfold inbound. simpl. by rewrite app_nil_r.
  - simpl in Hnd. apply andb_true_iff in Hnd as [H1 H2].
    cbn [exec]. rewrite inbound_cons, app_assoc.
    apply IH; [done|]. by apply serving_step.
Qed.


(** *** Model turns are never empty *)

Lemma resume_history now pc r s s1 pc1 :
  resume now pc r s = (s1, pc1) ->
  exists added,
    chatHistory s1 = chatHistory s ++ added
    /\ Forall (fun t => is_model t = true -> truthy (text t) = true) added.
Proof.
  intros E. destruct pc, r; cbn [resume] in E;
    try (simplify_eq; exists []; by rewrite app_nil_r).
  all: qunfold; qcases;
    try (exists []; by rewrite app_nil_r);
    try (eexists [_]; split; [reflexivity|]; by apply Forall_singleton);
    try (eexists [_; _]; rewrite <- app_assoc; split; [reflexivity|];
         repeat (apply Forall_cons; split; [done|]); by apply Forall_nil).
Qed.

Lemma step_history now ev s :
  Forall (fun t => is_model t = true -> truthy (text t) = true)
    (chatHistory s) ->
  Forall (fun t => is_model t = true -> truthy (text t) = true)
    (chatHistory (step now ev s)).
Proof.
  intros H. destruct ev; cbn [step].
  - destruct (listening s); [|done]. unfold handleMessage.
    destruct (accepted _ _ e); [|done]. destruct (isProcessing s); [done|].
    unfold processMessage_begin. proj. apply Forall_app. split; [done|].
    by apply Forall_singleton.
  - destruct (dispatch_stop _ _). by proj.
  - destruct (tasks s !! task) as [pc|] eqn:Ht; [|done].
    destruct (resume now pc r s) as [s1 pc1] eqn:E. proj.
    destruct (resume_history _ _ _ _ _ _ E) as (added & -> & Hadd).
    by apply Forall_app.
  - destruct (heap s !! handler); [|done].
    destruct (ResponseHandler.step _ _). unfold handler_effects.
    destruct (existsb _ _); by proj.
  - by proj.
  - destruct (disposing s); [|done]. proj.
    by destruct (dispose_all_spec (handlers s) s) as (_ & _ & _ & _ & _ & _ & ->).
Qed.

Lemma exec_history evs : forall s,
  Forall (fun t => is_model t = true -> truthy (text t) = true)
    (chatHistory s) ->
  Forall (fun t => is_model t = true -> truthy (text t) = true)
    (chatHistory (exec evs s)).
Proof.
  induction evs as [|[now ev] evs IH]; intros s H; [done|].
  cbn [exec]. by apply IH, step_history.
Qed.

(** C2.  A schedule without disposal in which [arrived] are the texts
    of the inbound messages that pass the guards, in the order of arrival,
    and at whose end no [handleMessage] invocation is in flight.  The agent
    has counted one call per message ([apiCallCount]); the attempts made on
    the completion service are, message after message in the order of
    arrival, between one and four attempts whose contents end with the user
    turn of that message; the user turns of the history are the messages in
    the order of arrival; there are at most as many model turns, none with
    an empty text. *)
Theorem fifo_calls (self : option string) (evs : list (Z * AEvent)) :
  forallb no_dispose (map snd evs) = true ->
  let s := exec evs (initial self) in
  quiescent s = true ->
  let arrived := inbound self evs in
  apiCallCount s = Z.of_nat (length arrived)
  /\ (exists ks,
        length ks = length arrived
        /\ Forall (fun k => (1 <= k <= 4)%nat) ks
        /\ requested (trace s) = grouped ks arrived)
  /\ user_texts (chatHistory s) = arrived
  /\ (length (model_turns (chatHistory s)) <= length arrived)%nat
  /\ Forall (fun t => truthy (text t) = true) (model_turns (chatHistory s))
  /\ messageQueue s = [] /\ isProcessing s = false.
Proof.
  intros Hnd s Hq arrived.
  pose proof (serving_exec self evs [] (initial self) Hnd
                (serving_initial self)) as HS.
  fold s in HS. change ([] ++ inbound self evs) with arrived in HS.
  destruct HS as [V1 V2 V3 V4 V5 VP].
  apply quiescent_current in Hq. rewrite Hq in *.
  destruct VP as [P1 P2 P3 (ks & K1 & K2 & K3 & K4) P5].
  specialize (P3 eq_refl). rewrite P3 in V5. simpl in *.
  rewrite app_nil_r in V5. rewrite V5 in *.
  repeat split; try done; try lia.
  - exists ks. repeat split; try done. lia.
  - pose proof (exec_history evs (initial self) (Forall_nil_2 _)) as H.
    fold s in H. unfold model_turns.
    rewrite Forall_forall in *. intros t Ht.
    apply list_elem_of_In, List.filter_In in Ht as [Ht Hm].
    apply H; [by apply list_elem_of_In|done].
Qed.


Lemma fifo_calls_witness :
  let s := exec example_schedule (initial (Some "bot")) in
  apiCallCount s = 2
  /\ user_texts (chatHistory s) = ["hi"; "second"]
  /\ (length (model_turns (chatHistory s)) <= 2)%nat.
Proof.
  destruct (fifo_calls (Some "bot") example_schedule eq_refl eq_refl)
    as (H1 & _ & H3 & H4 & _).
  exact (conj H1 (conj H3 H4)).
Defined.

Lemma retry_policy_witness :
  resume 15 (AwaitUpstream example_message None 0)
    (Failed {| err_name := "Error"; err_message := "429 Too Many Requests" |})
    (initial None)
  = (emit [SetTimeout 2000] (initial None),
     AwaitBackoff example_message None 0).
Proof.
  destruct retry_policy as (_ & H & _).
  refine (proj1 (H 15 example_message None 0
                   {| err_name := "Error";
                      err_message := "429 Too Many Requests" |}
                   (initial None) _ _)); [reflexivity | lia].
Defined.


(** *** Disposal of the agent *)

Lemma dispose_all_lookup refs : forall s ref h',
  heap (dispose_all refs s) !! ref = Some h' ->
  exists h, heap s !! ref = Some h
            /\ (ref ∈ refs -> h' = fst (ResponseHandler.dispose h))
            /\ (ref ∉ refs -> h' = h).
Proof.
  induction refs as [|r refs IH]; intros s ref h' Hh; cbn [dispose_all] in Hh.
  { exists h'. split; [done|]. split; [by intros ?%elem_of_nil|done]. }
  destruct (heap s !! r) as [hr|] eqn:Hr.
  - destruct (ResponseHandler.dispose hr) as [h1 es] eqn:Ed.
    assert (E1 : h1 = fst (ResponseHandler.dispose hr)) by (by rewrite Ed).
    destruct (IH _ _ _ Hh) as (h0 & Hh0 & Hin & Hout).
    assert (Eheap : heap (handler_effects r es
                            (set_heap (<[r:=h1]> (heap s)) s))
                    = <[r:=h1]> (heap s)).
    { unfold handler_effects. destruct (existsb _ es); by proj. }
    rewrite Eheap in Hh0.
    destruct (decide (ref = r)) as [->|Hne].
    + rewrite list_lookup_insert_eq in Hh0 by (by eapply lookup_lt_Some).
      simplify_eq. exists hr. split; [done|]. split.
      * intros _. destruct (decide (r ∈ refs)) as [Hi|Hi].
        -- by rewrite (Hin Hi), dispose_idem.
        -- by rewrite (Hout Hi).
      * intros Hn. destruct Hn. by left.
    + rewrite list_lookup_insert_ne in Hh0 by done.
      exists h0. split; [done|]. split.
      * intros Hi. apply Hin. apply elem_of_cons in Hi as [?|?]; done.
      * intros Hn. apply Hout. intros Hi. apply Hn. by right.
  - destruct (IH _ _ _ Hh) as (h0 & Hh0 & Hin & Hout).
    exists h0. split; [done|]. split.
    + intros Hi. apply Hin. apply elem_of_cons in Hi as [->|?]; [|done].
      congruence.
    + intros Hn. apply Hout. intros Hi. apply Hn. by right.
Qed.

Lemma dispose_all_trace refs : forall s,
  exists es, trace (dispose_all refs s) = trace s ++ es
             /\ channel_effects es = [].
Proof.
  induction refs as [|r refs IH]; intros s; cbn [dispose_all].
  { exists []. by rewrite app_nil_r. }
  destruct (heap s !! r) as [hr|]; [|apply IH].
  pose proof (dispose_effects hr) as He.
  destruct (ResponseHandler.dispose hr) as [h1 es]. cbn [snd] in He.
  destruct (IH (handler_effects r es (set_heap (<[r:=h1]> (heap s)) s)))
    as (es' & E & C).
  exists (es ++ es'). rewrite E. split.
  - unfold handler_effects. destruct (existsb _ es); proj;
      by rewrite app_assoc.
  - unfold channel_effects in *. by rewrite List.filter_app, He, C.
Qed.

Lemma dispose_then_disconnected (s : State) (now1 now2 : Z) :
  let s' := exec [(now1, DisposeCall); (now2, Disconnected)] s in
  listening s' = false /\ handlers s' = [] /\ messageQueue s' = []
  /\ isProcessing s' = false
  /\ chatHistory s' = chatHistory s /\ tasks s' = tasks s
  /\ length (heap s') = length (heap s).
Proof.
  cbn [exec step]. proj.
  set (s0 := emit [DisconnectUser] (set_disposing true (set_listening false s))).
  destruct (dispose_all_spec (handlers s) s0)
    as ([HL _] & H2 & H3 & H4 & H5 & H6 & H7).
  proj. repeat split; done.
Qed.

(** X6.  [dispose()] of the agent, from the call to the resolution of
    [disconnectUser()]: the agent stops listening, every handler held in
    [this.handlers] is disposed and the others are left as they are,
    [this.handlers] and the queue are emptied and [isProcessing] is reset;
    nothing is written to the channel and no indicator event is sent.  The
    history and the tasks in flight are left untouched. *)
Theorem agent_dispose (s : State) (now1 now2 : Z) :
  let s' := exec [(now1, DisposeCall); (now2, Disconnected)] s in
  listening s' = false /\ handlers s' = [] /\ messageQueue s' = []
  /\ isProcessing s' = false
  /\ chatHistory s' = chatHistory s /\ tasks s' = tasks s
  /\ length (heap s') = length (heap s)
  /\ (forall ref h',
        heap s' !! ref = Some h' ->
        exists h, heap s !! ref = Some h
                  /\ (ref ∈ handlers s -> h' = fst (ResponseHandler.dispose h))
                  /\ (ref ∉ handlers s -> h' = h))
  /\ exists es, trace s' = trace s ++ DisconnectUser :: es
                /\ channel_effects es = [].
Proof.
  cbn [exec step]. proj.
  set (s0 := emit [DisconnectUser] (set_disposing true (set_listening false s))).
  destruct (dispose_all_spec (handlers s) s0)
    as ([HL _] & H2 & H3 & H4 & H5 & H6 & H7).
  destruct (dispose_all_trace (handlers s) s0) as (es & Et & Ec).
  proj. repeat split; try done.
  - intros ref h' Hh. by apply (dispose_all_lookup (handlers s) s0).
  - exists es. rewrite Et. subst s0. proj. by rewrite <- app_assoc.
Qed.

Lemma step_not_listening now ev s :
  listening s = false ->
  listening (step now ev s) = false
  /\ length (tasks (step now ev s)) = length (tasks s).
Proof.
  intros Hl. destruct ev; cbn [step].
  - by rewrite Hl.
  - destruct (dispatch_stop _ _). by proj.
  - destruct (tasks s !! task) as [pc|] eqn:Ht; [|done].
    destruct (resume now pc r s) as [s1 pc1] eqn:E. proj.
    destruct (resume_frame _ _ _ _ _ _ E) as (-> & -> & _).
    by rewrite length_insert.
  - destruct (heap s !! handler); [|done].
    destruct (ResponseHandler.step _ _). unfold handler_effects.
    destruct (existsb _ _); by proj.
  - by proj.
  - destruct (disposing s); [|done]. proj.
    by destruct (dispose_all_spec (handlers s) s) as (_ & -> & -> & _).
Qed.

(** X7.  Once the agent has stopped listening ([dispose()] has been
    called), no inbound message is taken any more, whatever happens next:
    a "message.new" event changes nothing, the agent never listens again
    and no [handleMessage] invocation is added to those in flight. *)
Theorem disposed_agent_takes_no_message (s : State) (evs : list (Z * AEvent)) :
  listening s = false ->
  (forall now e, step now (MessageNew e) s = s)
  /\ listening (exec evs s) = false
  /\ length (tasks (exec evs s)) = length (tasks s).
Proof.
  intros Hl. split; [intros now e; cbn [step]; by rewrite Hl|].
  revert s Hl. induction evs as [|[now ev] evs IH]; intros s Hl; [done|].
  cbn [exec]. destruct (step_not_listening now ev s Hl) as [H1 H2].
  destruct (IH _ H1) as [H3 H4]. split; [done|congruence].
Qed.

Lemma disposed_agent_takes_no_message_witness :
  let s := step 20 DisposeCall example_midstream in
  step 21 (MessageNew (example_event "late")) s = s
  /\ listening (exec [(21, MessageNew (example_event "late"));
                      (22, Disconnected)] s) = false.
Proof.
  intros s.
  destruct (disposed_agent_takes_no_message s
              [(21, MessageNew (example_event "late")); (22, Disconnected)]
              eq_refl) as (H1 & H2 & _).
  exact (conj (H1 21 (example_event "late")) H2).
Defined.

(** X8.  [dispose()] does not cancel a [processMessage] in flight.  When
    the upstream call resolves after the disposal, the task still constructs
    its handler, registers the stop listener and pushes the handler into
    the emptied [this.handlers]: the disposed agent holds a handler that is
    not done. *)
Theorem dispose_does_not_cancel_call s t cm ctx attempt now1 now2 now3 :
  tasks s !! t = Some (AwaitUpstream cm ctx attempt) ->
  let s' := exec [(now1, DisposeCall); (now2, Disconnected);
                  (now3, Resume t Stream)] s in
  listening s' = false
  /\ handlers s' = [length (heap s)]
  /\ heap s' !! length (heap s) = Some (at_run AwaitChunk (new cm))
  /\ tasks s' !! t = Some (AwaitRun cm (length (heap s))).
Proof.
  intros Ht. pose proof (lookup_lt_Some _ _ _ Ht) as Hlt.
  destruct (dispose_then_disconnected s now1 now2)
    as (L & H & Q & P & C & T & HL).
  change (exec [(now1, DisposeCall); (now2, Disconnected);
                (now3, Resume t Stream)] s)
    with (step now3 (Resume t Stream)
            (exec [(now1, DisposeCall); (now2, Disconnected)] s)).
  set (s2 := exec [(now1, DisposeCall); (now2, Disconnected)] s) in *.
  cbn [step]. rewrite T, Ht. cbn [resume]. unfold run_event. proj.
  rewrite lookup_app_r by lia. rewrite Nat.sub_diag.
  cbn [lookup list_lookup]. rewrite step_new_Run. cbn [run_pc at_run].
  unfold handler_effects. cbn [existsb]. proj.
  rewrite insert_app_last, H, HL, L, T.
  repeat split; try done.
  - rewrite <- HL. by rewrite lookup_app_r, Nat.sub_diag by lia.
  - by apply list_lookup_insert_eq.
Qed.

Lemma dispose_does_not_cancel_call_witness :
  let s := exec (take 5 example_schedule) (initial (Some "bot")) in
  let s' := exec [(20, DisposeCall); (21, Disconnected);
                  (22, Resume 0 Stream)] s in
  listening s' = false /\ handlers s' = [0%nat]
  /\ heap s' !! 0%nat = Some (at_run AwaitChunk (new example_message)).
Proof.
  intros s s'.
  destruct (dispose_does_not_cancel_call s 0%nat example_message None 0
              20 21 22 eq_refl) as (H1 & H2 & H3 & _).
  exact (conj H1 (conj H2 H3)).
Defined.

(** X9.  The guards of [handleMessage]: a "message.new" event is
    dropped exactly when the agent is not initialised, or the author is the
    bot itself, or the event has no message, or the message is flagged
    [ai_generated], or its text is absent or empty.  A dropped event
    changes nothing in either version of the agent: no turn, no task, no
    queue entry, no request. *)
Theorem dropped_message_changes_nothing :
  (forall g self e,
     accepted g self e = None <->
     g = false \/ e_user e = self \/ e_message e = None
     \/ exists m, e_message e = Some m
                  /\ (msg_ai_generated m = true \/ msg_text m = None
                      \/ msg_text m = Some ""))
  /\ (forall now e s,
        accepted (genai s) (self_id s) e = None ->
        step now (MessageNew e) s = s)
  /\ (forall now e s,
        accepted (Direct.genai s) (Direct.self_id s) e = None ->
        Direct.step now (MessageNew e) s = s).
Proof.
  split; [|split].
  - intros g self e. unfold accepted.
    destruct g; simpl; [|split; [by left|done]].
    destruct (bool_decide_reflect (e_user e = self)) as [Hu|Hu];
      [split; [by right; left|done]|].
    destruct (e_message e) as [m|] eqn:Hm;
      [|split; [by right; right; left|done]].
    destruct (msg_ai_generated m) eqn:Hai;
      [split; [right; right; right; eauto|done]|].
    destruct (msg_text m) as [t|] eqn:Ht;
      [|split; [right; right; right; eauto|done]].
    destruct t as [|c t]; simpl;
      [split; [right; right; right; eauto|done]|].
    split; [done|].
    intros [?|[?|[?|(m' & Hm' & [?|[?|?]])]]]; simplify_eq; congruence.
  - intros now e s H. cbn [step]. unfold handleMessage. rewrite H.
    by destruct (listening s).
  - intros now e s H. cbn [Direct.step]. unfold Direct.handleMessage.
    rewrite H. by destruct (Direct.listening s).
Qed.





(** *** The retry loop, the failure path, the spacing of calls *)

Lemma retry_round s t cm ctx attempt retryError now now' :
  tasks s !! t = Some (AwaitUpstream cm ctx attempt) ->
  isRateLimit (errorMessage retryError) = true -> attempt < 3 ->
  let s2 := exec [(now, Resume t (Failed retryError));
                  (now', Resume t Timeout)] s in
  tasks s2 = <[t := AwaitUpstream cm ctx (attempt + 1)]> (tasks s)
  /\ trace s2 = trace s ++ [SetTimeout (delay attempt);
                            GenerateContentStream model_name (chatHistory s) ctx]
  /\ chatHistory s2 = chatHistory s /\ apiCallCount s2 = apiCallCount s
  /\ heap s2 = heap s /\ messageQueue s2 = messageQueue s.
Proof.
  intros Ht Hr Ha. pose proof (lookup_lt_Some _ _ _ Ht) as Hlt.
  cbn [exec step]. rewrite Ht. cbn [resume]. rewrite Hr.
  unfold maxRetries. destruct (Z.ltb_spec attempt 3); [|lia].
  cbn [andb]. proj. rewrite list_lookup_insert_eq by done.
  cbn [resume]. unfold call_upstream. proj.
  rewrite list_insert_insert_eq, <- app_assoc. done.
Qed.

(** X11.  The retry loop as a whole: while the upstream call keeps
    failing with a rate-limit error and attempts remain, each failure is
    followed by its pause and by a new attempt with the same contents; the
    history and the call counter do not move.  After [n] failures from
    attempt [a] (with [a + n <= 3]) the task is at attempt [a + n]. *)
Theorem retry_rounds (errs : list (Z * JsError * Z)) :
  forall s t cm ctx attempt,
    tasks s !! t = Some (AwaitUpstream cm ctx attempt) ->
    Forall (fun r => isRateLimit (errorMessage (snd (fst r))) = true) errs ->
    attempt + Z.of_nat (length errs) <= 3 ->
    let s' := exec (rate_limited_rounds t errs) s in
    tasks s' !! t
      = Some (AwaitUpstream cm ctx (attempt + Z.of_nat (length errs)))
    /\ trace s'
       = trace s ++ retry_trace (length errs) attempt (chatHistory s) ctx
    /\ chatHistory s' = chatHistory s /\ apiCallCount s' = apiCallCount s.
Proof.
  induction errs as [|[[now e] now'] errs IH];
    intros s t cm ctx attempt Ht Hr Ha.
  - simpl. rewrite Z.add_0_r, app_nil_r. done.
  - apply Forall_cons in Hr as [Hr1 Hr]. simpl in Hr1.
    cbn [length] in Ha. rewrite Nat2Z.inj_succ in Ha.
    destruct (retry_round s t cm ctx attempt e now now' Ht Hr1)
      as (T & R & C & A & _); [lia|].
    change (exec (rate_limited_rounds t ((now, e, now') :: errs)) s)
      with (exec (rate_limited_rounds t errs)
              (exec [(now, Resume t (Failed e)); (now', Resume t Timeout)] s)).
    set (s2 := exec [(now, Resume t (Failed e)); (now', Resume t Timeout)] s)
      in *.
    assert (Ht2 : tasks s2 !! t = Some (AwaitUpstream cm ctx (attempt + 1))).
    { rewrite T. apply list_lookup_insert_eq. by eapply lookup_lt_Some. }
    destruct (IH s2 t cm ctx (attempt + 1) Ht2 Hr) as (T' & R' & C' & A');
      [lia|].
    cbv zeta. rewrite T', R', C', A', R, C, A. cbn [length retry_trace].
    rewrite Nat2Z.inj_succ, <- app_assoc. repeat split; try done.
    do 2 f_equal. lia.
Qed.

Lemma retry_rounds_witness :
  let err := {| err_name := "Error"; err_message := "quota exceeded" |} in
  let s := exec (take 5 example_schedule) (initial (Some "bot")) in
  let s' := exec (rate_limited_rounds 0 [(15, err, 2015); (2016, err, 6016)])
              s in
  tasks s' !! 0%nat = Some (AwaitUpstream example_message None 2)
  /\ trace s' = trace s ++ [SetTimeout 2000;
                            GenerateContentStream model_name
                              [{| role := user; text := "hi" |}] None;
                            SetTimeout 4000;
                            GenerateContentStream model_name
                              [{| role := user; text := "hi" |}] None].
Proof.
  intros err s s'.
  destruct (retry_rounds [(15, err, 2015); (2016, err, 6016)] s 0%nat
              example_message None 0 eq_refl) as (H1 & H2 & _).
  - repeat constructor.
  - simpl. lia.
  - split; [exact H1 | exact H2].
Defined.

(** X12.  A call that fails for good (a failure that is not a rate limit,
    or the failure of attempt 3): the error indicator is sent and the target
    message is overwritten with the generic notice; no handler is
    constructed and no model turn is added; [isProcessing] is released and,
    when a message waits in the queue, its processing starts at once. *)
Theorem failed_call_releases_the_queue
    s t cm ctx attempt retryError now1 now2 now3 :
  tasks s !! t = Some (AwaitUpstream cm ctx attempt) ->
  isRateLimit (errorMessage retryError) = false \/ 3 <= attempt ->
  genai s = true ->
  let s' := exec [(now1, Resume t (Failed retryError));
                  (now2, Resume t Done); (now3, Resume t Done)] s in
  let notice :=
    [SendIndicator AI_STATE_ERROR (m_cid cm) (m_id cm);
     PartialUpdateMessage (m_id cm)
       "Sorry, I encountered an error. Please try again."] in
  heap s' = heap s /\ handlers s' = handlers s
  /\ apiCallCount s' = apiCallCount s
  /\ match messageQueue s with
     | [] =>
         trace s' = trace s ++ notice /\ chatHistory s' = chatHistory s
         /\ tasks s' !! t = Some Finished /\ isProcessing s' = false
     | e :: rest =>
         trace s' = trace s ++ notice ++ [SendMessage "" true]
         /\ chatHistory s'
            = chatHistory s ++ [{| role := user; text := text_of e |}]
         /\ tasks s' !! t = Some (AwaitSendMessage (context_of e))
         /\ isProcessing s' = true /\ messageQueue s' = rest
     end.
Proof.
  intros Ht Hf Hg. pose proof (lookup_lt_Some _ _ _ Ht) as Hlt.
  cbn [exec step]. rewrite Ht. cbn [resume].
  assert (isRateLimit (errorMessage retryError) && (attempt <? maxRetries)
          = false) as ->.
  { unfold maxRetries. destruct Hf as [->|Hf]; [done|].
    destruct (Z.ltb_spec attempt 3); [lia|]. by rewrite andb_false_r. }
  unfold processMessage_catch. proj.
  rewrite list_lookup_insert_eq by done. cbn [resume]. proj.
  rewrite list_lookup_insert_eq by (by rewrite length_insert).
  cbn [resume]. unfold processMessage_end, drain, processMessage_begin. proj.
  destruct (messageQueue s) as [|e rest] eqn:Hq; proj; rewrite ?Hg; proj;
    rewrite <- ?app_assoc; repeat split; try done;
    apply list_lookup_insert_eq; by rewrite !length_insert.
Qed.

Lemma failed_call_releases_the_queue_witness :
  let s := exec (take 5 example_schedule) (initial (Some "bot")) in
  let s' := exec [(15, Resume 0 (Failed {| err_name := "TypeError";
                                           err_message := "fetch failed" |}));
                  (16, Resume 0 Done); (17, Resume 0 Done)] s in
  heap s' = [] /\ handlers s' = []
  /\ chatHistory s' = [{| role := user; text := "hi" |};
                       {| role := user; text := "second" |}]
  /\ isProcessing s' = true.
Proof.
  intros s s'.
  destruct (failed_call_releases_the_queue s 0%nat example_message None 0
              {| err_name := "TypeError"; err_message := "fetch failed" |}
              15 16 17 eq_refl (or_introl eq_refl) eq_refl)
    as (H1 & H2 & _ & H4).
  destruct H4 as (_ & H5 & _ & H6 & _).
  exact (conj H1 (conj H2 (conj H5 H6))).
Defined.

(** X13.  The spacing of calls.  When the previous call started less
    than 4000 ms ago, the task pauses for the rest of the 4000 ms before it
    sends the "generating" indicator and calls upstream; if the timer does
    not fire early and the clock does not run backwards, the new call
    starts at least 4000 ms after the previous one.  The first call of an
    agent, or a call 4000 ms or more after the previous one, is made
    without a pause. *)
Theorem call_spacing s t cm ctx now1 now2 now3 :
  tasks s !! t = Some (AwaitThinking cm ctx) ->
  (0 < lastApiCallTs s -> now1 - lastApiCallTs s < 4000 ->
   let wait := 4000 - (now1 - lastApiCallTs s) in
   let s' := exec [(now1, Resume t Done); (now2, Resume t Timeout);
                   (now3, Resume t Done)] s in
   trace s'
     = trace s ++ [SetTimeout wait;
                   SendIndicator AI_STATE_GENERATING (m_cid cm) (m_id cm);
                   GenerateContentStream model_name (chatHistory s) ctx]
   /\ tasks s' !! t = Some (AwaitUpstream cm ctx 0)
   /\ lastApiCallTs s' = now3 /\ apiCallCount s' = apiCallCount s + 1
   /\ 0 < wait
   /\ (now1 + wait <= now2 -> now2 <= now3 ->
       4000 <= lastApiCallTs s' - lastApiCallTs s))
  /\ (lastApiCallTs s <= 0 \/ 4000 <= now1 - lastApiCallTs s ->
      let s' := exec [(now1, Resume t Done); (now3, Resume t Done)] s in
      trace s'
        = trace s ++ [SendIndicator AI_STATE_GENERATING (m_cid cm) (m_id cm);
                      GenerateContentStream model_name (chatHistory s) ctx]
      /\ tasks s' !! t = Some (AwaitUpstream cm ctx 0)
      /\ lastApiCallTs s' = now3 /\ apiCallCount s' = apiCallCount s + 1).
Proof.
  intros Ht. pose proof (lookup_lt_Some _ _ _ Ht) as Hlt. split.
  - intros Hpos Hlt4. cbn [exec step]. rewrite Ht. cbn [resume].
    destruct (Z.ltb_spec (now1 - lastApiCallTs s) 4000); [|lia].
    destruct (Z.gtb_spec (lastApiCallTs s) 0); [|lia]. cbn [andb]. proj.
    rewrite list_lookup_insert_eq by done. cbn [resume].
    unfold send_generating. proj.
    rewrite list_lookup_insert_eq by (by rewrite length_insert).
    cbn [resume]. unfold call_upstream. proj.
    rewrite <- !app_assoc. repeat split; try done; try lia.
    apply list_lookup_insert_eq. by rewrite !length_insert.
  - intros Hno. cbn [exec step]. rewrite Ht. cbn [resume].
    assert ((now1 - lastApiCallTs s <? 4000) && (lastApiCallTs s >? 0)
            = false) as ->.
    { destruct (Z.ltb_spec (now1 - lastApiCallTs s) 4000); [|done].
      destruct (Z.gtb_spec (lastApiCallTs s) 0); [lia|done]. }
    unfold send_generating. proj.
    rewrite list_lookup_insert_eq by done. cbn [resume].
    unfold call_upstream. proj. rewrite <- !app_assoc.
    repeat split; try done.
    apply list_lookup_insert_eq. by rewrite !length_insert.
Qed.

Lemma call_spacing_witness :
  let s := exec (take 16 example_schedule) (initial (Some "bot")) in
  let s' := exec [(2027, Resume 0 Done); (6000, Resume 0 Timeout);
                  (6001, Resume 0 Done)] s in
  lastApiCallTs s = 14 /\ lastApiCallTs s' = 6001
  /\ 4000 <= lastApiCallTs s' - lastApiCallTs s.
Proof.
  intros s s'.
  destruct (call_spacing s 0%nat example_message2 None 2027 6000 6001 eq_refl)
    as [H _].
  destruct H as (_ & _ & H3 & _ & _ & H6); [reflexivity | reflexivity |].
  split; [reflexivity|]. split; [exact H3|].
  apply H6; [vm_compute; discriminate | lia].
Defined.

(** *** The registry of handlers *)

(** What a resumed task does to the heap and to [this.handlers]. *)
Lemma resume_registry now pc r s s1 pc1 :
  resume now pc r s = (s1, pc1) ->
  (heap s1 = heap s /\ handlers s1 = handlers s)
  \/ (exists ref h hev,
        of_run hev = true /\ heap s !! ref = Some h
        /\ heap s1 = <[ref := fst (ResponseHandler.step h hev)]> (heap s)
        /\ handlers s1
           = if existsb is_OnDispose (snd (ResponseHandler.step h hev))
             then List.filter (fun handler => negb (Nat.eqb handler ref))
                    (handlers s)
             else handlers s)
  \/ (exists cm,
        heap s1 = heap s ++ [at_run AwaitChunk (new cm)]
        /\ handlers s1 = handlers s ++ [length (heap s)]).
Proof.
  intros E. destruct pc, r; cbn [resume] in E;
    try (simplify_eq; by left); try (qunfold; qcases; by left).
  all: try (left; qunfold; qcases; done).
  - right; right. unfold run_event in E. proj.
    rewrite lookup_app_r in E by lia. rewrite Nat.sub_diag in E.
    cbn [lookup list_lookup] in E. rewrite step_new_Run in E.
    cbn [run_pc at_run] in E. simplify_eq. unfold handler_effects. proj.
    cbn [existsb]. proj. rewrite insert_app_last. eauto 10.
  - unfold run_event in E.
    destruct (heap s !! handler) as [h|] eqn:Hh; [|simplify_eq; by left].
    right; left. exists handler, h, Ack.
    destruct (ResponseHandler.step h Ack) as [h1 es] eqn:Es. cbn [fst snd].
    destruct (run_pc h1) eqn:Hpc; qunfold; qcases; eauto 10.
  - unfold run_event in E.
    destruct (heap s !! handler) as [h|] eqn:Hh; [|simplify_eq; by left].
    right; left. exists handler, h, (Chunk chunk_text now).
    destruct (ResponseHandler.step h (Chunk chunk_text now)) as [h1 es] eqn:Es.
    cbn [fst snd].
    destruct (run_pc h1) eqn:Hpc; qunfold; qcases; eauto 10.
  - unfold run_event in E.
    destruct (heap s !! handler) as [h|] eqn:Hh; [|simplify_eq; by left].
    right; left. exists handler, h, End.
    destruct (ResponseHandler.step h End) as [h1 es] eqn:Es. cbn [fst snd].
    destruct (run_pc h1) eqn:Hpc; qunfold; qcases; eauto 10.
  - unfold run_event in E.
    destruct (heap s !! handler) as [h|] eqn:Hh; [|simplify_eq; by left].
    right; left. exists handler, h, (Throw error).
    destruct (ResponseHandler.step h (Throw error)) as [h1 es] eqn:Es.
    cbn [fst snd].
    destruct (run_pc h1) eqn:Hpc; qunfold; qcases; eauto 10.
Qed.

Lemma registry_same s s1 :
  heap s1 = heap s -> handlers s1 = handlers s -> Registry s -> Registry s1.
Proof. intros Eh El [H1 H2]. split; by rewrite ?Eh, ?El. Qed.

Lemma registry_resume now pc r s s1 pc1 :
  resume now pc r s = (s1, pc1) -> Registry s -> Registry s1.
Proof.
  intros E [HL HT].
  destruct (resume_registry _ _ _ _ _ _ E)
    as [[Eh El]|[(ref & h & hev & Hev & Hh & Eh & El)|(cm & Eh & El)]].
  - by apply (registry_same s).
  - destruct (run_step_tidy h hev Hev) as [Ht Hd].
    pose proof (is_done_step h hev) as Hmono.
    pose proof (done_stays_subscribed_step h hev) as Hstay.
    destruct (ResponseHandler.step h hev) as [h1 es]. cbn [fst snd] in *.
    pose proof (lookup_lt_Some _ _ _ Hh) as Hlt.
    split.
    + rewrite Eh, El. intros ref' Hin.
      assert (Hin' : ref' ∈ handlers s).
      { destruct (existsb is_OnDispose es); [|done].
        apply list_elem_of_In, List.filter_In in Hin as [Hin _].
        by apply list_elem_of_In. }
      destruct (HL _ Hin') as (h' & Hh' & Hd').
      destruct (decide (ref' = ref)) as [->|Hne].
      * rewrite list_lookup_insert_eq by done. simplify_eq.
        exists h1. split; [done|]. rewrite (Hd Hd').
        destruct (existsb is_OnDispose es); [|done].
        apply list_elem_of_In, List.filter_In in Hin as [_ Hin].
        by rewrite Nat.eqb_refl in Hin.
      * rewrite list_lookup_insert_ne by done. eauto.
    + rewrite Eh. apply Forall_insert; [done|]. apply Ht.
      by eapply Forall_lookup_1.
  - split.
    + rewrite Eh, El. intros ref' Hin.
      apply elem_of_app in Hin as [Hin|Hin].
      * destruct (HL _ Hin) as (h' & Hh' & Hd').
        exists h'. split; [|done]. by apply lookup_app_l_Some.
      * apply list_elem_of_singleton in Hin as ->.
        exists (at_run AwaitChunk (new cm)). split; [|done].
        by rewrite lookup_app_r, Nat.sub_diag by lia.
    + rewrite Eh. apply Forall_app. split; [done|].
      apply Forall_singleton, new_tidy.
Qed.

Lemma registry_step now ev s :
  no_stop ev = true -> Registry s -> Registry (step now ev s).
Proof.
  intros Hns HR. destruct ev; try done; cbn [step].
  - destruct (listening s); [|done]. unfold handleMessage.
    destruct (accepted _ _ _); [|done].
    destruct (isProcessing s); [by apply (registry_same s)|].
    unfold processMessage_begin. by apply (registry_same s).
  - destruct (tasks s !! task) as [pc|]; [|done].
    destruct (resume now pc r s) as [s1 pc1] eqn:E.
    apply (registry_same s1); [done..|]. by eapply registry_resume.
  - destruct (heap s !! handler) as [h|] eqn:Hh; [|done].
    destruct HR as [HL HT].
    pose proof (Forall_lookup_1 _ _ _ _ HT Hh) as [Hi _].
    rewrite (stop_ack_idle h Hi). unfold handler_effects. cbn [existsb].
    apply (registry_same s); proj; try done.
    by apply list_insert_id.
  - by apply (registry_same s).
  - destruct (disposing s); [|done]. destruct HR as [HL HT]. split; proj.
    + by intros ref ?%elem_of_nil.
    + apply Forall_lookup_2. intros ref h' Hh'.
      destruct (dispose_all_lookup _ _ _ _ Hh') as (h & Hh & Hin & Hout).
      pose proof (Forall_lookup_1 _ _ _ _ HT Hh) as Ht.
      destruct (decide (ref ∈ handlers s)) as [Hi|Hi].
      * rewrite (Hin Hi). by apply dispose_tidy.
      * by rewrite (Hout Hi).
Qed.

Lemma registry_exec evs : forall s,
  forallb no_stop (map snd evs) = true -> Registry s -> Registry (exec evs s).
Proof.
  induction evs as [|[now ev] evs IH]; intros s Hns HR; [done|].
  cbn [exec]. simpl in Hns. apply andb_true_iff in Hns as [H1 H2].
  apply IH; [done|]. by apply registry_step.
Qed.

(** X14.  [removeHandler] keeps [this.handlers] free of finished
    handlers.  On every schedule without a stop signal (disposal of the
    agent included), [this.handlers] holds only handlers that are not done,
    and every handler that is done has unregistered its stop listener.
    When no [handleMessage] invocation is in flight, [this.handlers] is
    empty and every handler constructed so far is done and unregistered. *)
Theorem no_handler_left_behind (self : option string)
    (evs : list (Z * AEvent)) :
  forallb no_stop (map snd evs) = true ->
  let s := exec evs (initial self) in
  (forall ref, ref ∈ handlers s ->
     exists h, heap s !! ref = Some h /\ is_done h = false)
  /\ Forall (fun h => is_done h = true -> subscribed h = false) (heap s)
  /\ (quiescent s = true ->
      handlers s = []
      /\ Forall (fun h => is_done h = true /\ subscribed h = false) (heap s)).
Proof.
  intros Hns s.
  assert (HR : Registry s).
  { apply registry_exec; [done|]. split; [by intros ref ?%elem_of_nil|done]. }
  pose proof (inv_exec evs _ (inv_initial self)) as HI. fold s in HI.
  destruct HR as [HL HT]. split; [done|]. split.
  { eapply Forall_impl; [done|]. by intros h [_ ?]. }
  intros Hq.
  assert (Hdone : forall ref h, heap s !! ref = Some h -> is_done h = true).
  { intros ref h Hh. destruct (is_done h) eqn:Hd; [done|].
    destruct (inv_awaited _ HI _ _ Hh Hd) as (t & cm & Ht).
    unfold quiescent in Hq. rewrite forallb_forall in Hq.
    specialize (Hq _ (proj1 (list_elem_of_In _ _)
                              (list_elem_of_lookup_2 _ _ _ Ht))).
    done. }
  split.
  - destruct (handlers s) as [|ref refs] eqn:El; [done|].
    destruct (HL ref) as (h & Hh & Hd); [by left|].
    by rewrite (Hdone _ _ Hh) in Hd.
  - apply Forall_lookup_2. intros ref h Hh.
    pose proof (Forall_lookup_1 _ _ _ _ HT Hh) as [_ Ht].
    pose proof (Hdone _ _ Hh). auto.
Qed.

Lemma no_handler_left_behind_witness :
  let s := exec [(10, MessageNew (example_event "hi"));
                 (12, Resume 0 (Sent example_message));
                 (13, Resume 0 Done); (14, Resume 0 Done);
                 (15, Resume 0 Stream);
                 (5000, Resume 0 (NextChunk (Some "Hel")));
                 (5001, Resume 0 Done); (5002, Resume 0 StreamEnd);
                 (5003, Resume 0 Done); (5004, Resume 0 Done)]
             (initial (Some "bot")) in
  handlers s = []
  /\ Forall (fun h => is_done h = true /\ subscribed h = false) (heap s).
Proof.
  intros s.
  destruct (no_handler_left_behind (Some "bot")
              [(10, MessageNew (example_event "hi"));
               (12, Resume 0 (Sent example_message));
               (13, Resume 0 Done); (14, Resume 0 Done);
               (15, Resume 0 Stream);
               (5000, Resume 0 (NextChunk (Some "Hel")));
               (5001, Resume 0 Done); (5002, Resume 0 StreamEnd);
               (5003, Resume 0 Done); (5004, Resume 0 Done)] eq_refl)
    as (_ & _ & H).
  apply H. reflexivity.
Defined.


(** *** The queue drains *)














End QueuedFacts.

(** ** The control plane *)

Module ServerFacts.
Import Server.

Ltac sproj :=
  cbn [activeAgents requests calls call arrive respond at_pc
       set_activeAgents] in *.

Lemma exec_app rqs1 rqs2 s : exec (rqs1 ++ rqs2) s = exec rqs2 (exec rqs1 s).
Proof. apply foldl_app. Qed.

Lemma present_Some v c : present v = Some c <-> v = Some c /\ truthy c = true.
Proof.
  unfold present. destruct v as [x|]; [|split; [done|by intros []]].
  destruct (truthy x) eqn:T; split; try done.
  - by intros [= ->].
  - by intros [[= ->] _].
  - intros [[= ->] ?]. congruence.
Qed.

Lemma present_None v : present v = None <-> v = None \/ v = Some "".
Proof.
  unfold present. destruct v as [x|]; [|split; [by left|done]].
  destruct x; simpl; split; try done; try (by right); by intros [|].
Qed.

Lemma exec_cons rq rqs s : exec (rq :: rqs) s = exec rqs (step rq s).
Proof. done. Qed.

Lemma post_start_fresh s c channel_type :
  truthy c = true -> activeAgents s !! c = None ->
  step (PostStart (Some c) channel_type) s
  = arrive (StartAwaitUpsert c (default "messaging" channel_type))
      (call [UpsertUser (agentUserId c) (Some "admin")] s).
Proof.
  intros Hc Hn. cbn [step].
  assert (present (Some c) = Some c) as -> by (by apply present_Some).
  by rewrite Hn.
Qed.

Lemma get_status_step s c :
  truthy c = true ->
  step (GetStatus (Some c)) s
  = respond (Json 200 "status"
               (match activeAgents s !! c with
                | Some _ => "connected"
                | None => "disconnected"
                end)) s.
Proof.
  intros Hc. cbn [step].
  by assert (present (Some c) = Some c) as -> by (by apply present_Some).
Qed.

Lemma start_run_at s k c ty a :
  requests s !! k = Some (StartAwaitUpsert c ty) ->
  let s1 := exec (start_ok k a) s in
  activeAgents s1 = <[c := a]> (activeAgents s)
  /\ requests s1
     = <[k := Responded (Json 200 "message" "AI agent started successfully")]>
         (requests s)
  /\ calls s1
     = calls s ++ [AddMembers ty c (agentUserId c);
                   CreateAgent (agentUserId c) ty c; InitAgent a].
Proof.
  intros Hk. pose proof (lookup_lt_Some _ _ _ Hk) as Hlt.
  cbn [exec start_ok foldl step]. rewrite Hk. cbn [settle]. sproj.
  rewrite list_lookup_insert_eq by done. cbn [settle]. sproj.
  rewrite list_lookup_insert_eq by (by rewrite length_insert).
  cbn [settle]. sproj.
  rewrite list_lookup_insert_eq by (by rewrite !length_insert).
  cbn [settle]. sproj.
  rewrite !list_insert_insert_eq, <- !app_assoc. done.
Qed.

Lemma start_runs s c ty a :
  let s1 := exec (start_ok (length (requests s)) a)
              (arrive (StartAwaitUpsert c ty)
                 (call [UpsertUser (agentUserId c) (Some "admin")] s)) in
  activeAgents s1 = <[c := a]> (activeAgents s)
  /\ requests s1
     = requests s
       ++ [Responded (Json 200 "message" "AI agent started successfully")]
  /\ calls s1
     = calls s ++ [UpsertUser (agentUserId c) (Some "admin");
                   AddMembers ty c (agentUserId c);
                   CreateAgent (agentUserId c) ty c; InitAgent a].
Proof.
  set (s0 := arrive (StartAwaitUpsert c ty)
               (call [UpsertUser (agentUserId c) (Some "admin")] s)).
  destruct (start_run_at s0 (length (requests s)) c ty a) as (H1 & H2 & H3).
  { subst s0. sproj. by rewrite lookup_app_r, Nat.sub_diag by lia. }
  cbv zeta in *. rewrite H1, H2, H3. subst s0. sproj.
  rewrite insert_app_r_alt by lia. rewrite Nat.sub_diag, <- app_assoc. done.
Qed.

(** X17.  Start, status, stop, status.  For a channel without agent, a
    start request whose four awaited operations resolve registers the agent
    that [createAgent] returned and answers "AI agent started
    successfully"; the status is then "connected".  A stop request then
    disposes that agent, and when [dispose] has resolved the channel is
    removed, the registry is what it was before the start, and the status
    is "disconnected". *)
Theorem start_status_stop_round_trip (s : State) (c : string)
    (channel_type : option string) (a : nat) :
  truthy c = true -> activeAgents s !! c = None ->
  let k := length (requests s) in
  let ty := default "messaging" channel_type in
  let s1 := exec (PostStart (Some c) channel_type :: start_ok k a
                  ++ [GetStatus (Some c)]) s in
  let s2 := exec [PostStop (Some c); Settle (k + 2) Resolved;
                  GetStatus (Some c)] s1 in
  activeAgents s1 = <[c := a]> (activeAgents s)
  /\ requests s1
     = requests s
       ++ [Responded (Json 200 "message" "AI agent started successfully");
           Responded (Json 200 "status" "connected")]
  /\ calls s1
     = calls s ++ [UpsertUser (agentUserId c) (Some "admin");
                   AddMembers ty c (agentUserId c);
                   CreateAgent (agentUserId c) ty c; InitAgent a]
  /\ activeAgents s2 = activeAgents s
  /\ requests s2
     = requests s1
       ++ [Responded (Json 200 "message" "AI agent stopped successfully");
           Responded (Json 200 "status" "disconnected")]
  /\ calls s2 = calls s1 ++ [DisposeAgent a].
Proof.
  intros Hc Hn. cbv zeta.
  assert (Hp : present (Some c) = Some c) by (by apply present_Some).
  destruct (start_runs s c (default "messaging" channel_type) a)
    as (M1 & R1 & C1). cbv zeta in M1, R1, C1.
  rewrite exec_cons, exec_app, post_start_fresh by done.
  rewrite exec_cons, get_status_step by done.
  set (s0 := exec (start_ok _ a) _) in *.
  rewrite M1, lookup_insert_eq. cbn [exec foldl]. sproj.
  rewrite R1, C1, <- !app_assoc. cbn [app].
  split; [done|]. split; [done|]. split; [done|].
  cbn [step]. rewrite Hp. sproj. rewrite M1, lookup_insert_eq. sproj.
  assert (Hk : length (requests s0 ++ [Responded (Json 200 "status" "connected")])
               = (length (requests s) + 2)%nat).
  { rewrite R1, !length_app. simpl. lia. }
  rewrite <- Hk, lookup_app_r by lia. rewrite Nat.sub_diag.
  cbn [lookup list_lookup settle]. sproj. rewrite M1.
  rewrite delete_insert_eq, delete_id by done. rewrite Hn.
  rewrite insert_app_r_alt by lia. rewrite Nat.sub_diag.
  cbn [insert list_insert]. rewrite R1, C1, <- !app_assoc. done.
Qed.

Lemma start_status_stop_round_trip_witness :
  activeAgents
    (exec (PostStart (Some "c1") None
           :: start_ok (length (requests initial)) 7
           ++ [GetStatus (Some "c1")]) initial)
  = <["c1" := 7%nat]> (activeAgents initial).
Proof.
  exact (proj1 (start_status_stop_round_trip initial "c1" None 7%nat
                  eq_refl (lookup_empty "c1"))).
Defined.

(** X18.  A start request that fails registers nothing.  Whichever of
    the four awaited operations rejects (the upsert of the bot user, the
    membership, [createAgent] or [init]), the request answers 500 with the
    message of the error, or "Failed to start AI agent" when the error has
    none; the registry is left as it is and no further call is made, so an
    agent whose [init] failed is neither registered nor disposed. *)
Theorem failed_start_registers_nothing (s : State) (k : nat) (pc : Pending)
    (error : JsError) :
  requests s !! k = Some pc -> is_start pc = true ->
  let s' := step (Settle k (Rejected error)) s in
  activeAgents s' = activeAgents s /\ calls s' = calls s
  /\ requests s'
     = <[k := Responded
               (Json 500 "reason"
                  (if truthy (err_message error) then err_message error
                   else "Failed to start AI agent"))]> (requests s).
Proof.
  intros Hk Hs. cbn [step]. rewrite Hk.
  destruct pc; try done; cbn [settle]; sproj; done.
Qed.

Lemma failed_start_registers_nothing_witness :
  let s := exec [PostStart (Some "c1") None; Settle 0 Resolved;
                 Settle 0 Resolved; Settle 0 (ResolvedAgent 7)] initial in
  let error := {| err_name := "Error"; err_message := "" |} in
  requests (step (Settle 0 (Rejected error)) s)
  = <[0%nat := Responded (Json 500 "reason" "Failed to start AI agent")]>
      (requests s).
Proof.
  intros s error.
  exact (proj2 (proj2 (failed_start_registers_nothing s 0
                         (StartAwaitInit "c1" 7) error eq_refl eq_refl))).
Defined.

(** X19.  The check of [activeAgents.has] and the [activeAgents.set] of
    a start request are separated by four [await]s.  Two start requests for
    the same channel that arrive before either has finished both pass the
    check: two agents are created and initialised, both requests answer
    "AI agent started successfully", and the registry keeps the agent of the
    request that finished last.  A stop request then disposes that agent
    only; the other agent is never disposed through the registry. *)
Theorem overlapping_starts_create_two_agents (s : State) (c : string)
    (ty1 ty2 : option string) (a1 a2 : nat) :
  truthy c = true -> activeAgents s !! c = None ->
  let k := length (requests s) in
  let s' := exec (PostStart (Some c) ty1 :: PostStart (Some c) ty2
                  :: start_ok k a1 ++ start_ok (S k) a2) s in
  activeAgents s' = <[c := a2]> (activeAgents s)
  /\ requests s'
     = requests s
       ++ [Responded (Json 200 "message" "AI agent started successfully");
           Responded (Json 200 "message" "AI agent started successfully")]
  /\ InitAgent a1 ∈ calls s' /\ InitAgent a2 ∈ calls s'
  /\ calls (exec [PostStop (Some c); Settle (k + 2) Resolved] s')
     = calls s' ++ [DisposeAgent a2]
  /\ activeAgents (exec [PostStop (Some c); Settle (k + 2) Resolved] s')
     = activeAgents s.
Proof.
  intros Hc Hn. cbv zeta.
  assert (Hp : present (Some c) = Some c) by (by apply present_Some).
  rewrite exec_cons, post_start_fresh by done.
  set (s1 := arrive _ _).
  rewrite exec_cons, post_start_fresh by done.
  set (s2 := arrive _ _). rewrite exec_app.
  set (k := length (requests s)).
  assert (R2 : requests s2
               = requests s ++ [StartAwaitUpsert c (default "messaging" ty1);
                                StartAwaitUpsert c (default "messaging" ty2)]).
  { subst s2 s1. sproj. by rewrite <- app_assoc. }
  destruct (start_run_at s2 k c (default "messaging" ty1) a1)
    as (M3 & R3 & C3).
  { rewrite R2. subst k. by rewrite lookup_app_r, Nat.sub_diag by lia. }
  cbv zeta in M3, R3, C3. set (s3 := exec (start_ok k a1) s2) in *.
  destruct (start_run_at s3 (S k) c (default "messaging" ty2) a2)
    as (M4 & R4 & C4).
  { rewrite R3, list_lookup_insert_ne by lia. rewrite R2. subst k.
    rewrite lookup_app_r by lia.
    by replace (S (length (requests s)) - length (requests s))%nat
      with 1%nat by lia. }
  cbv zeta in M4, R4, C4. set (s4 := exec (start_ok (S k) a2) s3) in *.
  assert (M : activeAgents s4 = <[c:=a2]> (activeAgents s)).
  { rewrite M4, M3, insert_insert_eq. by subst s2 s1. }
  assert (R : requests s4
              = requests s
                ++ [Responded (Json 200 "message"
                                 "AI agent started successfully");
                    Responded (Json 200 "message"
                                 "AI agent started successfully")]).
  { rewrite R4, R3, R2. subst k.
    rewrite (insert_app_r_alt _ _ (length (requests s))) by lia.
    rewrite Nat.sub_diag. cbn [insert list_insert].
    rewrite insert_app_r_alt by lia.
    by replace (S (length (requests s)) - length (requests s))%nat
      with 1%nat by lia. }
  split; [done|]. split; [done|].
  split.
  { rewrite C4, C3, !elem_of_app. left. right. rewrite !elem_of_cons. auto. }
  split.
  { rewrite C4, elem_of_app. right. rewrite !elem_of_cons. auto. }
  cbn [exec foldl step]. rewrite Hp, M, lookup_insert_eq. sproj.
  assert (Hk : length (requests s4) = (k + 2)%nat).
  { rewrite R, length_app. simpl. subst k. lia. }
  rewrite <- Hk, lookup_app_r by lia. rewrite Nat.sub_diag.
  cbn [lookup list_lookup settle]. sproj. split; [done|].
  rewrite M, delete_insert_eq, delete_id; done.
Qed.

Lemma overlapping_starts_create_two_agents_witness :
  activeAgents
    (exec (PostStart (Some "c1") None :: PostStart (Some "c1") None
           :: start_ok (length (requests initial)) 7
           ++ start_ok (S (length (requests initial))) 8) initial)
  = <["c1" := 8%nat]> (activeAgents initial).
Proof.
  exact (proj1 (overlapping_starts_create_two_agents initial "c1" None None
                  7%nat 8%nat eq_refl (lookup_empty "c1"))).
Defined.

(** X20.  A request without its identifier (absent or empty) is answered
    with status 400 on every route; it makes no call and leaves the
    registry as it is. *)
Theorem missing_identifier_is_rejected (s : State) (v ty signed : option string) :
  v = None \/ v = Some "" ->
  (forall rq, rq = PostStart v ty \/ rq = PostStop v \/ rq = GetStatus v ->
     step rq s
     = respond (Json 400 "reason" "channel_id is required") s)
  /\ step (PostToken v signed) s
     = respond (Json 400 "error" "userId is required") s
  /\ activeAgents (respond (Json 400 "reason" "channel_id is required") s)
     = activeAgents s
  /\ calls (respond (Json 400 "reason" "channel_id is required") s) = calls s.
Proof.
  intros Hv. apply present_None in Hv. repeat split.
  - intros rq [ -> | [ -> | -> ] ]; cbn [step]; by rewrite Hv.
  - cbn [step]. by rewrite Hv.
Qed.

Lemma missing_identifier_is_rejected_witness :
  step (PostStop (Some "")) initial
  = respond (Json 400 "reason" "channel_id is required") initial.
Proof.
  destruct (missing_identifier_is_rejected initial (Some "") None None
              (or_intror eq_refl)) as (H & _).
  apply H. right. by left.
Defined.

(** *** The registry *)

Record Sound (s : State) : Prop := {
  sd_registered : registered_ok s;
  sd_pending : Forall (pending_ok (calls s)) (requests s);
}.

Lemma pending_ok_more cs cs' pc :
  pending_ok cs pc -> pending_ok (cs ++ cs') pc.
Proof.
  destruct pc; simpl; try done.
  - intros [H1 H2]. split; [done|]. apply elem_of_app. by left.
  - intros (H1 & H2 & ty & H3). split; [done|].
    split; [apply elem_of_app; by left|].
    exists ty. apply elem_of_app. by left.
  - intros H. apply elem_of_app. by left.
Qed.

Lemma sound_call cs s : Sound s -> Sound (call cs s).
Proof.
  intros [H1 H2]. split; sproj.
  - intros c a Hc. destruct (H1 c a Hc) as (T & I & ty & Cr).
    split; [done|]. split; [apply elem_of_app; by left|].
    exists ty. apply elem_of_app. by left.
  - eapply Forall_impl; [done|]. intros pc. apply pending_ok_more.
Qed.

Lemma sound_arrive pc s :
  pending_ok (calls s) pc -> Sound s -> Sound (arrive pc s).
Proof.
  intros Hpc [H1 H2]. split; sproj; [done|].
  apply Forall_app. split; [done|]. by apply Forall_singleton.
Qed.

Lemma sound_at_pc k pc s :
  pending_ok (calls s) pc -> Sound s -> Sound (at_pc k pc s).
Proof.
  intros Hpc [H1 H2]. split; sproj; [done|].
  destruct (decide (k < length (requests s))%nat).
  - by apply Forall_insert.
  - by rewrite list_insert_ge by lia.
Qed.

Lemma sound_initial : Sound initial.
Proof.
  split; [|constructor]. intros c a Hc. cbn [activeAgents initial] in Hc.
  by rewrite lookup_empty in Hc.
Qed.

Lemma sound_step rq s : Sound s -> Sound (step rq s).
Proof.
  intros HS. destruct rq; cbn [step].
  - destruct (present userId); [|by apply sound_arrive].
    destruct signed; by apply sound_arrive, sound_call.
  - destruct (present channel_id) as [c|] eqn:Hp; [|by apply sound_arrive].
    destruct (activeAgents s !! c); [by apply sound_arrive|].
    apply sound_arrive; [|by apply sound_call].
    apply present_Some in Hp as [_ Hp]. done.
  - destruct (present channel_id) as [c|]; [|by apply sound_arrive].
    destruct (activeAgents s !! c) as [a|]; [|by apply sound_arrive].
    apply sound_arrive; [|by apply sound_call].
    sproj. apply elem_of_app. right. by left.
  - destruct (present channel_id) as [c|]; by apply sound_arrive.
  - destruct (requests s !! request) as [pc|] eqn:Hk; [|done].
    pose proof (Forall_lookup_1 _ _ _ _ (sd_pending _ HS) Hk) as Hpc.
    destruct pc, r; cbn [settle]; try done; simpl in Hpc;
      try (by apply sound_at_pc).
    + (* the bot user is upserted *)
      apply sound_at_pc; [done|]. by apply sound_call.
    + (* the bot is a member: createAgent is called *)
      apply sound_at_pc; [|by apply sound_call].
      split; [done|]. sproj. apply elem_of_app. right. by left.
    + (* createAgent resolved: init is called *)
      destruct Hpc as [T Cr]. apply sound_at_pc; [|by apply sound_call].
      split; [done|]. sproj. split; [apply elem_of_app; right; by left|].
      exists channel_type. apply elem_of_app. by left.
    + (* init resolved: the agent is registered *)
      destruct Hpc as (T & I & ty & Cr). apply sound_at_pc; [done|].
      destruct HS as [H1 H2]. split; [|done].
      intros c a Hc. sproj. destruct (decide (c = channel_id)) as [->|Hne].
      * rewrite lookup_insert_eq in Hc. simplify_eq. eauto.
      * rewrite lookup_insert_ne in Hc by done. eauto.
    + (* dispose resolved: the channel is removed *)
      apply sound_at_pc; [done|].
      destruct HS as [H1 H2]. split; [|done].
      intros c a Hc. sproj. apply lookup_delete_Some in Hc as [_ Hc]. eauto.
Qed.

Lemma sound_exec rqs : forall s, Sound s -> Sound (exec rqs s).
Proof.
  induction rqs as [|rq rqs IH]; intros s HS; [done|].
  rewrite exec_cons. by apply IH, sound_step.
Qed.

(** X21.  Whatever requests arrive and however the awaited operations
    settle, a channel is registered in [activeAgents] only with a non-empty
    id, and only with an agent that [createAgent] was asked to create for
    that channel and whose [init] was called. *)
Theorem registered_agents_are_initialised (rqs : list Request)
    (channel_id : string) (agent : nat) :
  activeAgents (exec rqs initial) !! channel_id = Some agent ->
  channel_id <> ""
  /\ InitAgent agent ∈ calls (exec rqs initial)
  /\ exists channel_type,
       CreateAgent ("ai-assistant-" +:+ channel_id) channel_type channel_id
         ∈ calls (exec rqs initial).
Proof.
  intros H. destruct (sd_registered _ (sound_exec rqs _ sound_initial) _ _ H)
    as (T & I & Cr). split; [|done]. by intros ->.
Qed.

Lemma registered_agents_are_initialised_witness :
  InitAgent 7
    ∈ calls (exec (PostStart (Some "c1") None :: start_ok 0 7) initial).
Proof.
  refine (proj1 (proj2 (registered_agents_are_initialised
                          (PostStart (Some "c1") None :: start_ok 0 7)
                          "c1" 7%nat _))).
  vm_compute. reflexivity.
Defined.

End ServerFacts.
